(** * The message exchange core of ai-processing-layer

    A shallow embedding of the A114 wire codec ([A114Protocol]), the cache
    manager ([CacheManager], over the [lru-cache] package), the token
    optimizer ([TokenOptimizer]) and the delivery pipeline
    ([AIProcessingLayer]), with the properties the specification states
    about them.

    Conventions.
    - A [Buffer] is a list of bytes, each an integer in [0, 256).
    - A JavaScript string is the list of its code points in iteration order;
      a code point in the surrogate range stands for an unpaired surrogate.
    - A JavaScript number is either an integer ([VInt], the numbers on which
      [Number.isInteger] holds) or a double that is not an integer
      ([VFloat], given by its IEEE-754 binary64 bit pattern).
    - A plain object is the list of its own enumerable properties in
      insertion order, with distinct keys; assignment [obj[k] = v] replaces
      the value of an existing key in place and appends a new key.  The
      prototype chain is not part of the model.
    - A function that can throw returns a [result]; code with side effects
      threads its state explicitly. *)

From Stdlib Require Import ZArith Lia String Ascii DecimalPos DecimalN.
From stdpp Require Import base numbers list gmap.

Set Warnings "-register-all".
Local Open Scope Z_scope.

(** ** Results of functions that can throw *)

Inductive error : Type :=
| TooShort                      (* 'Invalid A114 packet: too short' *)
| WrongMagic                    (* 'Invalid A114 packet: wrong magic bytes' *)
| UnsupportedVersion (v : Z)    (* 'Unsupported A114 version: v' *)
| LengthMismatch                (* 'Invalid A114 packet: payload length mismatch' *)
| UnknownDataType (t : Z)       (* 'Unknown A114 data type: 0x..' *)
| UnknownCommand (name : list Z)(* 'Unknown A114 command: name' *)
| UnknownCommandCode (c : Z)    (* 'Unknown A114 command code: 0x..' *)
| EmptyPacket                   (* 'Empty A114 command packet' *)
| OutOfRange                    (* the RangeError of a Buffer read or write *)
| DepthExhausted                (* the recursion bound of the model was reached *)
| AgentNotRegistered            (* 'Agent not registered' *)
| ReceiverNotFound.             (* 'Receiver not found' *)

Inductive result (A : Type) : Type :=
| Ok (a : A)
| Throw (e : error).
Arguments Ok {A} a.
Arguments Throw {A} e.

Definition bind {A B : Type} (r : result A) (k : A -> result B) : result B :=
  match r with
  | Ok a => k a
  | Throw e => Throw e
  end.

Notation "'let*' x ':=' r 'in' k" := (bind r (fun x => k))
  (at level 10, x pattern, r at level 100, k at level 200).

(** The four header faults and the unknown-tag fault are the FORMAT_ERROR
    class of the specification. *)
Definition is_format_error (e : error) : bool :=
  match e with
  | TooShort | WrongMagic | UnsupportedVersion _ | LengthMismatch
  | UnknownDataType _ => true
  | _ => false
  end.

(** The call [r] fails with the FORMAT_ERROR [e]. *)
Definition format_error {A : Type} (r : result A) (e : error) : Prop :=
  r = Throw e /\ is_format_error e = true.

(** ** Strings *)

Definition in_range (lo hi x : Z) : bool := (lo <=? x) && (x <=? hi).

Definition jsstring : Type := list Z.

(** An ASCII literal as a JavaScript string. *)
Fixpoint str (s : string) : jsstring :=
  match s with
  | EmptyString => []
  | String c s' => Z.of_nat (nat_of_ascii c) :: str s'
  end.

Definition is_surrogate (c : Z) : bool := in_range 0xD800 0xDFFF c.

(** A Unicode scalar value: a code point that is not a surrogate. *)
Definition is_scalar (c : Z) : bool :=
  in_range 0 0x10FFFF c && negb (is_surrogate c).

(** [String.prototype.length]: the number of UTF-16 code units. *)
Definition js_length (s : jsstring) : Z :=
  fold_right (fun c n => (if 0xFFFF <? c then 2 else 1) + n) 0 s.

(** *** UTF-8, as [Buffer.from(s, 'utf8')] and [buf.toString('utf8')] use it *)

Definition utf8_encode_cp (c : Z) : list Z :=
  if c <? 0x80 then [c]
  else if c <? 0x800 then [0xC0 + c / 64; 0x80 + c mod 64]
  else if is_surrogate c then [0xEF; 0xBF; 0xBD]
  else if c <? 0x10000 then
    [0xE0 + c / 4096; 0x80 + (c / 64) mod 64; 0x80 + c mod 64]
  else
    [0xF0 + c / 262144; 0x80 + (c / 4096) mod 64;
     0x80 + (c / 64) mod 64; 0x80 + c mod 64].

Definition utf8_encode (s : jsstring) : list Z :=
  flat_map utf8_encode_cp s.

(** The decoder is the state machine of the Encoding Standard: [u_needed]
    continuation bytes are still expected, the next one within
    [[u_lower, u_upper]]; an ill-formed sequence yields U+FFFD. *)
Record utf8_state : Type := mk_utf8_state {
  u_cp : Z;
  u_needed : nat;
  u_lower : Z;
  u_upper : Z
}.

Definition utf8_init : utf8_state := mk_utf8_state 0 0 0x80 0xBF.

Definition utf8_lead (b : Z) : list Z * utf8_state :=
  if in_range 0 0x7F b then ([b], utf8_init)
  else if in_range 0xC2 0xDF b then
    ([], mk_utf8_state (b - 0xC0) 1 0x80 0xBF)
  else if in_range 0xE0 0xEF b then
    ([], mk_utf8_state (b - 0xE0) 2
           (if b =? 0xE0 then 0xA0 else 0x80)
           (if b =? 0xED then 0x9F else 0xBF))
  else if in_range 0xF0 0xF4 b then
    ([], mk_utf8_state (b - 0xF0) 3
           (if b =? 0xF0 then 0x90 else 0x80)
           (if b =? 0xF4 then 0x8F else 0xBF))
  else ([0xFFFD], utf8_init).

Definition utf8_step (st : utf8_state) (b : Z) : list Z * utf8_state :=
  match u_needed st with
  | O => utf8_lead b
  | S n =>
      if in_range (u_lower st) (u_upper st) b then
        let cp := u_cp st * 64 + (b - 0x80) in
        match n with
        | O => ([cp], utf8_init)
        | S _ => ([], mk_utf8_state cp n 0x80 0xBF)
        end
      else
        let '(out, st') := utf8_lead b in (0xFFFD :: out, st')
  end.

Fixpoint utf8_run (st : utf8_state) (bs : list Z) : jsstring :=
  match bs with
  | [] => match u_needed st with O => [] | S _ => [0xFFFD] end
  | b :: rest =>
      let '(out, st') := utf8_step st b in out ++ utf8_run st' rest
  end.

Definition utf8_decode (bs : list Z) : jsstring := utf8_run utf8_init bs.

(** ** Structured values *)

Inductive value : Type :=
| VUndefined
| VNull
| VBool (b : bool)
| VInt (z : Z)
| VFloat (bits : Z)
| VString (s : jsstring)
| VArray (items : list value)
| VObject (props : list (jsstring * value)).

(** ** Buffer primitives *)

Definition Buffer : Type := list Z.

(** The [n] bytes of [x mod 256^n], most significant first. *)
Fixpoint be_bytes (n : nat) (x : Z) : Buffer :=
  match n with
  | O => []
  | S n' => (x / 256 ^ Z.of_nat n') mod 256 :: be_bytes n' x
  end.

Definition be_value (bs : Buffer) : Z :=
  fold_left (fun acc b => acc * 256 + b) bs 0.

Definition to_signed (bits : Z) (x : Z) : Z :=
  if x <? 2 ^ (bits - 1) then x else x - 2 ^ bits.

(** [buf.writeInt8(v)], [buf.writeInt16BE(v)], [buf.writeInt32BE(v)] and
    [buf.writeUInt32BE(v)]: each throws a RangeError outside its range. *)
Definition writeInt8 (v : Z) : result Buffer :=
  if in_range (-128) 127 v then Ok (be_bytes 1 v) else Throw OutOfRange.

Definition writeInt16BE (v : Z) : result Buffer :=
  if in_range (-32768) 32767 v then Ok (be_bytes 2 v) else Throw OutOfRange.

Definition writeInt32BE (v : Z) : result Buffer :=
  if in_range (-2147483648) 2147483647 v then Ok (be_bytes 4 v)
  else Throw OutOfRange.

Definition writeUInt32BE (v : Z) : result Buffer :=
  if in_range 0 4294967295 v then Ok (be_bytes 4 v) else Throw OutOfRange.

(** [buf.writeDoubleBE(v)] for the double with bit pattern [bits]. *)
Definition writeDoubleBE (bits : Z) : Buffer := be_bytes 8 bits.

(** The [n] bytes at [offset]; a read past the end throws a RangeError. *)
Definition read_bytes (n : nat) (buffer : Buffer) (offset : nat)
  : result Buffer :=
  let bs := take n (drop offset buffer) in
  if (length bs =? n)%nat then Ok bs else Throw OutOfRange.

Definition readUInt8 (buffer : Buffer) (offset : nat) : result Z :=
  let* bs := read_bytes 1 buffer offset in Ok (be_value bs).

Definition readInt8 (buffer : Buffer) (offset : nat) : result Z :=
  let* bs := read_bytes 1 buffer offset in Ok (to_signed 8 (be_value bs)).

Definition readInt16BE (buffer : Buffer) (offset : nat) : result Z :=
  let* bs := read_bytes 2 buffer offset in Ok (to_signed 16 (be_value bs)).

Definition readInt32BE (buffer : Buffer) (offset : nat) : result Z :=
  let* bs := read_bytes 4 buffer offset in Ok (to_signed 32 (be_value bs)).

Definition readUInt32BE (buffer : Buffer) (offset : nat) : result Z :=
  let* bs := read_bytes 4 buffer offset in Ok (be_value bs).

(** The number a binary64 bit pattern denotes: an integer when the double
    is integral (both zeros are the integer 0), the pattern itself
    otherwise, with every NaN pattern read as the one NaN. *)
Definition NaN_bits : Z := 0x7FF8000000000000.

Definition double_of_bits (bits : Z) : value :=
  let sign := if bits / 2 ^ 63 =? 0 then 1 else -1 in
  let e := (bits / 2 ^ 52) mod 2 ^ 11 in
  let m := bits mod 2 ^ 52 in
  if e =? 2047 then (if m =? 0 then VFloat bits else VFloat NaN_bits)
  else
    let M := if e =? 0 then m else m + 2 ^ 52 in
    let E := if e =? 0 then -1074 else e - 1075 in
    if 0 <=? E then VInt (sign * (M * 2 ^ E))
    else if M mod 2 ^ (- E) =? 0 then VInt (sign * (M / 2 ^ (- E)))
    else VFloat bits.

Definition readDoubleBE (buffer : Buffer) (offset : nat) : result value :=
  let* bs := read_bytes 8 buffer offset in Ok (double_of_bits (be_value bs)).

(** ** Objects *)

(** Assignment to a key of an insertion-ordered map ([map.set(k, v)] on a
    [Map], [obj[k] = v] on a plain object): an existing key keeps its
    place, a new key goes last. *)
Fixpoint alist_set {A : Type} (k : jsstring) (v : A) (m : list (jsstring * A))
  : list (jsstring * A) :=
  match m with
  | [] => [(k, v)]
  | (k', v') :: rest =>
      if decide (k = k') then (k, v) :: rest else (k', v') :: alist_set k v rest
  end.

Definition obj_set (k : jsstring) (v : value) (obj : list (jsstring * value))
  : list (jsstring * value) :=
  alist_set k v obj.

(** Truthiness, as a conditional tests it. *)
Definition is_NaN (bits : Z) : bool :=
  ((bits / 2 ^ 52) mod 2 ^ 11 =? 2047) && negb (bits mod 2 ^ 52 =? 0).

Definition truthy (v : value) : bool :=
  match v with
  | VUndefined | VNull => false
  | VBool b => b
  | VInt z => negb (z =? 0)
  | VFloat bits => negb (is_NaN bits)
  | VString s => negb (bool_decide (s = []))
  | VArray _ | VObject _ => true
  end.

(** ** The A114 protocol (src/protocols/A114Protocol.ts) *)

Module A114Protocol.

Definition HEADER_SIZE : nat := 8.
Definition VERSION : Z := 1.

Definition COMMANDS : list (jsstring * Z) :=
  [ (str "INIT", 0x01); (str "TERM", 0x02); (str "ACK", 0x03);
    (str "NACK", 0x04);
    (str "SEND", 0x10); (str "RECV", 0x11); (str "PUSH", 0x12);
    (str "PULL", 0x13);
    (str "STORE", 0x20); (str "LOAD", 0x21); (str "CLEAR", 0x22);
    (str "SYNC", 0x23);
    (str "EXEC", 0x30); (str "EVAL", 0x31); (str "COMP", 0x32);
    (str "OPTIM", 0x33);
    (str "STAT", 0x40); (str "CONF", 0x41); (str "DIAG", 0x42);
    (str "RESET", 0x43) ].

Definition DT_NULL : Z := 0x00.
Definition DT_BOOL : Z := 0x01.
Definition DT_INT8 : Z := 0x02.
Definition DT_INT16 : Z := 0x03.
Definition DT_INT32 : Z := 0x04.
Definition DT_FLOAT32 : Z := 0x05.
Definition DT_FLOAT64 : Z := 0x06.
Definition DT_STRING : Z := 0x07.
Definition DT_ARRAY : Z := 0x08.
Definition DT_OBJECT : Z := 0x09.
Definition DT_BINARY : Z := 0x0A.

(** [createHeader(payloadLength)] *)
Definition createHeader (payloadLength : Z) : result Buffer :=
  let* len := writeUInt32BE payloadLength in
  Ok ([0xA1; 0x14; VERSION; 0x00] ++ len).

(** [parseHeader(header)]: version, flags and payload length. *)
Definition parseHeader (header : Buffer) : result (Z * Z * Z) :=
  let* magic1 := readUInt8 header 0 in
  let* magic2 := readUInt8 header 1 in
  if negb (magic1 =? 0xA1) || negb (magic2 =? 0x14) then Throw WrongMagic
  else
    let* version := readUInt8 header 2 in
    if negb (version =? VERSION) then Throw (UnsupportedVersion version)
    else
      let* flags := readUInt8 header 3 in
      let* payloadLength := readUInt32BE header 4 in
      Ok (version, flags, payloadLength).

(** The string case of [encodeValue], also used for object keys. *)
Definition encodeString (s : jsstring) : result Buffer :=
  let strBuf := utf8_encode s in
  let* lenBuf := writeUInt32BE (Z.of_nat (length strBuf)) in
  Ok (DT_STRING :: lenBuf ++ strBuf).

(** The loops of [encodeValue] over the elements of an array and over the
    keys of an object; [encodeItem] is the recursive call. *)
Fixpoint encodeItems (encodeItem : value -> result Buffer) (l : list value)
  : result Buffer :=
  match l with
  | [] => Ok []
  | item :: l' =>
      let* a := encodeItem item in
      let* b := encodeItems encodeItem l' in
      Ok (a ++ b)
  end.

Fixpoint encodePairs (encodeItem : value -> result Buffer)
    (l : list (jsstring * value)) : result Buffer :=
  match l with
  | [] => Ok []
  | (key, x) :: l' =>
      let* k := encodeString key in
      let* a := encodeItem x in
      let* b := encodePairs encodeItem l' in
      Ok (k ++ a ++ b)
  end.

(** [encodeValue(value, chunks)]: the bytes pushed onto [chunks]. *)
Fixpoint encodeValue (v : value) : result Buffer :=
  match v with
  | VUndefined | VNull => Ok [DT_NULL]
  | VBool b => Ok [DT_BOOL; if b then 1 else 0]
  | VInt z =>
      if in_range (-128) 127 z then
        let* p := writeInt8 z in Ok (DT_INT8 :: p)
      else if in_range (-32768) 32767 z then
        let* p := writeInt16BE z in Ok (DT_INT16 :: p)
      else
        let* p := writeInt32BE z in Ok (DT_INT32 :: p)
  | VFloat bits => Ok (DT_FLOAT64 :: writeDoubleBE bits)
  | VString s => encodeString s
  | VArray items =>
      let* lenBuf := writeUInt32BE (Z.of_nat (length items)) in
      let* body := encodeItems encodeValue items in
      Ok (DT_ARRAY :: lenBuf ++ body)
  | VObject props =>
      let* lenBuf := writeUInt32BE (Z.of_nat (length props)) in
      let* body := encodePairs encodeValue props in
      Ok (DT_OBJECT :: lenBuf ++ body)
  end.

Definition encodePayload (data : value) : result Buffer := encodeValue data.

(** [encode(data)] *)
Definition encode (data : value) : result Buffer :=
  let* payload := encodePayload data in
  let* header := createHeader (Z.of_nat (length payload)) in
  Ok (header ++ payload).

Section Decoding.

(** The language's [ToString] conversion of a value that is not a string,
    applied when a decoded key is used as a property name. *)
Variable js_ToString : value -> jsstring.

Definition to_property_key (v : value) : jsstring :=
  match v with
  | VString s => s
  | _ => js_ToString v
  end.

(** The loops of [decodeValue] that read [n] elements of an array and [n]
    pairs of an object from [offset]; [decodeItem] is the recursive call
    at an offset. *)
Fixpoint decodeItems (decodeItem : nat -> result (value * nat)) (n : nat)
    (offset : nat) (arr : list value) : result (value * nat) :=
  match n with
  | O => Ok (VArray arr, offset)
  | S n' =>
      let* (item, offset') := decodeItem offset in
      decodeItems decodeItem n' offset' (arr ++ [item])
  end.

Fixpoint decodePairs (decodeItem : nat -> result (value * nat)) (n : nat)
    (offset : nat) (obj : list (jsstring * value)) : result (value * nat) :=
  match n with
  | O => Ok (VObject obj, offset)
  | S n' =>
      let* (key, offset1) := decodeItem offset in
      let* (x, offset2) := decodeItem offset1 in
      decodePairs decodeItem n' offset2 (obj_set (to_property_key key) x obj)
  end.

(** [decodeValue(buffer, offset)]: the value and the new offset.  [depth]
    bounds the nesting of the recursive calls. *)
Fixpoint decodeValue (depth : nat) (buffer : Buffer) (offset : nat)
  : result (value * nat) :=
  match depth with
  | O => Throw DepthExhausted
  | S depth' =>
      let* type := readUInt8 buffer offset in
      let offset := S offset in
      if type =? DT_NULL then Ok (VNull, offset)
      else if type =? DT_BOOL then
        let* b := readUInt8 buffer offset in
        Ok (VBool (b =? 1), (offset + 1)%nat)
      else if type =? DT_INT8 then
        let* z := readInt8 buffer offset in Ok (VInt z, (offset + 1)%nat)
      else if type =? DT_INT16 then
        let* z := readInt16BE buffer offset in Ok (VInt z, (offset + 2)%nat)
      else if type =? DT_INT32 then
        let* z := readInt32BE buffer offset in Ok (VInt z, (offset + 4)%nat)
      else if type =? DT_FLOAT64 then
        let* x := readDoubleBE buffer offset in Ok (x, (offset + 8)%nat)
      else if type =? DT_STRING then
        let* strLen := readUInt32BE buffer offset in
        let offset := (offset + 4)%nat in
        let s := utf8_decode (take (Z.to_nat strLen) (drop offset buffer)) in
        Ok (VString s, (offset + Z.to_nat strLen)%nat)
      else if type =? DT_ARRAY then
        let* arrLen := readUInt32BE buffer offset in
        decodeItems (decodeValue depth' buffer) (Z.to_nat arrLen)
          (offset + 4)%nat []
      else if type =? DT_OBJECT then
        let* objLen := readUInt32BE buffer offset in
        decodePairs (decodeValue depth' buffer) (Z.to_nat objLen)
          (offset + 4)%nat []
      else Throw (UnknownDataType type)
  end.

(** [decodePayload(payload)]; a payload of [n] bytes nests fewer than
    [n + 1] calls. *)
Definition decodePayload (payload : Buffer) : result value :=
  let* (v, _) := decodeValue (S (length payload)) payload 0 in Ok v.

(** [decode(buffer)] *)
Definition decode (buffer : Buffer) : result value :=
  if (length buffer <? HEADER_SIZE)%nat then Throw TooShort
  else
    let* (_, _, payloadLength) := parseHeader (take HEADER_SIZE buffer) in
    let payload := drop HEADER_SIZE buffer in
    if negb (Z.of_nat (length payload) =? payloadLength)
    then Throw LengthMismatch
    else decodePayload payload.

(** [createCommand(command, data)]; an omitted [data] is [VUndefined]. *)
Definition createCommand (command : jsstring) (data : value)
  : result Buffer :=
  match List.find (fun e => bool_decide (e.1 = command)) COMMANDS with
  | None => Throw (UnknownCommand command)
  | Some (_, commandCode) =>
      let* dataBuf := if truthy data then encodePayload data else Ok [] in
      Ok ([commandCode] ++ dataBuf)
  end.

(** [parseCommand(buffer)]: the command name and the data, [VUndefined]
    when no byte follows the code. *)
Definition parseCommand (buffer : Buffer) : result (jsstring * value) :=
  if (length buffer =? 0)%nat then Throw EmptyPacket
  else
    let* commandCode := readUInt8 buffer 0 in
    match List.find (fun e => e.2 =? commandCode) COMMANDS with
    | None => Throw (UnknownCommandCode commandCode)
    | Some (commandName, _) =>
        if (1 <? length buffer)%nat then
          let* data := decodePayload (drop 1 buffer) in
          Ok (commandName, data)
        else Ok (commandName, VUndefined)
    end.

End Decoding.

End A114Protocol.

(** ** Enumerations (src/types/index.ts) *)

Inductive MessageType : Type :=
| INSTRUCTION | QUERY | RESPONSE | DATA_TRANSFER | SYSTEM_COMMAND
| MEMORY_SYNC | A114_PROTOCOL.

Inductive Priority : Type := LOW | NORMAL | HIGH | CRITICAL.

Inductive EncodingType : Type := JSON | BINARY | A114 | COMPRESSED_JSON.

Definition Priority_eqb (p q : Priority) : bool :=
  match p, q with
  | LOW, LOW | NORMAL, NORMAL | HIGH, HIGH | CRITICAL, CRITICAL => true
  | _, _ => false
  end.

(** ** The [lru-cache] package, as [CacheManager] configures it

    [LRUCache] with the options [max], [ttl], [updateAgeOnGet: true],
    [allowStale: false] and a [dispose] callback.  The items are kept most
    recently used first.  Every operation returns, besides its result, the
    calls of [dispose] it made: the package calls [dispose(value, key,
    reason)] whenever an item leaves the cache, with reason ['evict'] when
    the capacity forces the least recently used item out, ['set'] when a
    value is overwritten and ['delete'] when [delete] or [clear] removes
    it (a stale item met by [get] is removed through [delete]).  Time is
    the reading of the clock at the call. *)

Module LRUCache.

Inductive DisposeReason : Type := Evict | Overwrite | Delete.

Section Items.

Context {V : Type}.

Record item : Type := mk_item {
  i_key : jsstring;
  i_value : V;
  i_start : Z;   (* when the item's age began *)
  i_ttl : Z
}.

Record t : Type := mk {
  max : nat;
  ttl : Z;
  items : list item
}.

Definition disposal : Type := (V * jsstring * DisposeReason)%type.

Definition create (max : nat) (ttl : Z) : t := mk max ttl [].

Definition size (c : t) : nat := length (items c).

Definition isStale (now : Z) (it : item) : bool :=
  negb (i_ttl it =? 0) && negb (i_start it =? 0)
  && (i_ttl it <? now - i_start it).

Definition has_key (k : jsstring) (it : item) : bool :=
  bool_decide (i_key it = k).

Definition find (k : jsstring) (c : t) : option item :=
  List.find (has_key k) (items c).

Definition remove (k : jsstring) (l : list item) : list item :=
  List.filter (fun it => negb (has_key k it)) l.

Definition start_of (now ttl' : Z) : Z := if ttl' =? 0 then 0 else now.

(** [cache.set(k, v, { ttl })] with a value that differs from the stored
    one. *)
Definition set (now : Z) (k : jsstring) (v : V) (ttl' : Z) (c : t)
  : t * list disposal :=
  let fresh := mk_item k v (start_of now ttl') ttl' in
  match find k c with
  | Some old =>
      (mk (max c) (ttl c) (fresh :: remove k (items c)),
       [(i_value old, k, Overwrite)])
  | None =>
      match List.rev (items c) with
      | lru :: others =>
          if (size c =? max c)%nat then
            (mk (max c) (ttl c) (fresh :: List.rev others),
             [(i_value lru, i_key lru, Evict)])
          else (mk (max c) (ttl c) (fresh :: items c), [])
      | [] => (mk (max c) (ttl c) [fresh], [])
      end
  end.

(** [cache.delete(k)] *)
Definition delete (k : jsstring) (c : t) : bool * t * list disposal :=
  match find k c with
  | Some it =>
      (true, mk (max c) (ttl c) (remove k (items c)),
       [(i_value it, k, Delete)])
  | None => (false, c, [])
  end.

(** [cache.get(k)] *)
Definition get (now : Z) (k : jsstring) (c : t)
  : option V * t * list disposal :=
  match find k c with
  | Some it =>
      if isStale now it then
        let '(_, c', ds) := delete k c in (None, c', ds)
      else
        let it' := mk_item k (i_value it) (start_of now (i_ttl it)) (i_ttl it) in
        (Some (i_value it), mk (max c) (ttl c) (it' :: remove k (items c)), [])
  | None => (None, c, [])
  end.

(** [cache.has(k)] *)
Definition has (now : Z) (k : jsstring) (c : t) : bool :=
  match find k c with
  | Some it => negb (isStale now it)
  | None => false
  end.

(** [cache.clear()] *)
Definition clear (c : t) : t * list disposal :=
  (mk (max c) (ttl c) [],
   List.map (fun it => (i_value it, i_key it, Delete)) (List.rev (items c))).

(** [cache.entries()]: the items that are not stale, most recently used
    first. *)
Definition entries (now : Z) (c : t) : list (jsstring * V) :=
  List.map (fun it => (i_key it, i_value it))
    (List.filter (fun it => negb (isStale now it)) (items c)).

(** A mutation of the object stored under [k], through a reference to it. *)
Definition mutate (k : jsstring) (f : V -> V) (c : t) : t :=
  mk (max c) (ttl c)
    (List.map (fun it =>
       if has_key k it
       then mk_item (i_key it) (f (i_value it)) (i_start it) (i_ttl it)
       else it) (items c)).

End Items.

Arguments item : clear implicits.
Arguments t : clear implicits.
Arguments disposal : clear implicits.

End LRUCache.

(** ** The cache manager (src/cache/CacheManager.ts) *)

Module CacheManager.

Section Manager.

Context {V : Type}.

Record CacheEntry : Type := mk_entry {
  key : jsstring;
  value : V;
  timestamp : Z;
  ttl : Z;
  accessCount : Z;
  priority : Priority
}.

Record Stats : Type := mk_stats {
  hits : Z;
  misses : Z;
  sets : Z;
  evictions : Z
}.

Record t : Type := mk {
  cache : LRUCache.t CacheEntry;
  stats : Stats
}.

(** The [dispose] callback of the constructor: [this.stats.evictions++],
    whatever the reason. *)
Definition dispose (s : Stats) (d : LRUCache.disposal CacheEntry) : Stats :=
  mk_stats (hits s) (misses s) (sets s) (evictions s + 1).

Definition disposed (s : Stats) (ds : list (LRUCache.disposal CacheEntry))
  : Stats :=
  fold_left dispose ds s.

(** [new CacheManager(maxSize, maxAge)]; the defaults are 1000 and 300000. *)
Definition create (maxSize : nat) (maxAge : Z) : t :=
  mk (LRUCache.create maxSize maxAge) (mk_stats 0 0 0 0).

(** [ttl || 300000] *)
Definition ttl_or_default (ttl' : option Z) : Z :=
  match ttl' with
  | Some x => if x =? 0 then 300000 else x
  | None => 300000
  end.

(** [set(key, value, ttl, priority)] *)
Definition set (now : Z) (k : jsstring) (v : V) (ttl' : option Z)
    (priority' : Priority) (m : t) : t :=
  let entry := mk_entry k v now (ttl_or_default ttl') 0 priority' in
  let '(c, ds) := LRUCache.set now k entry (ttl entry) (cache m) in
  let s := disposed (stats m) ds in
  mk c (mk_stats (hits s) (misses s) (sets s + 1) (evictions s)).

Definition touch (e : CacheEntry) : CacheEntry :=
  mk_entry (key e) (value e) (timestamp e) (ttl e)
    (accessCount e + 1) (priority e).

(** [get(key)]: the value, or [None] for [null]. *)
Definition get (now : Z) (k : jsstring) (m : t) : option V * t :=
  let '(r, c, ds) := LRUCache.get now k (cache m) in
  let s := disposed (stats m) ds in
  match r with
  | Some entry =>
      (Some (value entry),
       mk (LRUCache.mutate k touch c)
          (mk_stats (hits s + 1) (misses s) (sets s) (evictions s)))
  | None =>
      (None, mk c (mk_stats (hits s) (misses s + 1) (sets s) (evictions s)))
  end.

(** [has(key)] *)
Definition has (now : Z) (k : jsstring) (m : t) : bool :=
  LRUCache.has now k (cache m).

(** [delete(key)] *)
Definition delete (k : jsstring) (m : t) : bool * t :=
  let '(r, c, ds) := LRUCache.delete k (cache m) in
  (r, mk c (disposed (stats m) ds)).

(** [clear()] *)
Definition clear (m : t) : t :=
  let '(c, ds) := LRUCache.clear (cache m) in mk c (disposed (stats m) ds).

Definition size (m : t) : nat := LRUCache.size (cache m).

(** [getKeysByPriority(priority)] *)
Definition getKeysByPriority (now : Z) (p : Priority) (m : t)
  : list jsstring :=
  List.map fst
    (List.filter (fun ke => Priority_eqb (priority ke.2) p)
       (LRUCache.entries now (cache m))).

(** The filter of [optimize]: [entry.priority === Priority.LOW &&
    entry.accessCount < 2 && (Date.now() - entry.timestamp) > entry.ttl / 2]. *)
Definition is_candidate (now : Z) (entry : CacheEntry) : bool :=
  Priority_eqb (priority entry) LOW && (accessCount entry <? 2)
  && (ttl entry <? 2 * (now - timestamp entry)).

Definition candidates (now : Z) (m : t) : list jsstring :=
  List.map fst
    (List.filter (fun ke => is_candidate now ke.2)
       (LRUCache.entries now (cache m))).

(** The body of [candidates.forEach]: [this.cache.delete(key);
    this.stats.evictions++]. *)
Definition optimize_step (m : t) (k : jsstring) : t :=
  let '(_, m') := delete k m in
  let s := stats m' in
  mk (cache m') (mk_stats (hits s) (misses s) (sets s) (evictions s + 1)).

(** [optimize()] *)
Definition optimize (now : Z) (m : t) : t :=
  fold_left optimize_step (candidates now m) m.

(** An item that [optimize] visits and removes: it is not stale and its
    entry passes the filter. *)
Definition swept (now : Z) (it : LRUCache.item CacheEntry) : bool :=
  negb (LRUCache.isStale now it) && is_candidate now (LRUCache.i_value it).

(** [backupCritical()] *)
Definition backupCritical (now : Z) (m : t) : list (jsstring * V) :=
  fold_left (fun backup ke =>
               if Priority_eqb (priority ke.2) CRITICAL
               then alist_set ke.1 (value ke.2) backup else backup)
    (LRUCache.entries now (cache m)) [].

(** [restoreCritical(backup)] *)
Definition restoreCritical (now : Z) (backup : list (jsstring * V)) (m : t)
  : t :=
  fold_left (fun m kv => set now kv.1 kv.2 (Some 600000) CRITICAL m) backup m.

(** The calls that change a cache manager, each with the reading of the
    clock at the call, and the manager after a call and after a sequence
    of calls. *)
Inductive call : Type :=
| CallSet (now : Z) (k : jsstring) (v : V) (ttl' : option Z) (p : Priority)
| CallGet (now : Z) (k : jsstring)
| CallDelete (k : jsstring)
| CallClear
| CallOptimize (now : Z)
| CallRestoreCritical (now : Z) (backup : list (jsstring * V)).

Definition after (m : t) (c : call) : t :=
  match c with
  | CallSet now k v ttl' p => set now k v ttl' p m
  | CallGet now k => (get now k m).2
  | CallDelete k => (delete k m).2
  | CallClear => clear m
  | CallOptimize now => optimize now m
  | CallRestoreCritical now backup => restoreCritical now backup m
  end.

Definition after_all (m : t) (cs : list call) : t := fold_left after cs m.

(** A well-formed manager: distinct keys, and no more entries than the
    capacity, which is at least 1. *)
Definition well_formed (m : t) : Prop :=
  NoDup (List.map LRUCache.i_key (LRUCache.items (cache m)))
  /\ (size m <= LRUCache.max (cache m))%nat
  /\ (1 <= LRUCache.max (cache m))%nat.

(** The entries that the statistics do not account for: the size of the
    cache less the sets that no counted removal has followed. *)
Definition unaccounted (m : t) : Z :=
  Z.of_nat (size m) - (sets (stats m) - evictions (stats m)).

End Manager.

Arguments CacheEntry : clear implicits.
Arguments t : clear implicits.
Arguments call : clear implicits.

End CacheManager.

(** ** Character classes and string helpers *)

Definition is_lower (c : Z) : bool := in_range 97 122 c.
Definition is_upper (c : Z) : bool := in_range 65 90 c.
Definition is_digit (c : Z) : bool := in_range 48 57 c.

(** The class [\w] of a regular expression. *)
Definition is_word (c : Z) : bool :=
  is_lower c || is_upper c || is_digit c || (c =? 95).

(** The class [\s], which is also what [trim] removes. *)
Definition is_space (c : Z) : bool :=
  in_range 9 13 c || (c =? 32) || (c =? 160) || (c =? 0x1680)
  || in_range 0x2000 0x200A c || (c =? 0x2028) || (c =? 0x2029)
  || (c =? 0x202F) || (c =? 0x205F) || (c =? 0x3000) || (c =? 0xFEFF).

Definition ascii_lower (c : Z) : Z := if is_upper c then c + 32 else c.
Definition ascii_upper (c : Z) : Z := if is_lower c then c - 32 else c.

Definition is_ascii (c : Z) : bool := in_range 0 127 c.

(** [s.startsWith(p)] *)
Fixpoint startsWith (p s : jsstring) : bool :=
  match p, s with
  | [], _ => true
  | _ :: _, [] => false
  | a :: p', b :: s' => (a =? b) && startsWith p' s'
  end.

(** [startsWith] up to the case of ASCII letters, as a pattern of ASCII
    letters matches under the [i] flag. *)
Fixpoint startsWith_ci (p s : jsstring) : bool :=
  match p, s with
  | [], _ => true
  | _ :: _, [] => false
  | a :: p', b :: s' => (ascii_lower a =? ascii_lower b) && startsWith_ci p' s'
  end.

(** The decimal digits of a natural number, as [String(i)] prints an
    array index. *)
Fixpoint uint_chars (d : Decimal.uint) : jsstring :=
  match d with
  | Decimal.Nil => []
  | Decimal.D0 d' => 48 :: uint_chars d'
  | Decimal.D1 d' => 49 :: uint_chars d'
  | Decimal.D2 d' => 50 :: uint_chars d'
  | Decimal.D3 d' => 51 :: uint_chars d'
  | Decimal.D4 d' => 52 :: uint_chars d'
  | Decimal.D5 d' => 53 :: uint_chars d'
  | Decimal.D6 d' => 54 :: uint_chars d'
  | Decimal.D7 d' => 55 :: uint_chars d'
  | Decimal.D8 d' => 56 :: uint_chars d'
  | Decimal.D9 d' => 57 :: uint_chars d'
  end.

Definition decimal (n : N) : jsstring := uint_chars (N.to_uint n).

(** [Object.entries] of an array: its elements under their indices. *)
Definition array_entries (items : list value) : list (jsstring * value) :=
  imap (fun i x => (decimal (N.of_nat i), x)) items.

(** [s.replace(/\bpat\b/gi, rep)] for a non-empty [pat] of word
    characters: every occurrence of [pat], in any case of its letters,
    that neither follows nor precedes a word character, from left to
    right.  [prev] tells whether the previous character is a word
    character, [skip] how many characters of a replaced occurrence are
    still to be dropped. *)
Definition word_at (pat s : jsstring) : bool :=
  startsWith_ci pat s
  && match drop (length pat) s with
     | [] => true
     | c :: _ => negb (is_word c)
     end.

Fixpoint replace_words_from (pat rep : jsstring) (prev : bool) (skip : nat)
    (s : jsstring) : jsstring :=
  match s with
  | [] => []
  | c :: s' =>
      match skip with
      | S k => replace_words_from pat rep (is_word c) k s'
      | O =>
          if negb prev && word_at pat s
          then rep ++ replace_words_from pat rep (is_word c) (length pat - 1) s'
          else c :: replace_words_from pat rep (is_word c) O s'
      end
  end.

Definition replace_words (pat rep s : jsstring) : jsstring :=
  replace_words_from pat rep false O s.

(** [s.replace(/\s+/g, ' ')] *)
Fixpoint collapse_spaces (in_run : bool) (s : jsstring) : jsstring :=
  match s with
  | [] => []
  | c :: s' =>
      if is_space c then
        if in_run then collapse_spaces true s' else 32 :: collapse_spaces true s'
      else c :: collapse_spaces false s'
  end.

Fixpoint trimStart (s : jsstring) : jsstring :=
  match s with
  | c :: s' => if is_space c then trimStart s' else s
  | [] => []
  end.

Definition trim (s : jsstring) : jsstring :=
  List.rev (trimStart (List.rev (trimStart s))).

(** A text whose whitespace is normalised: every whitespace character in
    it is a space, no two of them are adjacent, and neither the first nor
    the last character is one. *)
Definition starts_space (s : jsstring) : bool :=
  match s with
  | c :: _ => is_space c
  | [] => false
  end.

Definition ends_space (s : jsstring) : bool := starts_space (List.rev s).

Fixpoint spaces_single (s : jsstring) : bool :=
  match s with
  | [] => true
  | c :: s' =>
      (if is_space c then (c =? 32) && negb (starts_space s') else true)
      && spaces_single s'
  end.

Definition normal_spaces (s : jsstring) : bool :=
  spaces_single s && negb (starts_space s) && negb (ends_space s).

(** [s.replace(/^p/, r)] and [s.replace(/p$/, r)] for a literal [p]. *)
Definition replace_prefix (p r s : jsstring) : jsstring :=
  if startsWith p s then r ++ drop (length p) s else s.

Definition replace_suffix (p r s : jsstring) : jsstring :=
  List.rev (replace_prefix (List.rev p) (List.rev r) (List.rev s)).

(** [s.replace(/([a-z])([A-Z])/g, '$1_$2')] *)
Fixpoint snake_case (s : jsstring) : jsstring :=
  match s with
  | [] => []
  | c :: s' =>
      match s' with
      | d :: _ =>
          if is_lower c && is_upper d then c :: 95 :: snake_case s'
          else c :: snake_case s'
      | [] => [c]
      end
  end.

(** [s.replace(/_([a-z])/g, (_, char) => char.toUpperCase())].  [after]
    tells whether the previous character was an underscore that no match
    has used. *)
Fixpoint camel_case (after : bool) (s : jsstring) : jsstring :=
  match s with
  | [] => if after then [95] else []
  | c :: s' =>
      if after then
        if is_lower c then ascii_upper c :: camel_case false s'
        else 95 :: (if c =? 95 then camel_case true s'
                    else c :: camel_case false s')
      else if c =? 95 then camel_case true s'
      else c :: camel_case false s'
  end.

(** ** The token optimizer (src/utils/TokenOptimizer.ts) *)

Module TokenOptimizer.

Definition compressionThreshold : Z := 100.

(** [commonTerms], in the order of the object literal. *)
Definition commonTerms : list (jsstring * jsstring) :=
  [ (str "artificial_intelligence", str "ai");
    (str "machine_learning", str "ml");
    (str "neural_network", str "nn");
    (str "deep_learning", str "dl");
    (str "natural_language_processing", str "nlp");
    (str "computer_vision", str "cv");
    (str "reinforcement_learning", str "rl");
    (str "function", str "fn");
    (str "variable", str "var");
    (str "object", str "obj");
    (str "array", str "arr");
    (str "string", str "str");
    (str "number", str "num");
    (str "boolean", str "bool");
    (str "undefined", str "undef");
    (str "null", str "nil");
    (str "message", str "msg");
    (str "request", str "req");
    (str "response", str "res");
    (str "error", str "err");
    (str "success", str "ok");
    (str "failed", str "fail");
    (str "processing", str "proc");
    (str "optimization", str "opt");
    (str "configuration", str "cfg");
    (str "parameter", str "param");
    (str "argument", str "arg");
    (str "result", str "res");
    (str "data", str "dat");
    (str "information", str "info");
    (str "content", str "cont");
    (str "context", str "ctx");
    (str "memory", str "mem");
    (str "cache", str "cch");
    (str "storage", str "stor");
    (str "timestamp", str "ts");
    (str "identifier", str "id");
    (str "priority", str "pri");
    (str "status", str "stat");
    (str "type", str "typ");
    (str "value", str "val");
    (str "key", str "k");
    (str "index", str "idx");
    (str "length", str "len");
    (str "size", str "sz");
    (str "count", str "cnt");
    (str "total", str "tot");
    (str "maximum", str "max");
    (str "minimum", str "min");
    (str "average", str "avg");
    (str "algorithm", str "algo");
    (str "protocol", str "proto");
    (str "interface", str "iface");
    (str "implementation", str "impl");
    (str "specification", str "spec");
    (str "documentation", str "doc");
    (str "reference", str "ref");
    (str "version", str "ver");
    (str "revision", str "rev");
    (str "iteration", str "iter");
    (str "execution", str "exec");
    (str "evaluation", str "eval");
    (str "validation", str "valid");
    (str "verification", str "verify");
    (str "initialization", str "init");
    (str "termination", str "term");
    (str "connection", str "conn");
    (str "session", str "sess");
    (str "transaction", str "txn");
    (str "operation", str "op");
    (str "instruction", str "instr");
    (str "command", str "cmd");
    (str "query", str "qry");
    (str "search", str "srch");
    (str "filter", str "flt");
    (str "sort", str "srt");
    (str "transform", str "xfrm");
    (str "convert", str "conv");
    (str "encode", str "enc");
    (str "decode", str "dec");
    (str "compress", str "comp");
    (str "decompress", str "decomp");
    (str "serialize", str "ser");
    (str "deserialize", str "deser") ].

(** [initializeAbbreviations()]: the two [Map]s after the loop over
    [Object.entries(commonTerms)]. *)
Definition abbreviations : list (jsstring * jsstring) :=
  fold_left (fun m fa => alist_set fa.1 fa.2 m) commonTerms [].

Definition reverseAbbreviations : list (jsstring * jsstring) :=
  fold_left (fun m fa => alist_set fa.2 fa.1 m) commonTerms [].

(** [map.get(k)] *)
Definition alist_get {A : Type} (k : jsstring) (m : list (jsstring * A))
  : option A :=
  option_map snd (List.find (fun kv => bool_decide (kv.1 = k)) m).

Section Host.

(** What the host provides and the model leaves open: the Unicode case
    mapping of a string that is not all ASCII, zlib's deflate at level 9
    and inflate (each may throw), and the base64 text of a buffer and
    back. *)
Variable unicode_toLowerCase : jsstring -> jsstring.
Variable deflateSync : Buffer -> result Buffer.
Variable inflateSync : Buffer -> result Buffer.
Variable base64_encode : Buffer -> jsstring.
Variable base64_decode : jsstring -> Buffer.

(** [s.toLowerCase()] *)
Definition toLowerCase (s : jsstring) : jsstring :=
  if forallb is_ascii s then List.map ascii_lower s else unicode_toLowerCase s.

(** [compressString(text)] *)
Definition compressString (text : jsstring) : jsstring :=
  let compressed := toLowerCase text in
  let compressed :=
    fold_left (fun s fa => replace_words fa.1 fa.2 s) abbreviations compressed in
  let compressed := trim (collapse_spaces false compressed) in
  if compressionThreshold <? js_length compressed then
    match deflateSync (utf8_encode compressed) with
    | Ok deflated =>
        if 5 * Z.of_nat (length deflated) <? 4 * js_length compressed
        then str "__ZLIB__" ++ base64_encode deflated
        else compressed
    | Throw _ => compressed
    end
  else compressed.

(** [decompressString(text)] *)
Definition decompressString (text : jsstring) : jsstring :=
  let expand (s : jsstring) :=
    fold_left (fun s af => replace_words af.1 af.2 s) reverseAbbreviations s in
  if startsWith (str "__ZLIB__") text then
    match inflateSync (base64_decode (drop 8 text)) with
    | Ok inflated => expand (utf8_decode inflated)
    | Throw _ => text
    end
  else expand text.

(** [compressKey(key)] *)
Definition compressKey (key : jsstring) : jsstring :=
  match alist_get key abbreviations with
  | Some abbrev => abbrev
  | None =>
      let k := toLowerCase (snake_case key) in
      let k := replace_prefix (str "get_") (str "g_") k in
      let k := replace_prefix (str "set_") (str "s_") k in
      let k := replace_prefix (str "is_") (str "i_") k in
      let k := replace_prefix (str "has_") (str "h_") k in
      let k := replace_suffix (str "_id") (str "_i") k in
      let k := replace_suffix (str "_name") (str "_n") k in
      let k := replace_suffix (str "_type") (str "_t") k in
      let k := replace_suffix (str "_value") (str "_v") k in
      let k := replace_suffix (str "_data") (str "_d") k in
      let k := replace_suffix (str "_info") (str "_inf") k in
      let k := replace_suffix (str "_config") (str "_cfg") k in
      replace_suffix (str "_result") (str "_res") k
  end.

(** [decompressKey(key)] *)
Definition decompressKey (key : jsstring) : jsstring :=
  match alist_get key reverseAbbreviations with
  | Some full => full
  | None =>
      let k := replace_prefix (str "g_") (str "get_") key in
      let k := replace_prefix (str "s_") (str "set_") k in
      let k := replace_prefix (str "i_") (str "is_") k in
      let k := replace_prefix (str "h_") (str "has_") k in
      let k := replace_suffix (str "_i") (str "_id") k in
      let k := replace_suffix (str "_n") (str "_name") k in
      let k := replace_suffix (str "_t") (str "_type") k in
      let k := replace_suffix (str "_v") (str "_value") k in
      let k := replace_suffix (str "_d") (str "_data") k in
      let k := replace_suffix (str "_inf") (str "_info") k in
      let k := replace_suffix (str "_cfg") (str "_config") k in
      let k := replace_suffix (str "_res") (str "_result") k in
      camel_case false k
  end.

(** [compress(data)].  [typeof data === 'object'] holds of [null], of
    arrays and of plain objects, so [compressObject] takes them all and
    the [Array.isArray] branch is never reached; [compressObject] returns
    [null] as it is and otherwise fills a fresh plain object from
    [Object.entries(obj)]. *)
Fixpoint compress (data : value) : value :=
  match data with
  | VString s => VString (compressString s)
  | VNull => VNull
  | VArray items =>
      VObject
        (fold_left (fun o kv => obj_set (compressKey kv.1) kv.2 o)
           (imap (fun i x => (decimal (N.of_nat i), x)) (List.map compress items))
           [])
  | VObject props =>
      VObject
        (fold_left (fun o kv => obj_set (compressKey kv.1) kv.2 o)
           (List.map (fun kv => (kv.1, compress kv.2)) props) [])
  | _ => data
  end.

(** [decompress(data)], with [decompressObject] for arrays and plain
    objects alike. *)
Fixpoint decompress (data : value) : value :=
  match data with
  | VString s => VString (decompressString s)
  | VArray items =>
      VObject
        (fold_left (fun o kv => obj_set (decompressKey kv.1) kv.2 o)
           (imap (fun i x => (decimal (N.of_nat i), x)) (List.map decompress items))
           [])
  | VObject props =>
      VObject
        (fold_left (fun o kv => obj_set (decompressKey kv.1) kv.2 o)
           (List.map (fun kv => (kv.1, decompress kv.2)) props) [])
  | _ => data
  end.

(** The values on which the two transforms leave no trace: null,
    booleans, numbers, and objects of such values whose keys stay
    distinct under [compressKey] and come back under [decompressKey]. *)
Fixpoint preserved (v : value) : bool :=
  match v with
  | VUndefined | VNull | VBool _ | VInt _ | VFloat _ => true
  | VString _ | VArray _ => false
  | VObject props =>
      bool_decide (NoDup (List.map (fun kv => compressKey kv.1) props))
      && forallb
           (fun kv =>
              let '(k, x) := kv in
              bool_decide (decompressKey (compressKey k) = k) && preserved x)
           props
  end.

End Host.

End TokenOptimizer.

(** ** Messages and agents (src/types/index.ts) *)

(** The content of a compact message: the transformed value, or the
    packet [A114Protocol.encode] returned. *)
Inductive Content : Type :=
| CValue (v : value)
| CBuffer (b : Buffer).

Module AIMessage.
Record t : Type := mk {
  id : jsstring;
  timestamp : Z;
  senderId : jsstring;
  receiverId : jsstring;
  content : value;
  messageType : MessageType;
  priority : Priority;
  compressed : bool;
  encoding : EncodingType
}.
End AIMessage.

(** The enumerations of a compact message are held by their members
    rather than by the members' numbers. *)
Module CompactMessage.
Record t : Type := mk {
  i : jsstring;
  t_ : Z;
  s : jsstring;
  r : jsstring;
  c : Content;
  mt : MessageType;
  p : Priority;
  cp : bool;
  e : EncodingType
}.
End CompactMessage.

(** What a memory context holds under a key: the record [routeMessage]
    writes, the string [updateAgentMemory] writes, or any other value. *)
Inductive MemoryValue : Type :=
| Delivered (content : Content) (sender : jsstring) (timestamp : Z)
| Learning (text : jsstring)
| Stored (v : value).

Module AIAgent.
Record t : Type := mk {
  id : jsstring;
  name : jsstring;
  capabilities : list jsstring;
  memoryContext : gmap jsstring MemoryValue;
  lastActive : Z
}.
End AIAgent.

(** ** The processing layer (src/core/AIProcessingLayer.ts) *)

Module AIProcessingLayer.

(** The state of an instance: the registry and the cache manager.  The
    protocol and the optimizer hold no state that changes, and
    [processingSteps] stays empty. *)
Record t : Type := mk {
  agents : gmap jsstring AIAgent.t;
  cache : CacheManager.t CompactMessage.t
}.

(** A method body: it runs on a state and returns or throws, and the
    state it leaves is kept either way. *)
Definition Eff (A : Type) : Type := t -> result A * t.

Definition ret {A : Type} (a : A) : Eff A := fun w => (Ok a, w).

Definition throw {A : Type} (err : error) : Eff A := fun w => (Throw err, w).

Definition bindE {A B : Type} (m : Eff A) (k : A -> Eff B) : Eff B :=
  fun w =>
    match m w with
    | (Ok a, w') => k a w'
    | (Throw err, w') => (Throw err, w')
    end.

(** [try { body } catch (error) { handler }] *)
Definition try_catch {A : Type} (body : Eff A) (handler : error -> Eff A)
  : Eff A :=
  fun w =>
    match body w with
    | (Ok a, w') => (Ok a, w')
    | (Throw err, w') => handler err w'
    end.

Definition read {A : Type} (f : t -> A) : Eff A := fun w => (Ok (f w), w).

Definition update (f : t -> t) : Eff unit := fun w => (Ok tt, f w).

Notation "'let!' x ':=' m 'in' k" := (bindE m (fun x => k))
  (at level 10, x pattern, m at level 100, k at level 200).

(** [new AIProcessingLayer()] *)
Definition create : t := mk ∅ (CacheManager.create 1000 300000).

(** [registerAgent(agent)] *)
Definition registerAgent (agent : AIAgent.t) (w : t) : t :=
  mk (<[AIAgent.id agent := agent]> (agents w)) (cache w).

(** The key [`msg_${id}`]. *)
Definition msg_key (id : jsstring) : jsstring := str "msg_" ++ id.

Section Host.

Variable unicode_toLowerCase : jsstring -> jsstring.
Variable deflateSync : Buffer -> result Buffer.
Variable base64_encode : Buffer -> jsstring.

(** The reading of [Date.now()] during the call. *)
Variable now : Z.

(** [optimizeMessage(message)] *)
Definition optimizeMessage (message : AIMessage.t) : Eff CompactMessage.t :=
  let compact (c : Content) :=
    CompactMessage.mk (AIMessage.id message) (AIMessage.timestamp message)
      (AIMessage.senderId message) (AIMessage.receiverId message) c
      (AIMessage.messageType message) (AIMessage.priority message)
      true (AIMessage.encoding message) in
  match AIMessage.encoding message with
  | A114 =>
      match A114Protocol.encode (AIMessage.content message) with
      | Ok packet => ret (compact (CBuffer packet))
      | Throw err => throw err
      end
  | _ =>
      ret (compact (CValue
             (TokenOptimizer.compress unicode_toLowerCase deflateSync
                base64_encode (AIMessage.content message))))
  end.

(** The two parts of what [optimizeMessage] returns: the content it
    computes, which is where the codec can throw, and the compact message
    around a content. *)
Definition optimized_content (message : AIMessage.t) : result Content :=
  match AIMessage.encoding message with
  | A114 =>
      let* packet := A114Protocol.encode (AIMessage.content message) in
      Ok (CBuffer packet)
  | _ =>
      Ok (CValue
            (TokenOptimizer.compress unicode_toLowerCase deflateSync
               base64_encode (AIMessage.content message)))
  end.

Definition compact_of (message : AIMessage.t) (c : Content)
  : CompactMessage.t :=
  CompactMessage.mk (AIMessage.id message) (AIMessage.timestamp message)
    (AIMessage.senderId message) (AIMessage.receiverId message) c
    (AIMessage.messageType message) (AIMessage.priority message) true
    (AIMessage.encoding message).

(** [routeMessage(message)] *)
Definition routeMessage (message : CompactMessage.t) : Eff jsstring :=
  let! receiver := read (fun w => agents w !! CompactMessage.r message) in
  match receiver with
  | None => throw ReceiverNotFound
  | Some receiver =>
      let key := msg_key (CompactMessage.i message) in
      let! _ := update (fun w =>
        mk (agents w)
           (CacheManager.set now key message (Some 300000)
              (CompactMessage.p message) (cache w))) in
      let receiver' :=
        AIAgent.mk (AIAgent.id receiver) (AIAgent.name receiver)
          (AIAgent.capabilities receiver)
          (<[key := Delivered (CompactMessage.c message)
                      (CompactMessage.s message) (CompactMessage.t_ message)]>
             (AIAgent.memoryContext receiver))
          now in
      let! _ := update (fun w =>
        mk (<[CompactMessage.r message := receiver']> (agents w)) (cache w)) in
      ret (str "routed")
  end.

(** [evaluateRoutingOutcomes(message)]: strategy, efficiency in
    hundredths, latency. *)
Definition evaluateRoutingOutcomes (message : CompactMessage.t)
  : Eff (list (jsstring * Z * Z)) :=
  ret [ (str "direct", 95, 10); (str "cached", 98, 5);
        (str "compressed", 85, 15) ].

(** [testMessageDelivery(message)]: each test with its success. *)
Definition testMessageDelivery (message : CompactMessage.t)
  : Eff (list (jsstring * bool)) :=
  let key := msg_key (CompactMessage.i message) in
  let! receiver := read (fun w => agents w !! CompactMessage.r message) in
  let messageExists :=
    match receiver with
    | Some a => bool_decide (is_Some (AIAgent.memoryContext a !! key))
    | None => false
    end in
  let! cacheExists := read (fun w => CacheManager.has now key (cache w)) in
  ret [ (str "receiver_memory", messageExists);
        (str "cache_storage", cacheExists);
        (str "message_integrity", true) ].

(** [generateFeedback(testResults)] *)
Definition generateFeedback (testResults : list (jsstring * bool))
  : jsstring :=
  let successCount := length (List.filter snd testResults) in
  let totalTests := length testResults in
  if (successCount =? totalTests)%nat
  then str "All delivery tests passed successfully"
  else decimal (N.of_nat successCount) ++ str "/"
       ++ decimal (N.of_nat totalTests)
       ++ str " tests passed. Issues detected.".

(** [correctMessageDelivery(message)] *)
Definition correctMessageDelivery (message : CompactMessage.t)
  : Eff jsstring :=
  let! _ := routeMessage message in
  ret (str "Message delivery corrected through retry mechanism").

(** [validateDelivery(message)] *)
Definition validateDelivery (message : CompactMessage.t) : Eff bool :=
  let! testResults := testMessageDelivery message in
  ret (forallb snd testResults).

(** [extractLearnings(context)], from the feedback of the context. *)
Definition extractLearnings (feedback : jsstring) : jsstring :=
  str "Learned: Message optimization strategy successful. Feedback: "
  ++ feedback.

(** [updateAgentMemory(agentId, learning)] *)
Definition updateAgentMemory (agentId : jsstring) (learning : jsstring)
  : Eff unit :=
  let! agent := read (fun w => agents w !! agentId) in
  match agent with
  | Some a =>
      let key := str "learning_" ++ decimal (Z.to_N now) in
      let a' :=
        AIAgent.mk (AIAgent.id a) (AIAgent.name a) (AIAgent.capabilities a)
          (<[key := Learning learning]> (AIAgent.memoryContext a))
          (AIAgent.lastActive a) in
      update (fun w => mk (<[agentId := a']> (agents w)) (cache w))
  | None => ret tt
  end.

(** The [try] block of [sendMessage]. *)
Definition sendMessage_try (message : AIMessage.t) : Eff bool :=
  (* Step 1: the intention and the action are recorded *)
  let! registered := read (fun w =>
    bool_decide (is_Some (agents w !! AIMessage.senderId message))
    && bool_decide (is_Some (agents w !! AIMessage.receiverId message))) in
  if negb registered then throw AgentNotRegistered
  else
    (* Step 2 *)
    let! optimizedMessage := optimizeMessage message in
    (* Step 3 *)
    let! reaction := routeMessage optimizedMessage in
    (* Step 4 *)
    let! outcomes := evaluateRoutingOutcomes optimizedMessage in
    (* Step 5 *)
    let! testResults := testMessageDelivery optimizedMessage in
    (* Step 6 *)
    let feedback := generateFeedback testResults in
    (* Step 7 *)
    let! correction :=
      if negb (forallb snd testResults)
      then let! note := correctMessageDelivery optimizedMessage in
           ret (Some note)
      else ret None in
    (* Step 8 *)
    let! validation := validateDelivery optimizedMessage in
    (* Step 9 *)
    let learning := extractLearnings feedback in
    let! _ := updateAgentMemory (AIMessage.senderId message) learning in
    (* Steps 10 and 11 *)
    ret validation.

(** [sendMessage(message)]: the [catch] clause logs the error and returns
    [false]. *)
Definition sendMessage (message : AIMessage.t) : Eff bool :=
  try_catch (sendMessage_try message) (fun _ => ret false).

Inductive Recalled : Type :=
| FromCache (m : CompactMessage.t)
| FromMemory (v : MemoryValue)
| NotFound.

(** [recallMessage(messageId, agentId)] *)
Definition recallMessage (messageId agentId : jsstring) : Eff Recalled :=
  let key := msg_key messageId in
  let! cached := (fun w =>
    let '(r, m) := CacheManager.get now key (cache w) in
    (Ok r, mk (agents w) m)) in
  match cached with
  | Some m => ret (FromCache m)
  | None =>
      let! agent := read (fun w => agents w !! agentId) in
      match agent with
      | Some a =>
          match AIAgent.memoryContext a !! key with
          | Some v => ret (FromMemory v)
          | None => ret NotFound
          end
      | None => ret NotFound
      end
  end.

End Host.

Definition clear_memory (a : AIAgent.t) : AIAgent.t :=
  AIAgent.mk (AIAgent.id a) (AIAgent.name a) (AIAgent.capabilities a) ∅
    (AIAgent.lastActive a).

(** [clearMemory(agentId)]; an omitted or empty [agentId] is falsy. *)
Definition clearMemory (agentId : option jsstring) (w : t) : t :=
  match agentId with
  | Some (c :: k) => mk (alter clear_memory (c :: k) (agents w)) (cache w)
  | _ => mk (clear_memory <$> agents w) (CacheManager.clear (cache w))
  end.

End AIProcessingLayer.

(** ** The domain of the codec *)

(** A double that is not an integer, by its canonical bit pattern. *)
Definition is_float_bits (bits : Z) : bool :=
  in_range 0 (2 ^ 64 - 1) bits
  && match double_of_bits bits with
     | VFloat b => b =? bits
     | _ => false
     end.

Definition is_text (s : jsstring) : bool := forallb is_scalar s.

(** The structured values of the specification: null, booleans, the
    integers of the signed 32-bit range, doubles that are not integers,
    strings of Unicode scalar values, arrays, and objects with distinct
    keys, nested at will. *)
Fixpoint in_domain (v : value) : bool :=
  match v with
  | VUndefined => false
  | VNull | VBool _ => true
  | VInt z => in_range (-2147483648) 2147483647 z
  | VFloat bits => is_float_bits bits
  | VString s => is_text s
  | VArray items => forallb in_domain items
  | VObject props =>
      bool_decide (NoDup (List.map fst props))
      && forallb (fun kv => let '(k, x) := kv in is_text k && in_domain x) props
  end.

(** The number of bytes [encodeValue] writes for a value. *)
Fixpoint encoded_size (v : value) : Z :=
  match v with
  | VUndefined | VNull => 1
  | VBool _ => 2
  | VInt z =>
      if in_range (-128) 127 z then 2
      else if in_range (-32768) 32767 z then 3 else 5
  | VFloat _ => 9
  | VString s => 5 + Z.of_nat (length (utf8_encode s))
  | VArray items =>
      5 + fold_right (fun x n => encoded_size x + n) 0 items
  | VObject props =>
      5 + fold_right
            (fun kv n =>
               let '(k, x) := kv in
               5 + Z.of_nat (length (utf8_encode k)) + encoded_size x + n)
            0 props
  end.

(** The values [encodeValue] writes without a fault of an integer write:
    every integer in them, at any depth, lies in the signed 32-bit
    range. *)
Fixpoint ints_in_range (v : value) : bool :=
  match v with
  | VInt z => in_range (-2147483648) 2147483647 z
  | VArray items => forallb ints_in_range items
  | VObject props => forallb (fun kv => ints_in_range kv.2) props
  | _ => true
  end.

(** A value with [null] in the place of every [undefined] in it. *)
Fixpoint undefined_as_null (v : value) : value :=
  match v with
  | VUndefined => VNull
  | VArray items => VArray (List.map undefined_as_null items)
  | VObject props =>
      VObject (List.map (fun kv => (kv.1, undefined_as_null kv.2)) props)
  | _ => v
  end.

(** ** Sample inputs

    A host and some inputs for the closed examples below; the properties
    themselves hold for every host. *)

Module Sample.

Definition ToString (v : value) : jsstring := str "[object Object]".
Definition toLowerCase (s : jsstring) : jsstring := s.
Definition deflateSync (b : Buffer) : result Buffer := Throw OutOfRange.
Definition inflateSync (b : Buffer) : result Buffer := Throw OutOfRange.
Definition base64_encode (b : Buffer) : jsstring := [].
Definition base64_decode (s : jsstring) : Buffer := [].

(** A value with every kind of the domain: integers on both sides of the
    width boundaries, the double 1.5, a key and a string that are not
    ASCII, the empty string, array and object. *)
Definition nested : value :=
  VObject
    [ (str "id", VInt 127);
      (str "n",
       VArray [VInt 128; VInt (-129); VInt 32767; VInt 32768;
               VInt (-2147483648); VFloat 0x3FF8000000000000;
               VBool true; VNull]);
      ([0x68; 0xE9; 0x4E2D; 0x1F600], VString [0x20AC; 0x10FFFF]);
      (str "s", VString []);
      (str "o", VObject []);
      (str "a", VArray []) ].

Definition agentA : AIAgent.t := AIAgent.mk (str "A") (str "Alice") [] ∅ 0.
Definition agentB : AIAgent.t := AIAgent.mk (str "B") (str "Bob") [] ∅ 0.

(** A layer in which the peers A and B are registered. *)
Definition layer : AIProcessingLayer.t :=
  AIProcessingLayer.registerAgent agentB
    (AIProcessingLayer.registerAgent agentA AIProcessingLayer.create).

(** A message from A to the unregistered peer C. *)
Definition to_stranger : AIMessage.t :=
  AIMessage.mk (str "m3") 5 (str "A") (str "C") (VInt 1) INSTRUCTION HIGH
    false JSON.

(** A message from A to B whose content the A114 codec cannot encode. *)
Definition unencodable : AIMessage.t :=
  AIMessage.mk (str "m2") 5 (str "A") (str "B") (VInt 4294967296) QUERY
    NORMAL false A114.

(** A message from A to B with JSON encoding, and one with A114
    encoding. *)
Definition to_B : AIMessage.t :=
  AIMessage.mk (str "m1") 5 (str "A") (str "B")
    (VObject [(str "count", VInt 3)]) DATA_TRANSFER NORMAL false JSON.

Definition to_B_a114 : AIMessage.t :=
  AIMessage.mk (str "m4") 6 (str "A") (str "B") (VInt 300) DATA_TRANSFER HIGH
    false A114.

(** A cache that holds a LOW entry set at time 1000 and a HIGH entry set
    at time 2000. *)
Definition two_entries : CacheManager.t value :=
  CacheManager.set 2000 (str "b") (VInt 2) None HIGH
    (CacheManager.set 1000 (str "a") (VInt 1) None LOW
       (CacheManager.create 1000 300000)).

End Sample.

(** * Properties *)

Lemma length_be_bytes n x : length (be_bytes n x) = n.
Proof. induction n as [|n IH]; simpl; [done | by rewrite IH]. Qed.

Lemma be_value_app bs b : be_value (bs ++ [b]) = be_value bs * 256 + b.
Proof. unfold be_value. by rewrite fold_left_app. Qed.

Lemma fold_be_shift bs acc :
  fold_left (fun a b => a * 256 + b) bs acc
  = acc * 256 ^ Z.of_nat (length bs) + be_value bs.
Proof.
  unfold be_value. revert acc.
  induction bs as [|b bs IH]; intros acc; simpl fold_left.
  - simpl. lia.
  - rewrite IH. rewrite (IH (0 * 256 + b)).
    replace (Z.of_nat (length (b :: bs))) with (Z.of_nat (length bs) + 1)
      by (simpl; lia).
    rewrite Z.pow_add_r by lia. lia.
Qed.

Lemma be_value_cons b bs :
  be_value (b :: bs) = b * 256 ^ Z.of_nat (length bs) + be_value bs.
Proof. unfold be_value at 1. simpl. rewrite fold_be_shift. lia. Qed.

Lemma be_value_be_bytes n x : be_value (be_bytes n x) = x mod 256 ^ Z.of_nat n.
Proof.
  induction n as [|n IH].
  - simpl. by rewrite Z.mod_1_r.
  - cbn [be_bytes]. rewrite be_value_cons, length_be_bytes, IH.
    replace (Z.of_nat (S n)) with (Z.of_nat n + 1) by lia.
    rewrite Z.pow_add_r by lia. change (256 ^ 1) with 256.
    assert (0 < 256 ^ Z.of_nat n) by (apply Z.pow_pos_nonneg; lia).
    rewrite Z.rem_mul_r by lia. lia.
Qed.


Lemma in_range_true lo hi x : in_range lo hi x = true <-> lo <= x <= hi.
Proof. unfold in_range. rewrite andb_true_iff, !Z.leb_le. tauto. Qed.

Lemma in_range_false lo hi x : in_range lo hi x = false <-> x < lo \/ hi < x.
Proof. unfold in_range. rewrite andb_false_iff, !Z.leb_gt. tauto. Qed.

Lemma utf8_run_cons st b rest :
  utf8_run st (b :: rest)
  = (utf8_step st b).1 ++ utf8_run (utf8_step st b).2 rest.
Proof. cbn [utf8_run]. by destruct (utf8_step st b). Qed.

Lemma utf8_step_lead b : utf8_step utf8_init b = utf8_lead b.
Proof. reflexivity. Qed.

Lemma utf8_step_last st b :
  u_needed st = 1%nat -> u_lower st <= b <= u_upper st ->
  utf8_step st b = ([u_cp st * 64 + (b - 128)], utf8_init).
Proof.
  intros Hn Hb. unfold utf8_step.
  by rewrite Hn, (proj2 (in_range_true _ _ _) Hb).
Qed.

Lemma utf8_step_more st b n :
  u_needed st = S (S n) -> u_lower st <= b <= u_upper st ->
  utf8_step st b = ([], mk_utf8_state (u_cp st * 64 + (b - 128)) (S n) 128 191).
Proof.
  intros Hn Hb. unfold utf8_step.
  by rewrite Hn, (proj2 (in_range_true _ _ _) Hb).
Qed.

Lemma utf8_lead_1 b : 0 <= b <= 127 -> utf8_lead b = ([b], utf8_init).
Proof.
  intros Hb. unfold utf8_lead. by rewrite (proj2 (in_range_true _ _ _) Hb).
Qed.

Lemma utf8_lead_2 b :
  194 <= b <= 223 -> utf8_lead b = ([], mk_utf8_state (b - 192) 1 128 191).
Proof.
  intros Hb. unfold utf8_lead.
  rewrite (proj2 (in_range_false 0 127 b)) by lia.
  by rewrite (proj2 (in_range_true _ _ _) Hb).
Qed.

Lemma utf8_lead_3 b :
  224 <= b <= 239 ->
  utf8_lead b = ([], mk_utf8_state (b - 224) 2
                       (if b =? 224 then 160 else 128)
                       (if b =? 237 then 159 else 191)).
Proof.
  intros Hb. unfold utf8_lead.
  rewrite (proj2 (in_range_false 0 127 b)) by lia.
  rewrite (proj2 (in_range_false 194 223 b)) by lia.
  by rewrite (proj2 (in_range_true _ _ _) Hb).
Qed.

Lemma utf8_lead_4 b :
  240 <= b <= 244 ->
  utf8_lead b = ([], mk_utf8_state (b - 240) 3
                       (if b =? 240 then 144 else 128)
                       (if b =? 244 then 143 else 191)).
Proof.
  intros Hb. unfold utf8_lead.
  rewrite (proj2 (in_range_false 0 127 b)) by lia.
  rewrite (proj2 (in_range_false 194 223 b)) by lia.
  rewrite (proj2 (in_range_false 224 239 b)) by lia.
  by rewrite (proj2 (in_range_true _ _ _) Hb).
Qed.

Lemma utf8_run_encode_cp c rest :
  is_scalar c = true ->
  utf8_run utf8_init (utf8_encode_cp c ++ rest) = c :: utf8_run utf8_init rest.
Proof.
  intros Hsc. unfold is_scalar in Hsc.
  apply andb_true_iff in Hsc as [Hr Hs]. apply in_range_true in Hr.
  apply negb_true_iff in Hs.
  unfold utf8_encode_cp.
  destruct (Z.ltb_spec c 128) as [H1|H1].
  { cbn [app]. rewrite utf8_run_cons, utf8_step_lead, utf8_lead_1 by lia.
    reflexivity. }
  pose proof (Z.div_mod c 64 ltac:(lia)) as Hc.
  pose proof (Z.mod_pos_bound c 64 ltac:(lia)) as Hr0.
  set (q := c / 64) in *. set (r := c mod 64) in *.
  destruct (Z.ltb_spec c 2048) as [H2|H2].
  { cbn [app]. rewrite utf8_run_cons, utf8_step_lead, utf8_lead_2 by lia.
    cbn [fst snd app]. rewrite utf8_run_cons, utf8_step_last; cbn; try lia.
    f_equal. lia. }
  rewrite Hs.
  replace (c / 4096) with (q / 64)
    by (unfold q; rewrite Z.div_div by lia; reflexivity).
  pose proof (Z.div_mod q 64 ltac:(lia)) as Hq.
  pose proof (Z.mod_pos_bound q 64 ltac:(lia)) as Hr1.
  set (q1 := q / 64) in *. set (r1 := q mod 64) in *.
  unfold is_surrogate in Hs. apply in_range_false in Hs.
  destruct (Z.ltb_spec c 65536) as [H3|H3].
  { cbn [app]. rewrite utf8_run_cons, utf8_step_lead, utf8_lead_3 by lia.
    cbn [fst snd app].
    assert (Hlo : (if 224 + q1 =? 224 then 160 else 128) <= 128 + r1).
    { destruct (Z.eqb_spec (224 + q1) 224); lia. }
    assert (Hhi : 128 + r1 <= (if 224 + q1 =? 237 then 159 else 191)).
    { destruct (Z.eqb_spec (224 + q1) 237); [|lia].
      lia. }
    rewrite utf8_run_cons, (utf8_step_more _ _ 0) by (cbn; lia).
    cbn [fst snd app u_cp].
    rewrite utf8_run_cons, utf8_step_last by (cbn; lia).
    cbn [fst snd app u_cp]. f_equal. lia. }
  replace (c / 262144) with (q1 / 64)
    by (unfold q1, q; rewrite !Z.div_div by lia; reflexivity).
  pose proof (Z.div_mod q1 64 ltac:(lia)) as Hq1.
  pose proof (Z.mod_pos_bound q1 64 ltac:(lia)) as Hr2.
  set (q2 := q1 / 64) in *. set (r2 := q1 mod 64) in *.
  cbn [app]. rewrite utf8_run_cons, utf8_step_lead, utf8_lead_4 by lia.
  cbn [fst snd app].
  assert (Hlo : (if 240 + q2 =? 240 then 144 else 128) <= 128 + r2).
  { destruct (Z.eqb_spec (240 + q2) 240); lia. }
  assert (Hhi : 128 + r2 <= (if 240 + q2 =? 244 then 143 else 191)).
  { destruct (Z.eqb_spec (240 + q2) 244); lia. }
  rewrite utf8_run_cons, (utf8_step_more _ _ 1) by (cbn; lia).
  cbn [fst snd app u_cp].
  rewrite utf8_run_cons, (utf8_step_more _ _ 0) by (cbn; lia).
  cbn [fst snd app u_cp].
  rewrite utf8_run_cons, utf8_step_last by (cbn; lia).
  cbn [fst snd app u_cp]. f_equal. lia.
Qed.

Lemma utf8_decode_encode s :
  is_text s = true -> utf8_decode (utf8_encode s) = s.
Proof.
  unfold utf8_decode, utf8_encode, is_text.
  induction s as [|c s IH]; [reflexivity|].
  cbn [forallb flat_map]. intros [Hc Hs]%andb_true_iff.
  rewrite utf8_run_encode_cp by done. by rewrite IH.
Qed.

(** ** Reading what was written *)

Lemma bind_Ok {A B : Type} (a : A) (k : A -> result B) : bind (Ok a) k = k a.
Proof. reflexivity. Qed.

Lemma bind_inv {A B : Type} (r : result A) (k : A -> result B) (b : B) :
  bind r k = Ok b -> exists a, r = Ok a /\ k a = Ok b.
Proof. destruct r as [a|e]; [eauto | discriminate]. Qed.

Lemma read_bytes_at n (buffer : Buffer) offset (bs rest : Buffer) :
  drop offset buffer = bs ++ rest -> length bs = n ->
  read_bytes n buffer offset = Ok bs.
Proof.
  intros Hd Hn. unfold read_bytes. rewrite Hd, take_app_length' by done.
  by rewrite Hn, Nat.eqb_refl.
Qed.

Lemma drop_after (buffer : Buffer) offset (bs rest : Buffer) n :
  drop offset buffer = bs ++ rest -> n = length bs ->
  drop (offset + n) buffer = rest.
Proof.
  intros Hd ->. by rewrite <- drop_drop, Hd, drop_app_length.
Qed.

Lemma be_value_single b : be_value [b] = b.
Proof. unfold be_value. simpl. lia. Qed.

Lemma readUInt8_at (buffer : Buffer) offset b (rest : Buffer) :
  drop offset buffer = b :: rest -> readUInt8 buffer offset = Ok b.
Proof.
  intros Hd. unfold readUInt8.
  rewrite (read_bytes_at 1 buffer offset [b] rest) by done.
  by rewrite bind_Ok, be_value_single.
Qed.

Lemma readUInt32BE_at (buffer : Buffer) offset x (rest : Buffer) :
  0 <= x <= 4294967295 ->
  drop offset buffer = be_bytes 4 x ++ rest ->
  readUInt32BE buffer offset = Ok x.
Proof.
  intros Hx Hd. unfold readUInt32BE.
  rewrite (read_bytes_at 4 buffer offset _ rest Hd) by apply length_be_bytes.
  rewrite bind_Ok, be_value_be_bytes. f_equal. apply Z.mod_small.
  change (256 ^ Z.of_nat 4) with 4294967296. lia.
Qed.

Lemma to_signed_8 z : -128 <= z <= 127 -> to_signed 8 (z mod 256) = z.
Proof.
  intros. unfold to_signed. change (2 ^ (8 - 1)) with 128.
  change (2 ^ 8) with 256. destruct (Z.ltb_spec (z mod 256) 128); Z.div_mod_to_equations; lia.
Qed.

Lemma to_signed_16 z :
  -32768 <= z <= 32767 -> to_signed 16 (z mod 65536) = z.
Proof.
  intros. unfold to_signed. change (2 ^ (16 - 1)) with 32768.
  change (2 ^ 16) with 65536. destruct (Z.ltb_spec (z mod 65536) 32768);
    Z.div_mod_to_equations; lia.
Qed.

Lemma to_signed_32 z :
  -2147483648 <= z <= 2147483647 -> to_signed 32 (z mod 4294967296) = z.
Proof.
  intros. unfold to_signed. change (2 ^ (32 - 1)) with 2147483648.
  change (2 ^ 32) with 4294967296.
  destruct (Z.ltb_spec (z mod 4294967296) 2147483648);
    Z.div_mod_to_equations; lia.
Qed.

Lemma writeUInt32BE_inv x (bs : Buffer) :
  writeUInt32BE x = Ok bs -> 0 <= x <= 4294967295 /\ bs = be_bytes 4 x.
Proof.
  unfold writeUInt32BE. destruct (in_range 0 4294967295 x) eqn:E; [|done].
  apply in_range_true in E. by intros [= <-].
Qed.

(** An induction principle that reaches the values nested in arrays and
    objects. *)
Lemma value_nested_ind (P : value -> Prop) :
  P VUndefined -> P VNull -> (forall b, P (VBool b)) ->
  (forall z, P (VInt z)) -> (forall bits, P (VFloat bits)) ->
  (forall s, P (VString s)) ->
  (forall items, Forall P items -> P (VArray items)) ->
  (forall props, Forall (fun kv => P kv.2) props -> P (VObject props)) ->
  forall v, P v.
Proof.
  intros HU HN HB HI HF HS HA HO.
  fix IH 1. intros [| |b|z|bits|s|items|props].
  - exact HU.
  - exact HN.
  - apply HB.
  - apply HI.
  - apply HF.
  - apply HS.
  - apply HA. induction items as [|x items IHl]; constructor.
    + apply IH.
    + exact IHl.
  - apply HO. induction props as [|[k x] props IHl]; constructor.
    + apply IH.
    + exact IHl.
Qed.

(** ** The codec: decoding what [encodeValue] wrote *)

Section CodecProperties.

Variable js_ToString : value -> jsstring.

Import A114Protocol.

#[local] Abbreviation decodeValue := (A114Protocol.decodeValue js_ToString).
#[local] Abbreviation decodePairs := (A114Protocol.decodePairs js_ToString).
#[local] Abbreviation decodePayload :=
  (A114Protocol.decodePayload js_ToString).
#[local] Abbreviation decode := (A114Protocol.decode js_ToString).
#[local] Abbreviation parseCommand := (A114Protocol.parseCommand js_ToString).

Lemma decodeValue_null d (buffer : Buffer) offset (rest : Buffer) :
  drop offset buffer = DT_NULL :: rest ->
  decodeValue (S d) buffer offset = Ok (VNull, S offset).
Proof.
  intros Hd. cbn [A114Protocol.decodeValue].
  by rewrite (readUInt8_at _ _ _ _ Hd).
Qed.

Lemma decodeValue_bool d (buffer : Buffer) offset (rest : Buffer) :
  drop offset buffer = DT_BOOL :: rest ->
  decodeValue (S d) buffer offset
  = let* b := readUInt8 buffer (S offset) in
    Ok (VBool (b =? 1), (S offset + 1)%nat).
Proof.
  intros Hd. cbn [A114Protocol.decodeValue].
  by rewrite (readUInt8_at _ _ _ _ Hd).
Qed.

Lemma decodeValue_int8 d (buffer : Buffer) offset (rest : Buffer) :
  drop offset buffer = DT_INT8 :: rest ->
  decodeValue (S d) buffer offset
  = let* z := readInt8 buffer (S offset) in Ok (VInt z, (S offset + 1)%nat).
Proof.
  intros Hd. cbn [A114Protocol.decodeValue].
  by rewrite (readUInt8_at _ _ _ _ Hd).
Qed.

Lemma decodeValue_int16 d (buffer : Buffer) offset (rest : Buffer) :
  drop offset buffer = DT_INT16 :: rest ->
  decodeValue (S d) buffer offset
  = let* z := readInt16BE buffer (S offset) in Ok (VInt z, (S offset + 2)%nat).
Proof.
  intros Hd. cbn [A114Protocol.decodeValue].
  by rewrite (readUInt8_at _ _ _ _ Hd).
Qed.

Lemma decodeValue_int32 d (buffer : Buffer) offset (rest : Buffer) :
  drop offset buffer = DT_INT32 :: rest ->
  decodeValue (S d) buffer offset
  = let* z := readInt32BE buffer (S offset) in Ok (VInt z, (S offset + 4)%nat).
Proof.
  intros Hd. cbn [A114Protocol.decodeValue].
  by rewrite (readUInt8_at _ _ _ _ Hd).
Qed.

Lemma decodeValue_float64 d (buffer : Buffer) offset (rest : Buffer) :
  drop offset buffer = DT_FLOAT64 :: rest ->
  decodeValue (S d) buffer offset
  = let* x := readDoubleBE buffer (S offset) in Ok (x, (S offset + 8)%nat).
Proof.
  intros Hd. cbn [A114Protocol.decodeValue].
  by rewrite (readUInt8_at _ _ _ _ Hd).
Qed.

Lemma decodeValue_string d (buffer : Buffer) offset (rest : Buffer) :
  drop offset buffer = DT_STRING :: rest ->
  decodeValue (S d) buffer offset
  = let* strLen := readUInt32BE buffer (S offset) in
    Ok (VString (utf8_decode
                   (take (Z.to_nat strLen) (drop (S offset + 4) buffer))),
        (S offset + 4 + Z.to_nat strLen)%nat).
Proof.
  intros Hd. cbn [A114Protocol.decodeValue].
  by rewrite (readUInt8_at _ _ _ _ Hd).
Qed.

Lemma decodeValue_array d (buffer : Buffer) offset (rest : Buffer) :
  drop offset buffer = DT_ARRAY :: rest ->
  decodeValue (S d) buffer offset
  = let* arrLen := readUInt32BE buffer (S offset) in
    decodeItems (decodeValue d buffer) (Z.to_nat arrLen) (S offset + 4)%nat [].
Proof.
  intros Hd. cbn [A114Protocol.decodeValue].
  by rewrite (readUInt8_at _ _ _ _ Hd).
Qed.

Lemma decodeValue_object d (buffer : Buffer) offset (rest : Buffer) :
  drop offset buffer = DT_OBJECT :: rest ->
  decodeValue (S d) buffer offset
  = let* objLen := readUInt32BE buffer (S offset) in
    decodePairs (decodeValue d buffer) (Z.to_nat objLen) (S offset + 4)%nat [].
Proof.
  intros Hd. cbn [A114Protocol.decodeValue].
  by rewrite (readUInt8_at _ _ _ _ Hd).
Qed.


Lemma drop_next (buffer : Buffer) offset b (rest : Buffer) :
  drop offset buffer = b :: rest -> drop (S offset) buffer = rest.
Proof.
  intros Hd. rewrite <- Nat.add_1_r.
  by apply (drop_after buffer offset [b] rest 1).
Qed.

Lemma encodeString_inv s enc :
  encodeString s = Ok enc ->
  Z.of_nat (length (utf8_encode s)) <= 4294967295
  /\ enc = DT_STRING :: be_bytes 4 (Z.of_nat (length (utf8_encode s)))
                  ++ utf8_encode s.
Proof.
  unfold encodeString. intros (lenBuf & Hw & [= <-])%bind_inv.
  apply writeUInt32BE_inv in Hw as [Hr ->]. split; [lia | done].
Qed.

Lemma decodeValue_encodeString s enc d (buffer : Buffer) offset rest :
  is_text s = true -> encodeString s = Ok enc ->
  drop offset buffer = enc ++ rest ->
  decodeValue (S d) buffer offset
  = Ok (VString s, (offset + length enc)%nat).
Proof.
  intros Hs [Hlen ->]%encodeString_inv Hd.
  cbn [app] in Hd. rewrite <- app_assoc in Hd.
  rewrite (decodeValue_string _ _ _ _ Hd).
  pose proof (drop_next _ _ _ _ Hd) as Hd1.
  assert (Hx : 0 <= Z.of_nat (length (utf8_encode s)) <= 4294967295) by lia.
  rewrite (readUInt32BE_at _ _ _ _ Hx Hd1), bind_Ok.
  rewrite (drop_after _ _ _ _ 4 Hd1) by (by rewrite length_be_bytes).
  rewrite Nat2Z.id, take_app_length, utf8_decode_encode by done.
  do 2 f_equal. cbn [length]. rewrite length_app, length_be_bytes. lia.
Qed.

Lemma encodeString_length s enc :
  encodeString s = Ok enc -> (5 <= length enc)%nat.
Proof.
  intros [_ ->]%encodeString_inv. cbn [length].
  rewrite length_app, length_be_bytes. lia.
Qed.

Lemma encodeValue_length v enc :
  encodeValue v = Ok enc -> (1 <= length enc)%nat.
Proof.
  destruct v as [| |b|z|bits|s|items|props]; cbn [encodeValue].
  - intros [= <-]. cbn. lia.
  - intros [= <-]. cbn. lia.
  - intros [= <-]. cbn. lia.
  - repeat case_match; intros (p & _ & [= <-])%bind_inv; cbn; lia.
  - intros [= <-]. cbn. lia.
  - intros H%encodeString_length. lia.
  - intros (l & _ & (b & _ & [= <-])%bind_inv)%bind_inv. cbn. lia.
  - intros (l & _ & (b & _ & [= <-])%bind_inv)%bind_inv. cbn. lia.
Qed.

Lemma decodeItems_encodeItems items :
  Forall (fun v =>
    in_domain v = true -> forall enc, encodeValue v = Ok enc ->
    forall d (buffer : Buffer) offset rest,
      (length enc <= d)%nat -> drop offset buffer = enc ++ rest ->
      decodeValue d buffer offset = Ok (v, (offset + length enc)%nat)) items ->
  forallb in_domain items = true ->
  forall body, encodeItems encodeValue items = Ok body ->
  forall d (buffer : Buffer) offset rest arr,
    (length body <= d)%nat -> drop offset buffer = body ++ rest ->
    decodeItems (decodeValue d buffer) (length items) offset arr
    = Ok (VArray (arr ++ items), (offset + length body)%nat).
Proof.
  induction 1 as [|v items Hv _ IH]; intros Hdom body Henc d buffer offset rest arr Hfuel Hd.
  - injection Henc as <-. cbn. by rewrite app_nil_r, Nat.add_0_r.
  - cbn [forallb] in Hdom. apply andb_true_iff in Hdom as [Hdv Hdl].
    cbn [encodeItems] in Henc.
    apply bind_inv in Henc as (a & Ha & Henc).
    apply bind_inv in Henc as (b & Hb & [= <-]).
    rewrite length_app in Hfuel. rewrite <- app_assoc in Hd.
    cbn [length A114Protocol.decodeItems].
    rewrite (Hv Hdv a Ha d buffer offset (b ++ rest)) by (done || lia).
    rewrite bind_Ok.
    rewrite (IH Hdl b Hb d buffer _ rest) by
      (lia || by apply (drop_after _ _ _ _ _ Hd)).
    rewrite <- app_assoc, length_app. do 2 f_equal. lia.
Qed.

Lemma alist_set_fresh {A : Type} k (x : A) m :
  k ∉ List.map fst m -> alist_set k x m = m ++ [(k, x)].
Proof.
  induction m as [|[k' x'] m IH]; intros Hk; [done|].
  cbn [alist_set]. cbn in Hk. apply not_elem_of_cons in Hk as [Hne Hk].
  rewrite decide_False by done. by rewrite IH.
Qed.

Lemma decodePairs_encodePairs props :
  Forall (fun kv =>
    in_domain kv.2 = true -> forall enc, encodeValue kv.2 = Ok enc ->
    forall d (buffer : Buffer) offset rest,
      (length enc <= d)%nat -> drop offset buffer = enc ++ rest ->
      decodeValue d buffer offset = Ok (kv.2, (offset + length enc)%nat)) props ->
  forallb (fun kv => let '(k, x) := kv in is_text k && in_domain x) props = true ->
  forall body, encodePairs encodeValue props = Ok body ->
  forall d (buffer : Buffer) offset rest obj,
    NoDup (List.map fst (obj ++ props)) ->
    (length body <= d)%nat -> drop offset buffer = body ++ rest ->
    decodePairs (decodeValue d buffer) (length props) offset obj
    = Ok (VObject (obj ++ props), (offset + length body)%nat).
Proof.
  induction 1 as [|[k v] props Hv _ IH];
    intros Hdom body Henc d buffer offset rest obj Hnd Hfuel Hd.
  - injection Henc as <-. cbn. by rewrite app_nil_r, Nat.add_0_r.
  - cbn [forallb] in Hdom. apply andb_true_iff in Hdom as [Hdv Hdl].
    apply andb_true_iff in Hdv as [Hk Hdv].
    cbn [encodePairs] in Henc.
    apply bind_inv in Henc as (ek & Hek & Henc).
    apply bind_inv in Henc as (a & Ha & Henc).
    apply bind_inv in Henc as (b & Hb & [= <-]).
    rewrite !length_app in Hfuel. rewrite <- !app_assoc in Hd.
    pose proof (encodeString_length _ _ Hek) as Hlk.
    destruct d as [|d]; [lia|].
    cbn [length A114Protocol.decodePairs].
    rewrite (decodeValue_encodeString k ek d buffer offset _ Hk Hek Hd).
    rewrite bind_Ok.
    pose proof (drop_after _ _ _ _ _ Hd eq_refl) as Hd1.
    cbn [snd] in Hv.
    rewrite (Hv Hdv a Ha (S d) buffer _ (b ++ rest)) by (done || lia).
    rewrite bind_Ok. cbn [A114Protocol.to_property_key].
    pose proof (drop_after _ _ _ _ _ Hd1 eq_refl) as Hd2.
    unfold obj_set. rewrite alist_set_fresh.
    2:{ rewrite map_app in Hnd. apply NoDup_app in Hnd as (_ & Hnd & _).
        intros Hin. apply (Hnd k Hin). cbn. left. }
    rewrite (IH Hdl b Hb (S d) buffer _ rest) by
      (done || lia || by rewrite <- app_assoc).
    rewrite <- app_assoc. cbn [app]. do 2 f_equal. rewrite !length_app. lia.
Qed.

#[local] Arguments be_bytes : simpl never.

Lemma be_value_1 z : be_value (be_bytes 1 z) = z mod 256.
Proof. by rewrite be_value_be_bytes. Qed.

Lemma be_value_2 z : be_value (be_bytes 2 z) = z mod 65536.
Proof. by rewrite be_value_be_bytes. Qed.

Lemma be_value_4 z : be_value (be_bytes 4 z) = z mod 4294967296.
Proof. by rewrite be_value_be_bytes. Qed.

Lemma be_value_8 z : be_value (be_bytes 8 z) = z mod 18446744073709551616.
Proof. by rewrite be_value_be_bytes. Qed.

Lemma is_float_bits_inv bits :
  is_float_bits bits = true ->
  0 <= bits <= 18446744073709551615 /\ double_of_bits bits = VFloat bits.
Proof.
  unfold is_float_bits. intros [Hr Hd]%andb_true_iff.
  apply in_range_true in Hr. split; [exact Hr|].
  destruct (double_of_bits bits); try discriminate.
  apply Z.eqb_eq in Hd. by subst.
Qed.

Lemma decodeValue_encodeValue v :
  in_domain v = true -> forall enc, encodeValue v = Ok enc ->
  forall d (buffer : Buffer) offset rest,
    (length enc <= d)%nat -> drop offset buffer = enc ++ rest ->
    decodeValue d buffer offset = Ok (v, (offset + length enc)%nat).
Proof.
  induction v as [| |b|z|bits|s|items IH|props IH] using value_nested_ind;
    intros Hdom enc Henc d buffer offset rest Hfuel Hd;
    pose proof (encodeValue_length _ _ Henc) as Hpos;
    (destruct d as [|d]; [lia|]); cbn [encodeValue] in Henc.
  - discriminate.
  - injection Henc as <-.
    rewrite (decodeValue_null _ _ _ _ Hd). do 2 f_equal. cbn. lia.
  - injection Henc as <-. cbn [app] in Hd.
    rewrite (decodeValue_bool _ _ _ _ Hd).
    rewrite (readUInt8_at _ _ _ _ (drop_next _ _ _ _ Hd)), bind_Ok.
    f_equal. f_equal; [by destruct b | cbn; lia].
  - cbn [in_domain] in Hdom. apply in_range_true in Hdom.
    destruct (in_range (-128) 127 z) eqn:E8.
    { apply in_range_true in E8. unfold writeInt8 in Henc.
      rewrite (proj2 (in_range_true _ _ _) E8) in Henc.
      injection Henc as <-. cbn [app] in Hd.
      rewrite (decodeValue_int8 _ _ _ _ Hd). unfold readInt8.
      rewrite (read_bytes_at 1 _ _ _ rest (drop_next _ _ _ _ Hd))
        by apply length_be_bytes.
      rewrite !bind_Ok, be_value_1, to_signed_8 by done.
      do 2 f_equal. cbn [length]. rewrite length_be_bytes. lia. }
    destruct (in_range (-32768) 32767 z) eqn:E16.
    { apply in_range_true in E16. unfold writeInt16BE in Henc.
      rewrite (proj2 (in_range_true _ _ _) E16) in Henc.
      injection Henc as <-. cbn [app] in Hd.
      rewrite (decodeValue_int16 _ _ _ _ Hd). unfold readInt16BE.
      rewrite (read_bytes_at 2 _ _ _ rest (drop_next _ _ _ _ Hd))
        by apply length_be_bytes.
      rewrite !bind_Ok, be_value_2, to_signed_16 by done.
      do 2 f_equal. cbn [length]. rewrite length_be_bytes. lia. }
    unfold writeInt32BE in Henc.
    rewrite (proj2 (in_range_true _ _ _) Hdom) in Henc.
    injection Henc as <-. cbn [app] in Hd.
    rewrite (decodeValue_int32 _ _ _ _ Hd). unfold readInt32BE.
    rewrite (read_bytes_at 4 _ _ _ rest (drop_next _ _ _ _ Hd))
      by apply length_be_bytes.
    rewrite !bind_Ok, be_value_4, to_signed_32 by done.
    do 2 f_equal. cbn [length]. rewrite length_be_bytes. lia.
  - cbn [in_domain] in Hdom. apply is_float_bits_inv in Hdom as [Hr Hbits].
    injection Henc as <-. cbn [app] in Hd.
    rewrite (decodeValue_float64 _ _ _ _ Hd). unfold readDoubleBE, writeDoubleBE.
    rewrite (read_bytes_at 8 _ _ _ rest (drop_next _ _ _ _ Hd))
      by apply length_be_bytes.
    rewrite !bind_Ok, be_value_8, Z.mod_small, Hbits by lia.
    do 2 f_equal. cbn [length]. unfold writeDoubleBE.
    rewrite length_be_bytes. lia.
  - by apply (decodeValue_encodeString s enc d buffer offset rest).
  - cbn [in_domain] in Hdom.
    apply bind_inv in Henc as (lenBuf & Hlen & Henc).
    apply bind_inv in Henc as (body & Hbody & [= <-]).
    apply writeUInt32BE_inv in Hlen as [Hr ->].
    cbn [app] in Hd. rewrite <- app_assoc in Hd.
    rewrite (decodeValue_array _ _ _ _ Hd).
    pose proof (drop_next _ _ _ _ Hd) as Hd1.
    rewrite (readUInt32BE_at _ _ _ _ Hr Hd1), bind_Ok, Nat2Z.id.
    cbn [length] in Hfuel. rewrite length_app, length_be_bytes in Hfuel.
    rewrite (decodeItems_encodeItems items IH Hdom body Hbody d buffer _ rest)
      by (lia || by apply (drop_after _ _ _ _ 4 Hd1); rewrite length_be_bytes).
    do 2 f_equal. cbn [length]. rewrite length_app, length_be_bytes. lia.
  - cbn [in_domain] in Hdom. apply andb_true_iff in Hdom as [Hnd Hdom].
    apply bool_decide_eq_true in Hnd.
    apply bind_inv in Henc as (lenBuf & Hlen & Henc).
    apply bind_inv in Henc as (body & Hbody & [= <-]).
    apply writeUInt32BE_inv in Hlen as [Hr ->].
    cbn [app] in Hd. rewrite <- app_assoc in Hd.
    rewrite (decodeValue_object _ _ _ _ Hd).
    pose proof (drop_next _ _ _ _ Hd) as Hd1.
    rewrite (readUInt32BE_at _ _ _ _ Hr Hd1), bind_Ok, Nat2Z.id.
    cbn [length] in Hfuel. rewrite length_app, length_be_bytes in Hfuel.
    rewrite (decodePairs_encodePairs props IH Hdom body Hbody d buffer _ rest [])
      by (done || lia || by apply (drop_after _ _ _ _ 4 Hd1); rewrite length_be_bytes).
    do 2 f_equal. cbn [length]. rewrite length_app, length_be_bytes. lia.
Qed.

Lemma encoded_size_pos v : 0 < encoded_size v.
Proof.
  induction v as [| |b|z|bits|s|items IH|props IH] using value_nested_ind;
    cbn [encoded_size]; try lia.
  - repeat case_match; lia.
  - induction IH as [|x items Hx _ IHl]; cbn [fold_right]; lia.
  - induction IH as [|[k x] props Hx _ IHl]; cbn [fold_right]; [lia|].
    cbn [snd] in Hx. lia.
Qed.

Lemma encodeString_total s :
  Z.of_nat (length (utf8_encode s)) <= 4294967290 ->
  exists enc, encodeString s = Ok enc
              /\ Z.of_nat (length enc) = 5 + Z.of_nat (length (utf8_encode s)).
Proof.
  intros Hs. unfold encodeString, writeUInt32BE.
  rewrite (proj2 (in_range_true _ _ _)) by lia. rewrite bind_Ok.
  eexists; split; [reflexivity|].
  cbn [length]. rewrite length_app, length_be_bytes. lia.
Qed.

Lemma encodeValue_total v :
  in_domain v = true -> encoded_size v <= 4294967295 ->
  exists enc, encodeValue v = Ok enc /\ Z.of_nat (length enc) = encoded_size v.
Proof.
  induction v as [| |b|z|bits|s|items IH|props IH] using value_nested_ind;
    intros Hdom Hsize; cbn [encodeValue encoded_size] in *.
  - discriminate.
  - by eexists.
  - by eexists.
  - apply in_range_true in Hdom. unfold writeInt8, writeInt16BE, writeInt32BE.
    destruct (in_range (-128) 127 z); [by eexists|].
    destruct (in_range (-32768) 32767 z); [by eexists|].
    rewrite (proj2 (in_range_true _ _ _)) by done. by eexists.
  - eexists; split; [reflexivity|]. cbn [length]. unfold writeDoubleBE.
    rewrite length_be_bytes. lia.
  - apply encodeString_total. lia.
  - assert (Hitems : exists body, encodeItems encodeValue items = Ok body
              /\ Z.of_nat (length body)
                 = fold_right (fun x n => encoded_size x + n) 0 items
              /\ Z.of_nat (length items) <= Z.of_nat (length body)).
    { revert Hdom Hsize.
      induction IH as [|x items Hx _ IHl]; cbn [forallb fold_right encodeItems];
        intros Hdom Hsize.
      - exists []. by cbn.
      - apply andb_true_iff in Hdom as [Hdx Hdl].
        pose proof (encoded_size_pos x) as Hpx.
        assert (0 <= fold_right (fun x n => encoded_size x + n) 0 items) as Hnn.
        { clear. induction items as [|y l IHy]; cbn; [lia|].
          pose proof (encoded_size_pos y). lia. }
        destruct (Hx Hdx ltac:(lia)) as (a & -> & Ha).
        destruct (IHl Hdl ltac:(lia)) as (b & -> & Hb & Hb').
        rewrite !bind_Ok. eexists; split; [reflexivity|].
        rewrite length_app. cbn [length]. lia. }
    destruct Hitems as (body & -> & Hbody & Hcount).
    unfold writeUInt32BE. rewrite (proj2 (in_range_true _ _ _)) by lia.
    rewrite !bind_Ok. eexists; split; [reflexivity|].
    cbn [length]. rewrite length_app, length_be_bytes. lia.
  - apply andb_true_iff in Hdom as [_ Hdom].
    assert (Hprops : exists body, encodePairs encodeValue props = Ok body
              /\ Z.of_nat (length body)
                 = fold_right
                     (fun kv n =>
                        let '(k, x) := kv in
                        5 + Z.of_nat (length (utf8_encode k))
                        + encoded_size x + n) 0 props
              /\ Z.of_nat (length props) <= Z.of_nat (length body)).
    { revert Hdom Hsize.
      induction IH as [|[k x] props Hx _ IHl];
        cbn [forallb fold_right encodePairs]; intros Hdom Hsize.
      - exists []. by cbn.
      - apply andb_true_iff in Hdom as [Hdx Hdl].
        apply andb_true_iff in Hdx as [_ Hdx]. cbn [snd] in Hx.
        pose proof (encoded_size_pos x) as Hpx.
        assert (0 <= fold_right
                       (fun kv n =>
                          let '(k, x) := kv in
                          5 + Z.of_nat (length (utf8_encode k))
                          + encoded_size x + n) 0 props) as Hnn.
        { clear. induction props as [|[k y] l IHy]; cbn; [lia|].
          pose proof (encoded_size_pos y). lia. }
        destruct (encodeString_total k ltac:(lia)) as (ek & -> & Hek).
        destruct (Hx Hdx ltac:(lia)) as (a & -> & Ha).
        destruct (IHl Hdl ltac:(lia)) as (b & -> & Hb & Hb').
        rewrite !bind_Ok. eexists; split; [reflexivity|].
        rewrite !length_app. cbn [length]. lia. }
    destruct Hprops as (body & -> & Hbody & Hcount).
    unfold writeUInt32BE. rewrite (proj2 (in_range_true _ _ _)) by lia.
    rewrite !bind_Ok. eexists; split; [reflexivity|].
    cbn [length]. rewrite length_app, length_be_bytes. lia.
Qed.

Lemma createHeader_inv len header :
  createHeader len = Ok header ->
  0 <= len <= 4294967295
  /\ header = [0xA1; 0x14; VERSION; 0x00] ++ be_bytes 4 len.
Proof.
  unfold createHeader. intros (l & Hw & [= <-])%bind_inv.
  by apply writeUInt32BE_inv in Hw as [Hr ->].
Qed.

Lemma parseHeader_createHeader len header :
  createHeader len = Ok header ->
  length header = HEADER_SIZE /\ parseHeader header = Ok (VERSION, 0, len).
Proof.
  intros [Hr ->]%createHeader_inv. split.
  { rewrite length_app, length_be_bytes. reflexivity. }
  unfold parseHeader. cbn [app].
  erewrite readUInt8_at, bind_Ok by reflexivity.
  erewrite readUInt8_at, bind_Ok by reflexivity.
  cbn [negb orb Z.eqb Pos.eqb].
  erewrite readUInt8_at, bind_Ok by reflexivity.
  cbn [negb orb Z.eqb Pos.eqb VERSION].
  erewrite readUInt8_at, bind_Ok by reflexivity.
  rewrite (readUInt32BE_at _ 4 len [] Hr) by (cbn [drop]; by rewrite app_nil_r).
  reflexivity.
Qed.

Lemma decodePayload_encodePayload v payload :
  in_domain v = true -> encodePayload v = Ok payload ->
  decodePayload payload = Ok v.
Proof.
  intros Hdom Henc. unfold A114Protocol.decodePayload.
  rewrite (decodeValue_encodeValue v Hdom payload Henc _ payload 0 [])
    by (lia || by rewrite app_nil_r).
  reflexivity.
Qed.


(** ** The header checks of [decode] *)

(** C3. Header validation: [decode] fails with a FORMAT_ERROR on a buffer
    shorter than the 8-byte header; on a buffer of at least 8 bytes it
    fails on wrong magic bytes, else on a version other than 1, else on a
    declared payload length that differs from the number of bytes after
    the header, in that order; only when all four checks pass is the
    payload decoded. *)
Theorem header_validation (buffer : Buffer) :
  ((length buffer < 8)%nat -> format_error (decode buffer) TooShort)
  /\ (forall m1 m2 ver flags l1 l2 l3 l4 payload,
        buffer = m1 :: m2 :: ver :: flags :: l1 :: l2 :: l3 :: l4 :: payload ->
        (m1 <> 0xA1 \/ m2 <> 0x14 -> format_error (decode buffer) WrongMagic)
        /\ (m1 = 0xA1 -> m2 = 0x14 -> ver <> VERSION ->
            format_error (decode buffer) (UnsupportedVersion ver))
        /\ (m1 = 0xA1 -> m2 = 0x14 -> ver = VERSION ->
            be_value [l1; l2; l3; l4] <> Z.of_nat (length payload) ->
            format_error (decode buffer) LengthMismatch)
        /\ (m1 = 0xA1 -> m2 = 0x14 -> ver = VERSION ->
            be_value [l1; l2; l3; l4] = Z.of_nat (length payload) ->
            decode buffer = decodePayload payload)).
Proof.
  split.
  { intros Hlen. split; [|reflexivity]. unfold A114Protocol.decode.
    by destruct (Nat.ltb_spec (length buffer) HEADER_SIZE) as [_|Hge];
      [|unfold HEADER_SIZE in Hge; lia]. }
  intros m1 m2 ver flags l1 l2 l3 l4 payload ->.
  assert (Hdec : decode (m1 :: m2 :: ver :: flags :: l1 :: l2 :: l3 :: l4 :: payload)
    = if negb (m1 =? 0xA1) || negb (m2 =? 0x14) then Throw WrongMagic
      else if negb (ver =? VERSION) then Throw (UnsupportedVersion ver)
      else if negb (Z.of_nat (length payload) =? be_value [l1; l2; l3; l4])
           then Throw LengthMismatch
      else decodePayload payload).
  { unfold A114Protocol.decode, parseHeader.
    change (length _ <? HEADER_SIZE)%nat with false. cbn [take drop HEADER_SIZE].
    erewrite readUInt8_at, bind_Ok by reflexivity.
    erewrite readUInt8_at, bind_Ok by reflexivity.
    destruct (negb (m1 =? 161) || negb (m2 =? 20)); [reflexivity|].
    erewrite readUInt8_at, bind_Ok by reflexivity.
    destruct (negb (ver =? VERSION)); [reflexivity|].
    erewrite readUInt8_at, bind_Ok by reflexivity.
    unfold readUInt32BE.
    erewrite (read_bytes_at 4 _ 4 [l1; l2; l3; l4] []) by reflexivity.
    reflexivity. }
  rewrite Hdec. split; [|split; [|split]].
  - intros Hm. split; [|reflexivity].
    destruct Hm as [Hm|Hm]; apply Z.eqb_neq in Hm; rewrite Hm; cbn [negb orb].
    + reflexivity.
    + by rewrite orb_true_r.
  - intros -> -> Hv. split; [|reflexivity].
    cbn [negb orb Z.eqb Pos.eqb]. apply Z.eqb_neq in Hv. by rewrite Hv.
  - intros -> -> -> Hl. split; [|reflexivity].
    cbn [negb orb Z.eqb Pos.eqb VERSION].
    assert ((Z.of_nat (length payload) =? be_value [l1; l2; l3; l4]) = false)
      as -> by (apply Z.eqb_neq; congruence).
    reflexivity.
  - intros -> -> -> Hl. cbn [negb orb Z.eqb Pos.eqb VERSION].
    by rewrite Hl, Z.eqb_refl.
Qed.

(** ** The tags [encode] selects *)

Lemma createHeader_tagged tag n x :
  createHeader (Z.of_nat (length (tag :: be_bytes n x)))
  = createHeader (Z.of_nat (S n)).
Proof. cbn [length]. by rewrite length_be_bytes. Qed.

Lemma encode_int8 z :
  -128 <= z <= 127 ->
  encode (VInt z)
  = Ok ([0xA1; 0x14; 1; 0; 0; 0; 0; 2] ++ DT_INT8 :: be_bytes 1 z).
Proof.
  intros Hz. unfold encode, encodePayload. cbn [encodeValue].
  unfold writeInt8. rewrite (proj2 (in_range_true _ _ _)) by lia.
  rewrite !bind_Ok, createHeader_tagged. reflexivity.
Qed.

Lemma encode_int16 z :
  -32768 <= z <= -129 \/ 128 <= z <= 32767 ->
  encode (VInt z)
  = Ok ([0xA1; 0x14; 1; 0; 0; 0; 0; 3] ++ DT_INT16 :: be_bytes 2 z).
Proof.
  intros Hz. unfold encode, encodePayload. cbn [encodeValue].
  unfold writeInt16BE.
  rewrite (proj2 (in_range_false (-128) 127 z)) by lia.
  rewrite (proj2 (in_range_true _ _ _)) by lia.
  rewrite !bind_Ok, createHeader_tagged. reflexivity.
Qed.

Lemma encode_int32 z :
  -2147483648 <= z <= -32769 \/ 32768 <= z <= 2147483647 ->
  encode (VInt z)
  = Ok ([0xA1; 0x14; 1; 0; 0; 0; 0; 5] ++ DT_INT32 :: be_bytes 4 z).
Proof.
  intros Hz. unfold encode, encodePayload. cbn [encodeValue].
  unfold writeInt32BE.
  rewrite (proj2 (in_range_false (-128) 127 z)) by lia.
  rewrite (proj2 (in_range_false (-32768) 32767 z)) by lia.
  rewrite (proj2 (in_range_true _ _ _)) by lia.
  rewrite !bind_Ok, createHeader_tagged. reflexivity.
Qed.

Lemma encodeValue_out_of_range z :
  z < -2147483648 \/ 2147483647 < z ->
  encodeValue (VInt z) = Throw OutOfRange.
Proof.
  intros Hz. cbn [encodeValue]. unfold writeInt32BE.
  rewrite (proj2 (in_range_false (-128) 127 z)) by lia.
  rewrite (proj2 (in_range_false (-32768) 32767 z)) by lia.
  rewrite (proj2 (in_range_false (-2147483648) 2147483647 z)) by lia.
  reflexivity.
Qed.

(** C2. Integer tag minimality: [encode] writes an integer of
    [-128, 127] under the INT8 tag with a 1-byte payload, an integer of
    [-32768, -129] or [128, 32767] under the INT16 tag with a 2-byte
    payload, any other integer of the signed 32-bit range under the INT32
    tag with a 4-byte payload, and a number that is not an integer under
    the FLOAT64 tag with its 8 bytes; so 127 goes under INT8, 128 and
    32767 under INT16, and 32768 under INT32. *)
Theorem integer_tag_minimality :
  (forall z, -128 <= z <= 127 ->
     encode (VInt z)
     = Ok ([0xA1; 0x14; 1; 0; 0; 0; 0; 2] ++ DT_INT8 :: be_bytes 1 z))
  /\ (forall z, -32768 <= z <= -129 \/ 128 <= z <= 32767 ->
        encode (VInt z)
        = Ok ([0xA1; 0x14; 1; 0; 0; 0; 0; 3] ++ DT_INT16 :: be_bytes 2 z))
  /\ (forall z, -2147483648 <= z <= -32769 \/ 32768 <= z <= 2147483647 ->
        encode (VInt z)
        = Ok ([0xA1; 0x14; 1; 0; 0; 0; 0; 5] ++ DT_INT32 :: be_bytes 4 z))
  /\ (forall bits,
        encode (VFloat bits)
        = Ok ([0xA1; 0x14; 1; 0; 0; 0; 0; 9] ++ DT_FLOAT64 :: be_bytes 8 bits))
  /\ (forall n x, length (be_bytes n x) = n)
  /\ encodePayload (VInt 127) = Ok [DT_INT8; 127]
  /\ encodePayload (VInt 128) = Ok [DT_INT16; 0; 128]
  /\ encodePayload (VInt 32767) = Ok [DT_INT16; 127; 255]
  /\ encodePayload (VInt 32768) = Ok [DT_INT32; 0; 0; 128; 0].
Proof.
  split; [exact encode_int8|]. split; [exact encode_int16|].
  split; [exact encode_int32|]. split; [|split].
  - intros bits. unfold encode, encodePayload. cbn [encodeValue].
    unfold writeDoubleBE. rewrite !bind_Ok, createHeader_tagged. reflexivity.
  - apply length_be_bytes.
  - repeat split; reflexivity.
Qed.

(** C10. An integer outside the signed 32-bit range makes [encode] throw
    the RangeError of the INT32 write, and no packet is produced; every
    integer inside that range is encoded. *)
Theorem encode_int32_only z :
  (z < -2147483648 \/ 2147483647 < z -> encode (VInt z) = Throw OutOfRange)
  /\ (-2147483648 <= z <= 2147483647 ->
      exists packet, encode (VInt z) = Ok packet).
Proof.
  split.
  - intros Hz. unfold encode, encodePayload.
    by rewrite encodeValue_out_of_range.
  - intros Hz.
    destruct (decide (-128 <= z <= 127)) as [H8|H8].
    { eexists. by apply encode_int8. }
    destruct (decide (-32768 <= z <= 32767)) as [H16|H16].
    { eexists. apply encode_int16. lia. }
    eexists. apply encode_int32. lia.
Qed.

(** An integer that is out of range inside an array or an object makes
    [encode] throw as well. *)
Lemma encode_nested_out_of_range z :
  z < -2147483648 \/ 2147483647 < z ->
  encode (VArray [VInt z]) = Throw OutOfRange
  /\ encode (VObject [(str "n", VInt z)]) = Throw OutOfRange.
Proof.
  intros Hz.
  pose proof (encodeValue_out_of_range z Hz) as Hv.
  unfold encode, encodePayload.
  split; cbn [encodeValue]; cbn [encodeItems encodePairs]; rewrite Hv;
    reflexivity.
Qed.

(** ** Command packets *)

Lemma COMMANDS_find name code :
  In (name, code) COMMANDS ->
  List.find (fun e => bool_decide (e.1 = name)) COMMANDS = Some (name, code)
  /\ List.find (fun e => e.2 =? code) COMMANDS = Some (name, code).
Proof.
  intros Hin. cbn in Hin.
  repeat (destruct Hin as [Hin|Hin];
          [injection Hin as <- <-; split; vm_compute; reflexivity|]).
  destruct Hin.
Qed.

(** The round trip of a command whose data is truthy, and of a command
    without data. *)
Lemma command_round_trip name code data :
  In (name, code) COMMANDS ->
  (in_domain data = true -> truthy data = true ->
   encoded_size data <= 4294967295 ->
   exists packet, createCommand name data = Ok packet
                  /\ parseCommand packet = Ok (name, data))
  /\ (exists packet, createCommand name VUndefined = Ok packet
                     /\ parseCommand packet = Ok (name, VUndefined)).
Proof.
  intros Hin. destruct (COMMANDS_find name code Hin) as [Hn Hc].
  split.
  - intros Hdom Htruthy Hsize.
    destruct (encodeValue_total data Hdom Hsize) as (payload & Henc & Hlen).
    pose proof (encodeValue_length _ _ Henc) as Hpos.
    unfold A114Protocol.createCommand. rewrite Hn, Htruthy.
    unfold encodePayload at 1. rewrite Henc, bind_Ok.
    eexists; split; [reflexivity|].
    unfold A114Protocol.parseCommand. cbn [app length Nat.eqb].
    erewrite readUInt8_at, bind_Ok by reflexivity. rewrite Hc.
    destruct (Nat.ltb_spec 1 (S (length payload))) as [_|Hle]; [|lia].
    cbn [drop]. rewrite drop_0.
    by rewrite (decodePayload_encodePayload data payload).
  - unfold A114Protocol.createCommand. rewrite Hn. cbn [truthy].
    rewrite bind_Ok. eexists; split; [reflexivity|].
    unfold A114Protocol.parseCommand. cbn [app length Nat.eqb].
    erewrite readUInt8_at, bind_Ok by reflexivity. by rewrite Hc.
Qed.

(** The faults of the command layer. *)
Lemma command_faults :
  (forall name data,
     (forall code, ~ In (name, code) COMMANDS) ->
     createCommand name data = Throw (UnknownCommand name))
  /\ parseCommand [] = Throw EmptyPacket
  /\ (forall code rest,
        (forall name, ~ In (name, code) COMMANDS) ->
        parseCommand (code :: rest) = Throw (UnknownCommandCode code)).
Proof.
  split; [|split].
  - intros name data Hno. unfold A114Protocol.createCommand.
    destruct (List.find _ COMMANDS) as [[n c]|] eqn:Hf; [|reflexivity].
    apply find_some in Hf as [Hl Hp].
    apply bool_decide_eq_true in Hp. cbn in Hp. subst n.
    by destruct (Hno c).
  - reflexivity.
  - intros code rest Hno. unfold A114Protocol.parseCommand.
    cbn [length Nat.eqb]. erewrite readUInt8_at, bind_Ok by reflexivity.
    destruct (List.find _ COMMANDS) as [[n c]|] eqn:Hf; [|reflexivity].
    apply find_some in Hf as [Hl Hp].
    apply Z.eqb_eq in Hp. cbn in Hp. subst c.
    by destruct (Hno n).
Qed.

(** C4, at the inputs where the code departs from it: a payload that is
    given but falsy (0, false, the empty string, null) is not written by
    [createCommand], and [parseCommand] returns the command without
    data. *)
Theorem createCommand_drops_falsy_data :
  (let* packet := createCommand (str "SEND") (VInt 0) in parseCommand packet)
  = Ok (str "SEND", VUndefined)
  /\ (let* packet := createCommand (str "SEND") (VBool false) in
      parseCommand packet) = Ok (str "SEND", VUndefined)
  /\ (let* packet := createCommand (str "SEND") (VString []) in
      parseCommand packet) = Ok (str "SEND", VUndefined)
  /\ (let* packet := createCommand (str "SEND") VNull in
      parseCommand packet) = Ok (str "SEND", VUndefined)
  /\ in_domain (VInt 0) = true /\ In (str "SEND", 0x10) COMMANDS.
Proof. repeat split; try reflexivity. cbn. tauto. Qed.
End CodecProperties.

(** ** The recursion bound of the decoder is never met *)

Section DecoderDepth.

Variable js_ToString : value -> jsstring.

#[local] Abbreviation decodeValue := (A114Protocol.decodeValue js_ToString).
#[local] Abbreviation decodePairs := (A114Protocol.decodePairs js_ToString).

Lemma bind_throw {A B : Type} (r : result A) (k : A -> result B) e :
  bind r k = Throw e ->
  r = Throw e \/ exists a, r = Ok a /\ k a = Throw e.
Proof. destruct r as [a|e']; cbn; [eauto | intros [= ->]; by left]. Qed.

Lemma read_bytes_throw n (buffer : Buffer) offset e :
  read_bytes n buffer offset = Throw e -> e = OutOfRange.
Proof. unfold read_bytes. case_match; [discriminate | by intros [= <-]]. Qed.

Lemma read_bytes_Ok n (buffer : Buffer) offset bs :
  read_bytes (S n) buffer offset = Ok bs -> (offset < length buffer)%nat.
Proof.
  unfold read_bytes. case_match eqn:E; [|discriminate]. intros _.
  apply Nat.eqb_eq in E. rewrite length_take, length_drop in E. lia.
Qed.

Lemma reads_throw (buffer : Buffer) offset e :
  (readUInt8 buffer offset = Throw e -> e = OutOfRange)
  /\ (readInt8 buffer offset = Throw e -> e = OutOfRange)
  /\ (readInt16BE buffer offset = Throw e -> e = OutOfRange)
  /\ (readInt32BE buffer offset = Throw e -> e = OutOfRange)
  /\ (readUInt32BE buffer offset = Throw e -> e = OutOfRange)
  /\ (readDoubleBE buffer offset = Throw e -> e = OutOfRange).
Proof.
  unfold readUInt8, readInt8, readInt16BE, readInt32BE, readUInt32BE,
    readDoubleBE.
  repeat split; intros [H|(a & _ & H)]%bind_throw;
    try discriminate; by apply read_bytes_throw in H.
Qed.

(** Every call moves the offset forward. *)
Lemma decodeItems_offset (f : nat -> result (value * nat)) n :
  (forall off v off', f off = Ok (v, off') -> (off < off')%nat) ->
  forall off arr v off',
    A114Protocol.decodeItems f n off arr = Ok (v, off') -> (off <= off')%nat.
Proof.
  intros Hf. induction n as [|n IH]; intros off arr v off'; cbn.
  - intros [= _ <-]. lia.
  - intros ([x o1] & H1 & H2)%bind_inv. apply Hf in H1. apply IH in H2. lia.
Qed.

Lemma decodePairs_offset (f : nat -> result (value * nat)) n :
  (forall off v off', f off = Ok (v, off') -> (off < off')%nat) ->
  forall off obj v off',
    decodePairs f n off obj = Ok (v, off') -> (off <= off')%nat.
Proof.
  intros Hf. induction n as [|n IH]; intros off obj v off'; cbn.
  - intros [= _ <-]. lia.
  - intros ([x o1] & H1 & ([y o2] & H2 & H3)%bind_inv)%bind_inv.
    apply Hf in H1, H2. apply IH in H3. lia.
Qed.

Lemma decodeValue_offset d : forall (buffer : Buffer) offset v off',
  decodeValue d buffer offset = Ok (v, off') -> (offset < off')%nat.
Proof.
  induction d as [|d IH]; intros buffer offset v off'; [discriminate|].
  cbn [A114Protocol.decodeValue].
  intros (type & _ & Hk)%bind_inv. revert Hk.
  repeat case_match; try discriminate.
  - intros [= _ <-]. lia.
  - intros (? & _ & [= _ <-])%bind_inv. lia.
  - intros (? & _ & [= _ <-])%bind_inv. lia.
  - intros (? & _ & [= _ <-])%bind_inv. lia.
  - intros (? & _ & [= _ <-])%bind_inv. lia.
  - intros (? & _ & [= _ <-])%bind_inv. lia.
  - intros (? & _ & [= _ <-])%bind_inv. lia.
  - intros (? & _ & Hk)%bind_inv.
    apply (decodeItems_offset _ _ (IH buffer)) in Hk. lia.
  - intros (? & _ & Hk)%bind_inv.
    apply (decodePairs_offset _ _ (IH buffer)) in Hk. lia.
Qed.

Lemma decodeItems_depth (f : nat -> result (value * nat)) n off0 :
  (forall off v off', f off = Ok (v, off') -> (off < off')%nat) ->
  (forall off, (off0 <= off)%nat -> f off <> Throw DepthExhausted) ->
  forall off arr, (off0 <= off)%nat ->
    A114Protocol.decodeItems f n off arr <> Throw DepthExhausted.
Proof.
  intros Hm Hf. induction n as [|n IH]; intros off arr Hoff; cbn; [done|].
  intros [H|([x o1] & H1 & H2)]%bind_throw.
  - by apply (Hf off).
  - apply Hm in H1. apply IH in H2; [done|lia].
Qed.

Lemma decodePairs_depth (f : nat -> result (value * nat)) n off0 :
  (forall off v off', f off = Ok (v, off') -> (off < off')%nat) ->
  (forall off, (off0 <= off)%nat -> f off <> Throw DepthExhausted) ->
  forall off obj, (off0 <= off)%nat ->
    decodePairs f n off obj <> Throw DepthExhausted.
Proof.
  intros Hm Hf. induction n as [|n IH]; intros off obj Hoff; cbn; [done|].
  intros [H|([x o1] & H1 & [H2|([y o2] & H2 & H3)]%bind_throw)]%bind_throw.
  - by apply (Hf off).
  - apply Hm in H1. apply (Hf o1); [lia|done].
  - apply Hm in H1, H2. apply IH in H3; [done|lia].
Qed.

Lemma decodeValue_depth d : forall (buffer : Buffer) offset,
  (length buffer - offset < d)%nat ->
  decodeValue d buffer offset <> Throw DepthExhausted.
Proof.
  induction d as [|d IH]; intros buffer offset Hd; [lia|].
  cbn [A114Protocol.decodeValue].
  destruct (reads_throw buffer (S offset) DepthExhausted)
    as (R8 & RI8 & RI16 & RI32 & RU32 & RD).
  intros [Hk|(type & Ht & Hk)]%bind_throw.
  { by apply (reads_throw buffer offset) in Hk. }
  unfold readUInt8 in Ht. apply bind_inv in Ht as (bs & Ht & _).
  apply read_bytes_Ok in Ht. revert Hk.
  repeat case_match; try discriminate.
  - intros [Hk|(? & _ & [=])]%bind_throw. by apply R8 in Hk.
  - intros [Hk|(? & _ & [=])]%bind_throw. by apply RI8 in Hk.
  - intros [Hk|(? & _ & [=])]%bind_throw. by apply RI16 in Hk.
  - intros [Hk|(? & _ & [=])]%bind_throw. by apply RI32 in Hk.
  - intros [Hk|(? & _ & [=])]%bind_throw. by apply RD in Hk.
  - intros [Hk|(? & _ & [=])]%bind_throw. by apply RU32 in Hk.
  - intros [Hk|(? & _ & Hk)]%bind_throw; [by apply RU32 in Hk|]. revert Hk.
    apply (decodeItems_depth _ _ (S offset) (decodeValue_offset d buffer));
      [|lia].
    intros off Hoff. apply IH. lia.
  - intros [Hk|(? & _ & Hk)]%bind_throw; [by apply RU32 in Hk|]. revert Hk.
    apply (decodePairs_depth _ _ (S offset) (decodeValue_offset d buffer));
      [|lia].
    intros off Hoff. apply IH. lia.
Qed.

(** [decodePayload] never stops at the recursion bound: the bound is a
    device of the model, not a behaviour of the decoder. *)
Lemma decodePayload_depth (payload : Buffer) :
  A114Protocol.decodePayload js_ToString payload <> Throw DepthExhausted.
Proof.
  unfold A114Protocol.decodePayload.
  intros [H|([v o] & _ & [=])]%bind_throw.
  revert H. apply decodeValue_depth. lia.
Qed.

End DecoderDepth.

(** *** The codec properties at sample inputs *)


(** C2 at -128, 200, -40000 and the double 1.5. *)
Lemma integer_tag_minimality_witness :
  A114Protocol.encode (VInt (-128))
  = Ok [0xA1; 0x14; 1; 0; 0; 0; 0; 2; 0x02; 0x80]
  /\ A114Protocol.encode (VInt 200)
     = Ok [0xA1; 0x14; 1; 0; 0; 0; 0; 3; 0x03; 0x00; 0xC8]
  /\ A114Protocol.encode (VInt (-40000))
     = Ok [0xA1; 0x14; 1; 0; 0; 0; 0; 5; 0x04; 0xFF; 0xFF; 0x63; 0xC0]
  /\ A114Protocol.encode (VFloat 0x3FF8000000000000)
     = Ok [0xA1; 0x14; 1; 0; 0; 0; 0; 9; 0x06; 0x3F; 0xF8; 0; 0; 0; 0; 0; 0].
Proof.
  destruct integer_tag_minimality as (H8 & H16 & H32 & H64 & _).
  split; [|split; [|split]].
  - apply (H8 (-128)). lia.
  - apply (H16 200). lia.
  - apply (H32 (-40000)). lia.
  - apply (H64 0x3FF8000000000000).
Defined.

(** C3 at a short buffer, at wrong magic bytes, at version 2 and at a
    declared length of 2 before a payload of one byte. *)
Lemma header_validation_witness :
  format_error (A114Protocol.decode Sample.ToString [0xA1; 0x14; 1]) TooShort
  /\ format_error
       (A114Protocol.decode Sample.ToString [0xA1; 0x15; 2; 0; 0; 0; 0; 9; 0])
       WrongMagic
  /\ format_error
       (A114Protocol.decode Sample.ToString [0xA1; 0x14; 2; 0; 0; 0; 0; 9; 0])
       (UnsupportedVersion 2)
  /\ format_error
       (A114Protocol.decode Sample.ToString [0xA1; 0x14; 1; 0; 0; 0; 0; 2; 0])
       LengthMismatch
  /\ A114Protocol.decode Sample.ToString [0xA1; 0x14; 1; 0; 0; 0; 0; 1; 0]
     = Ok VNull.
Proof.
  split; [|split; [|split; [|split]]].
  - apply (proj1 (header_validation Sample.ToString [0xA1; 0x14; 1])).
    cbn. lia.
  - apply (proj2 (header_validation Sample.ToString _) _ _ _ _ _ _ _ _ _ eq_refl).
    right. discriminate.
  - apply (proj2 (header_validation Sample.ToString _) _ _ _ _ _ _ _ _ _ eq_refl);
      [reflexivity | reflexivity | discriminate].
  - apply (proj2 (header_validation Sample.ToString _) _ _ _ _ _ _ _ _ _ eq_refl);
      [reflexivity | reflexivity | reflexivity | discriminate].
  - rewrite (proj2 (proj2 (proj2
      (proj2 (header_validation Sample.ToString _) _ _ _ _ _ _ _ _ _ eq_refl))));
      reflexivity.
Defined.

(** C10 at the two integers next to the upper bound. *)
Lemma encode_int32_only_witness :
  A114Protocol.encode (VInt 2147483648) = Throw OutOfRange
  /\ exists packet, A114Protocol.encode (VInt 2147483647) = Ok packet.
Proof.
  split.
  - apply (proj1 (encode_int32_only 2147483648)). lia.
  - apply (proj2 (encode_int32_only 2147483647)). lia.
Defined.

(** ** The cache manager *)

Section CacheProperties.

Context {V : Type}.

Implicit Types (m : CacheManager.t V) (c : LRUCache.t (CacheManager.CacheEntry V)).
Implicit Types (k : jsstring).

Lemma has_key_refl k (e : CacheManager.CacheEntry V) start t :
  LRUCache.has_key k (LRUCache.mk_item k e start t) = true.
Proof. unfold LRUCache.has_key. by apply bool_decide_eq_true. Qed.

Lemma disposed_evictions (s : CacheManager.Stats)
    (ds : list (LRUCache.disposal (CacheManager.CacheEntry V))) :
  CacheManager.disposed s ds
  = CacheManager.mk_stats (CacheManager.hits s) (CacheManager.misses s)
      (CacheManager.sets s) (CacheManager.evictions s + Z.of_nat (length ds)).
Proof.
  unfold CacheManager.disposed. revert s.
  induction ds as [|d ds IH]; intros s.
  - destruct s. cbn. f_equal. lia.
  - cbn [fold_left length]. rewrite IH. unfold CacheManager.dispose. cbn.
    f_equal. lia.
Qed.

Lemma find_head k (e : CacheManager.CacheEntry V) start t mx tt l :
  LRUCache.find k (LRUCache.mk mx tt (LRUCache.mk_item k e start t :: l))
  = Some (LRUCache.mk_item k e start t).
Proof.
  unfold LRUCache.find. cbn [LRUCache.items List.find].
  by rewrite has_key_refl.
Qed.

Lemma find_set now k (e : CacheManager.CacheEntry V) t c :
  exists it, LRUCache.find k (LRUCache.set now k e t c).1 = Some it
             /\ LRUCache.i_value it = e.
Proof.
  unfold LRUCache.set.
  destruct (LRUCache.find k c) as [old|]; cbn [fst].
  - rewrite find_head. by eexists.
  - destruct (rev (LRUCache.items c)) as [|lru others]; cbn [fst].
    + rewrite find_head. by eexists.
    + destruct (Nat.eqb _ _); cbn [fst]; rewrite find_head; by eexists.
Qed.

Lemma delete_present k m it :
  LRUCache.find k (CacheManager.cache m) = Some it ->
  CacheManager.delete k m
  = (true,
     CacheManager.mk
       (LRUCache.mk (LRUCache.max (CacheManager.cache m))
          (LRUCache.ttl (CacheManager.cache m))
          (LRUCache.remove k (LRUCache.items (CacheManager.cache m))))
       (CacheManager.mk_stats
          (CacheManager.hits (CacheManager.stats m))
          (CacheManager.misses (CacheManager.stats m))
          (CacheManager.sets (CacheManager.stats m))
          (CacheManager.evictions (CacheManager.stats m) + 1))).
Proof.
  intros Hf. unfold CacheManager.delete, LRUCache.delete. rewrite Hf.
  by rewrite disposed_evictions.
Qed.

Lemma delete_absent k m :
  LRUCache.find k (CacheManager.cache m) = None ->
  CacheManager.delete k m = (false, m).
Proof.
  intros Hf. unfold CacheManager.delete, LRUCache.delete. rewrite Hf.
  by destruct m.
Qed.

(** C5, at the input where the code departs from it: an explicit
    [delete] of a key that was just set returns [true] and increments
    the [evictions] stat, through the [dispose] callback. *)
Theorem delete_counts_as_eviction now k (v : V) (t : option Z) (p : Priority) m :
  let m1 := CacheManager.set now k v t p m in
  (CacheManager.delete k m1).1 = true
  /\ CacheManager.evictions (CacheManager.stats (CacheManager.delete k m1).2)
     = CacheManager.evictions (CacheManager.stats m1) + 1.
Proof.
  intros m1.
  assert (exists it, LRUCache.find k (CacheManager.cache m1) = Some it) as [it Hf].
  { unfold m1, CacheManager.set.
    destruct (find_set now k
      (CacheManager.mk_entry k v now (CacheManager.ttl_or_default t) 0 p)
      (CacheManager.ttl_or_default t) (CacheManager.cache m)) as (it & Hf & _).
    cbn [CacheManager.ttl].
    destruct (LRUCache.set _ _ _ _ _) as [c ds]. cbn in *. eauto. }
  rewrite (delete_present k m1 it Hf). split; reflexivity.
Qed.


(** *** The optimization sweep *)

#[local] Abbreviation swept := CacheManager.swept.

Lemma candidates_swept now m :
  CacheManager.candidates now m
  = List.map LRUCache.i_key
      (List.filter (swept now) (LRUCache.items (CacheManager.cache m))).
Proof.
  unfold CacheManager.candidates, LRUCache.entries.
  induction (LRUCache.items (CacheManager.cache m)) as [|it l IH]; [done|].
  cbn [List.filter]. unfold CacheManager.swept at 1.
  destruct (LRUCache.isStale now it); cbn [negb andb List.map List.filter];
    [exact IH|].
  cbn [snd]. destruct (CacheManager.is_candidate now (LRUCache.i_value it));
    cbn [List.map fst]; by rewrite IH.
Qed.

Lemma find_Some_In k (l : list (LRUCache.item (CacheManager.CacheEntry V))) mx tt :
  In k (List.map LRUCache.i_key l) ->
  exists it, LRUCache.find k (LRUCache.mk mx tt l) = Some it.
Proof.
  unfold LRUCache.find. cbn [LRUCache.items].
  induction l as [|it l IH]; cbn [List.map In List.find]; [done|].
  intros [<-|Hin].
  - unfold LRUCache.has_key. rewrite bool_decide_eq_true_2 by done. eauto.
  - destruct (LRUCache.has_key k it); eauto.
Qed.

Lemma In_remove k k' (l : list (LRUCache.item (CacheManager.CacheEntry V))) :
  k' <> k -> In k' (List.map LRUCache.i_key l) ->
  In k' (List.map LRUCache.i_key (LRUCache.remove k l)).
Proof.
  intros Hne. unfold LRUCache.remove.
  induction l as [|it l IH]; cbn [List.map In List.filter]; [done|].
  unfold LRUCache.has_key at 1. intros [Heq|Hin].
  - rewrite bool_decide_eq_false_2 by congruence. cbn. by left.
  - destruct (bool_decide _); cbn; auto.
Qed.

Lemma optimize_step_present k m it :
  LRUCache.find k (CacheManager.cache m) = Some it ->
  CacheManager.optimize_step m k
  = CacheManager.mk
      (LRUCache.mk (LRUCache.max (CacheManager.cache m))
         (LRUCache.ttl (CacheManager.cache m))
         (LRUCache.remove k (LRUCache.items (CacheManager.cache m))))
      (CacheManager.mk_stats
         (CacheManager.hits (CacheManager.stats m))
         (CacheManager.misses (CacheManager.stats m))
         (CacheManager.sets (CacheManager.stats m))
         (CacheManager.evictions (CacheManager.stats m) + 1 + 1)).
Proof.
  intros Hf. unfold CacheManager.optimize_step.
  by rewrite (delete_present k m it Hf).
Qed.

Lemma optimize_fold ks : forall m,
  NoDup ks ->
  (forall k, In k ks ->
     In k (List.map LRUCache.i_key (LRUCache.items (CacheManager.cache m)))) ->
  let m' := fold_left CacheManager.optimize_step ks m in
  LRUCache.items (CacheManager.cache m')
  = fold_left (fun l k => LRUCache.remove k l) ks
      (LRUCache.items (CacheManager.cache m))
  /\ LRUCache.max (CacheManager.cache m') = LRUCache.max (CacheManager.cache m)
  /\ LRUCache.ttl (CacheManager.cache m') = LRUCache.ttl (CacheManager.cache m)
  /\ CacheManager.stats m'
     = CacheManager.mk_stats
         (CacheManager.hits (CacheManager.stats m))
         (CacheManager.misses (CacheManager.stats m))
         (CacheManager.sets (CacheManager.stats m))
         (CacheManager.evictions (CacheManager.stats m)
          + 2 * Z.of_nat (length ks)).
Proof.
  induction ks as [|k ks IH]; intros m Hnd Hin.
  - cbn. repeat split. destruct (CacheManager.stats m). cbn. f_equal. lia.
  - apply NoDup_cons in Hnd as [Hk Hnd].
    destruct (find_Some_In k (LRUCache.items (CacheManager.cache m))
                (LRUCache.max (CacheManager.cache m))
                (LRUCache.ttl (CacheManager.cache m))) as [it Hf].
    { apply (Hin k). by left. }
    assert (Hf' : LRUCache.find k (CacheManager.cache m) = Some it)
      by (by destruct m as [[mx tt l] st]).
    cbn [fold_left]. rewrite (optimize_step_present k m it Hf').
    match goal with |- context [fold_left CacheManager.optimize_step ks ?m0] =>
      destruct (IH m0 Hnd) as (Hi & Hm & Ht & Hs) end.
    { intros k' Hk'. cbn [CacheManager.cache LRUCache.items]. apply In_remove.
      - intros ->. apply Hk. by apply list_elem_of_In.
      - apply (Hin k'). by right. }
    cbn [CacheManager.cache CacheManager.stats LRUCache.items LRUCache.max
         LRUCache.ttl CacheManager.hits CacheManager.misses CacheManager.sets
         CacheManager.evictions] in Hi, Hm, Ht, Hs.
    rewrite Hi, Hm, Ht, Hs.
    repeat split. f_equal. cbn [length]. lia.
Qed.

Lemma remove_all_filter ks (l : list (LRUCache.item (CacheManager.CacheEntry V))) :
  fold_left (fun l k => LRUCache.remove k l) ks l
  = List.filter (fun it => negb (bool_decide (LRUCache.i_key it ∈ ks))) l.
Proof.
  revert l. induction ks as [|k ks IH]; intros l.
  - cbn [fold_left]. induction l as [|it l IHl]; [done|].
    cbn [List.filter]. rewrite bool_decide_eq_false_2 by apply not_elem_of_nil.
    cbn [negb]. by rewrite <- IHl.
  - cbn [fold_left]. rewrite IH. unfold LRUCache.remove.
    induction l as [|it l IHl]; [done|].
    cbn [List.filter]. unfold LRUCache.has_key at 1.
    destruct (decide (LRUCache.i_key it = k)) as [He|Hne].
    + rewrite (bool_decide_eq_true_2 _ He). cbn [negb].
      rewrite (bool_decide_eq_true_2 (_ ∈ k :: ks))
        by (rewrite He; apply elem_of_cons; by left).
      cbn [negb]. exact IHl.
    + rewrite (bool_decide_eq_false_2 _ Hne). cbn [negb List.filter].
      rewrite IHl.
      assert (bool_decide (LRUCache.i_key it ∈ k :: ks)
              = bool_decide (LRUCache.i_key it ∈ ks)) as ->.
      { apply bool_decide_ext. rewrite elem_of_cons. tauto. }
      reflexivity.
Qed.

Lemma swept_keys now (l : list (LRUCache.item (CacheManager.CacheEntry V))) :
  NoDup (List.map LRUCache.i_key l) ->
  List.filter
    (fun it => negb (bool_decide
       (LRUCache.i_key it
        ∈ List.map LRUCache.i_key (List.filter (swept now) l)))) l
  = List.filter (fun it => negb (swept now it)) l.
Proof.
  intros Hnd. apply filter_ext_in. intros it Hit. f_equal.
  destruct (swept now it) eqn:Hs.
  - apply bool_decide_eq_true_2, list_elem_of_In, in_map, filter_In. done.
  - apply bool_decide_eq_false_2.
    intros (it' & Hk & Hin')%list_elem_of_In%in_map_iff.
    apply filter_In in Hin' as [Hin' Hs'].
    assert (it' = it); [|congruence].
    clear Hs Hs'. induction l as [|x l IHl]; [done|].
    cbn in Hnd. apply NoDup_cons in Hnd as [Hx Hnd].
    destruct Hit as [->|Hit], Hin' as [->|Hin']; try done.
    + exfalso. apply Hx. rewrite <- Hk. apply list_elem_of_In. by apply in_map.
    + exfalso. apply Hx. rewrite Hk. apply list_elem_of_In. by apply in_map.
    + by apply IHl.
Qed.

(** The sweep, exactly: the unexpired entries that pass the filter are
    removed, and each one adds 2 to [evictions], once through [dispose]
    and once through the increment of [optimize] itself. *)
Lemma optimize_exact now m :
  NoDup (List.map LRUCache.i_key (LRUCache.items (CacheManager.cache m))) ->
  let m' := CacheManager.optimize now m in
  let removed :=
    List.filter (swept now) (LRUCache.items (CacheManager.cache m)) in
  LRUCache.items (CacheManager.cache m')
  = List.filter (fun it => negb (swept now it))
      (LRUCache.items (CacheManager.cache m))
  /\ LRUCache.max (CacheManager.cache m') = LRUCache.max (CacheManager.cache m)
  /\ LRUCache.ttl (CacheManager.cache m') = LRUCache.ttl (CacheManager.cache m)
  /\ CacheManager.stats m'
     = CacheManager.mk_stats
         (CacheManager.hits (CacheManager.stats m))
         (CacheManager.misses (CacheManager.stats m))
         (CacheManager.sets (CacheManager.stats m))
         (CacheManager.evictions (CacheManager.stats m)
          + 2 * Z.of_nat (length removed)).
Proof.
  intros Hnd m' removed. unfold m', CacheManager.optimize.
  rewrite candidates_swept.
  destruct (optimize_fold
    (List.map LRUCache.i_key
       (List.filter (swept now) (LRUCache.items (CacheManager.cache m)))) m)
    as (Hi & Hm & Ht & Hs).
  - clear -Hnd. induction (LRUCache.items (CacheManager.cache m)) as [|it l IH];
      [constructor|].
    cbn in Hnd. apply NoDup_cons in Hnd as [Hx Hnd]. cbn [List.filter].
    destruct (swept now it); [|by apply IH].
    cbn [List.map]. apply NoDup_cons. split; [|by apply IH].
    intros Hin%list_elem_of_In. apply Hx, list_elem_of_In.
    apply in_map_iff in Hin as (it' & Hk & Hin'). apply filter_In in Hin' as [Hin' _].
    rewrite <- Hk. by apply in_map.
  - intros k (it & <- & Hin)%in_map_iff. apply filter_In in Hin as [Hin _].
    by apply in_map.
  - rewrite Hi, Hm, Ht, Hs, remove_all_filter, swept_keys by done.
    repeat split. unfold removed. by rewrite length_map.
Qed.


(** *** Capacity *)

Lemma find_None_notin k c :
  ~ In k (List.map LRUCache.i_key (LRUCache.items c)) ->
  LRUCache.find k c = None.
Proof.
  unfold LRUCache.find.
  induction (LRUCache.items c) as [|it l IH]; cbn [List.map In List.find];
    [done|].
  intros Hn. unfold LRUCache.has_key at 1.
  rewrite bool_decide_eq_false_2 by tauto. apply IH. tauto.
Qed.

(** A new key set into a cache that is not full: nothing is disposed. *)
Lemma set_new_room now k (v : V) t p m :
  ~ In k (List.map LRUCache.i_key (LRUCache.items (CacheManager.cache m))) ->
  length (LRUCache.items (CacheManager.cache m))
  <> LRUCache.max (CacheManager.cache m) ->
  let m' := CacheManager.set now k v t p m in
  List.map LRUCache.i_key (LRUCache.items (CacheManager.cache m'))
  = k :: List.map LRUCache.i_key (LRUCache.items (CacheManager.cache m))
  /\ LRUCache.max (CacheManager.cache m') = LRUCache.max (CacheManager.cache m)
  /\ CacheManager.evictions (CacheManager.stats m')
     = CacheManager.evictions (CacheManager.stats m).
Proof.
  intros Hk Hroom. cbn zeta. unfold CacheManager.set, LRUCache.set.
  rewrite (find_None_notin k _ Hk).
  destruct (rev (LRUCache.items (CacheManager.cache m))) as [|lru others] eqn:Hr.
  - apply (f_equal (@rev _)) in Hr. rewrite rev_involutive in Hr.
    cbn in Hr. rewrite Hr. cbn. done.
  - unfold LRUCache.size.
    destruct (Nat.eqb_spec (length (LRUCache.items (CacheManager.cache m)))
                (LRUCache.max (CacheManager.cache m))); [done|].
    cbn. done.
Qed.

(** A new key set into a full cache: the least recently used item, the
    last of the list, is evicted and counted once. *)
Lemma set_new_full now k (v : V) t p m front lru :
  ~ In k (List.map LRUCache.i_key (LRUCache.items (CacheManager.cache m))) ->
  LRUCache.items (CacheManager.cache m) = front ++ [lru] ->
  length (LRUCache.items (CacheManager.cache m))
  = LRUCache.max (CacheManager.cache m) ->
  let m' := CacheManager.set now k v t p m in
  List.map LRUCache.i_key (LRUCache.items (CacheManager.cache m'))
  = k :: List.map LRUCache.i_key front
  /\ CacheManager.evictions (CacheManager.stats m')
     = CacheManager.evictions (CacheManager.stats m) + 1.
Proof.
  intros Hk Hitems Hfull. cbn zeta. unfold CacheManager.set, LRUCache.set.
  rewrite (find_None_notin k _ Hk). unfold LRUCache.size.
  rewrite Hfull, Nat.eqb_refl, Hitems, rev_app_distr. cbn [rev app].
  rewrite rev_involutive. cbn. split; [done|lia].
Qed.

Lemma fill_cache (ins : list (Z * jsstring * V * option Z * Priority)) :
  forall m,
  NoDup (List.map (fun x => x.1.1.1.2) ins
         ++ List.map LRUCache.i_key (LRUCache.items (CacheManager.cache m))) ->
  (length (LRUCache.items (CacheManager.cache m)) + length ins
   <= LRUCache.max (CacheManager.cache m))%nat ->
  let m' :=
    fold_left (fun m x => CacheManager.set x.1.1.1.1 x.1.1.1.2 x.1.1.2 x.1.2 x.2 m)
      ins m in
  List.map LRUCache.i_key (LRUCache.items (CacheManager.cache m'))
  = rev (List.map (fun x => x.1.1.1.2) ins)
    ++ List.map LRUCache.i_key (LRUCache.items (CacheManager.cache m))
  /\ LRUCache.max (CacheManager.cache m') = LRUCache.max (CacheManager.cache m)
  /\ CacheManager.evictions (CacheManager.stats m')
     = CacheManager.evictions (CacheManager.stats m).
Proof.
  induction ins as [|[[[[now k] v] t] p] ins IH]; intros m Hnd Hlen.
  - cbn. done.
  - cbn [List.map app fst snd] in Hnd. apply NoDup_cons in Hnd as [Hk Hnd].
    cbn [length] in Hlen.
    destruct (set_new_room now k v t p m) as (Hkeys & Hmax & Hev).
    { intros Hin. apply Hk, elem_of_app. right. by apply list_elem_of_In. }
    { lia. }
    cbn [fold_left fst snd].
    destruct (IH (CacheManager.set now k v t p m)) as (Hkeys' & Hmax' & Hev').
    { rewrite Hkeys. apply NoDup_app in Hnd as (Hn1 & Hn2 & Hn3).
      apply NoDup_app. split; [done|]. split.
      - intros x Hx [->|Hx']%elem_of_cons.
        + apply Hk, elem_of_app. by left.
        + by apply (Hn2 x).
      - apply NoDup_cons. split; [|done].
        intros Hin. apply Hk, elem_of_app. by right. }
    { rewrite Hmax. apply (f_equal (@length _)) in Hkeys.
      rewrite !length_map in Hkeys. cbn [length] in Hkeys.
      rewrite length_map in Hkeys. lia. }
    rewrite Hkeys', Hmax', Hev', Hkeys, Hmax, Hev.
    cbn [List.map rev fst snd]. rewrite <- app_assoc. done.
Qed.

(** The capacity part of C5: [n + 1] distinct keys set into an empty
    cache of capacity [n >= 1], with no read in between, evict exactly
    the key set first, and [evictions] is 1. *)
Lemma capacity_invariant (n : nat) (maxAge : Z)
    (first : Z * jsstring * V * option Z * Priority)
    (rest : list (Z * jsstring * V * option Z * Priority)) :
  (1 <= n)%nat -> length rest = n ->
  NoDup (List.map (fun x => x.1.1.1.2) (first :: rest)) ->
  let m' :=
    fold_left (fun m x => CacheManager.set x.1.1.1.1 x.1.1.1.2 x.1.1.2 x.1.2 x.2 m)
      (first :: rest) (CacheManager.create n maxAge) in
  List.map LRUCache.i_key (LRUCache.items (CacheManager.cache m'))
  = rev (List.map (fun x => x.1.1.1.2) rest)
  /\ CacheManager.evictions (CacheManager.stats m') = 1.
Proof.
  intros Hn Hlen Hnd.
  destruct (rev rest) as [|lst tser] eqn:Hrev.
  { apply (f_equal (@length _)) in Hrev. rewrite length_rev in Hrev.
    cbn in Hrev. lia. }
  apply (f_equal (@rev _)) in Hrev. rewrite rev_involutive in Hrev.
  cbn [rev] in Hrev. set (init := rev tser) in *. subst rest.
  change (first :: init ++ [lst]) with (([first] ++ init) ++ [lst]) in *.
  cbn zeta. rewrite fold_left_app.
  rewrite map_app in Hnd. apply NoDup_app in Hnd as (Hnd1 & Hnd2 & _).
  assert (Hli : length ([first] ++ init) = n).
  { rewrite <- Hlen, !length_app. cbn. lia. }
  destruct (fill_cache ([first] ++ init) (CacheManager.create n maxAge))
    as (Hkeys & Hmax & Hev).
  { cbn [CacheManager.create CacheManager.cache LRUCache.create LRUCache.items
         List.map]. by rewrite app_nil_r. }
  { cbn [CacheManager.create CacheManager.cache LRUCache.create LRUCache.items
         LRUCache.max length]. lia. }
  cbn [CacheManager.create CacheManager.cache LRUCache.create LRUCache.items
       LRUCache.max CacheManager.stats CacheManager.evictions List.map]
    in Hkeys, Hmax, Hev.
  rewrite app_nil_r in Hkeys.
  set (m1 := fold_left _ ([first] ++ init) _) in *.
  destruct lst as [[[[now k] v] t] p]. cbn [fold_left fst snd].
  assert (Hitems : exists front lru,
    LRUCache.items (CacheManager.cache m1) = front ++ [lru]
    /\ List.map LRUCache.i_key front = rev (List.map (fun x => x.1.1.1.2) init)).
  { rewrite map_app, rev_app_distr in Hkeys. cbn [List.map rev app] in Hkeys.
    destruct (rev (LRUCache.items (CacheManager.cache m1))) as [|lru tnorf] eqn:Hr.
    - apply (f_equal (@rev _)) in Hr. rewrite rev_involutive in Hr.
      rewrite Hr in Hkeys. cbn in Hkeys.
      apply (f_equal (@length _)) in Hkeys. rewrite length_app in Hkeys.
      cbn in Hkeys. lia.
    - apply (f_equal (@rev _)) in Hr. rewrite rev_involutive in Hr.
      cbn [rev] in Hr. exists (rev tnorf), lru. split; [done|].
      rewrite Hr, map_app in Hkeys. cbn [List.map] in Hkeys.
      by apply app_inj_tail in Hkeys as [Hk _]. }
  destruct Hitems as (front & lru & Hitems & Hfront).
  destruct (set_new_full now k v t p m1 front lru) as (Hk' & Hev').
  { rewrite Hkeys. intros Hin%in_rev%list_elem_of_In.
    apply (Hnd2 k Hin). cbn. apply elem_of_cons. by left. }
  { done. }
  { apply (f_equal (@length _)) in Hkeys.
    rewrite length_map, length_rev, length_map in Hkeys. lia. }
  rewrite Hk', Hev', Hev, Hfront.
  split; [|reflexivity].
  rewrite map_app, rev_app_distr. reflexivity.
Qed.


(** A [get] of an entry whose time to live is over: the entry is removed
    through [delete], a miss is counted, and [evictions] rises by one. *)
Lemma get_expired now k m it :
  LRUCache.find k (CacheManager.cache m) = Some it ->
  LRUCache.isStale now it = true ->
  CacheManager.get now k m
  = (None,
     CacheManager.mk
       (LRUCache.mk (LRUCache.max (CacheManager.cache m))
          (LRUCache.ttl (CacheManager.cache m))
          (LRUCache.remove k (LRUCache.items (CacheManager.cache m))))
       (CacheManager.mk_stats
          (CacheManager.hits (CacheManager.stats m))
          (CacheManager.misses (CacheManager.stats m) + 1)
          (CacheManager.sets (CacheManager.stats m))
          (CacheManager.evictions (CacheManager.stats m) + 1))).
Proof.
  intros Hf Hs. unfold CacheManager.get, LRUCache.get, LRUCache.delete.
  rewrite Hf, Hs. by rewrite disposed_evictions.
Qed.

(** C6, as amended. [optimize] removes exactly the unexpired entries
    whose priority is LOW, whose access count is below 2 and whose age
    exceeds half their time to live, and leaves every other entry, the
    order of the entries and the other statistics as they were; every
    removal is counted in [evictions]. *)
Theorem optimize_sweep now m :
  NoDup (List.map LRUCache.i_key (LRUCache.items (CacheManager.cache m))) ->
  LRUCache.items (CacheManager.cache (CacheManager.optimize now m))
  = List.filter (fun it => negb (CacheManager.swept now it))
      (LRUCache.items (CacheManager.cache m))
  /\ CacheManager.hits (CacheManager.stats (CacheManager.optimize now m))
     = CacheManager.hits (CacheManager.stats m)
  /\ CacheManager.misses (CacheManager.stats (CacheManager.optimize now m))
     = CacheManager.misses (CacheManager.stats m)
  /\ CacheManager.sets (CacheManager.stats (CacheManager.optimize now m))
     = CacheManager.sets (CacheManager.stats m)
  /\ CacheManager.evictions (CacheManager.stats m)
     + Z.of_nat (length (List.filter (CacheManager.swept now)
                           (LRUCache.items (CacheManager.cache m))))
     <= CacheManager.evictions (CacheManager.stats (CacheManager.optimize now m)).
Proof.
  intros Hnd. destruct (optimize_exact now m Hnd) as (Hi & _ & _ & Hs).
  rewrite Hi, Hs. cbn. repeat split. lia.
Qed.

End CacheProperties.

(** C6, as the specification states it, fails: one LOW entry set at time
    1000 with the default time to live and never read is removed by
    [optimize] at time 200000, and [evictions] goes from 0 to 2. *)
Lemma optimize_counts_evictions :
  CacheManager.evictions
    (CacheManager.stats
       (CacheManager.set 1000 (str "k") VNull None LOW
          (CacheManager.create 1000 300000))) = 0
  /\ CacheManager.size
       (CacheManager.optimize 200000
          (CacheManager.set 1000 (str "k") VNull None LOW
             (CacheManager.create 1000 300000))) = 0%nat
  /\ CacheManager.evictions
       (CacheManager.stats
          (CacheManager.optimize 200000
             (CacheManager.set 1000 (str "k") VNull None LOW
                (CacheManager.create 1000 300000)))) = 2.
Proof. repeat split; vm_compute; reflexivity. Qed.

(** An expired entry is not visited by [optimize]: it stays in the
    cache although it passes the filter. *)
Lemma optimize_skips_expired :
  CacheManager.size
    (CacheManager.optimize 400000
       (CacheManager.set 1000 (str "k") VNull None LOW
          (CacheManager.create 1000 300000))) = 1%nat.
Proof. vm_compute. reflexivity. Qed.

(** C6, as amended, at the sample cache at time 200000: the LOW entry
    goes, the HIGH entry stays. *)
Lemma optimize_sweep_witness :
  List.map LRUCache.i_key
    (LRUCache.items
       (CacheManager.cache (CacheManager.optimize 200000 Sample.two_entries)))
  = [str "b"]
  /\ 1 <= CacheManager.evictions
            (CacheManager.stats
               (CacheManager.optimize 200000 Sample.two_entries)).
Proof.
  assert (Hnd : NoDup (List.map LRUCache.i_key
                         (LRUCache.items
                            (CacheManager.cache Sample.two_entries)))).
  { apply (bool_decide_unpack _). vm_compute. exact I. }
  destruct (optimize_sweep 200000 Sample.two_entries Hnd)
    as (Hitems & _ & _ & _ & Hev).
  split.
  - rewrite Hitems. vm_compute. reflexivity.
  - etransitivity; [|exact Hev]. vm_compute. discriminate.
Defined.

(** ** The token optimizer *)

Section OptimizerProperties.

Variable unicode_toLowerCase : jsstring -> jsstring.
Variable deflateSync : Buffer -> result Buffer.
Variable inflateSync : Buffer -> result Buffer.
Variable base64_encode : Buffer -> jsstring.
Variable base64_decode : jsstring -> Buffer.

#[local] Abbreviation compress :=
  (TokenOptimizer.compress unicode_toLowerCase deflateSync base64_encode).
#[local] Abbreviation decompress :=
  (TokenOptimizer.decompress inflateSync base64_decode).
#[local] Abbreviation compressKey :=
  (TokenOptimizer.compressKey unicode_toLowerCase).
#[local] Abbreviation preserved :=
  (TokenOptimizer.preserved unicode_toLowerCase).

(** Keys set one after the other into an object, all distinct, come out
    in the order they went in. *)
Lemma fold_obj_set (f : jsstring -> jsstring) (l : list (jsstring * value)) :
  forall acc,
  NoDup (List.map fst acc ++ List.map (fun kv => f kv.1) l) ->
  fold_left (fun o kv => obj_set (f kv.1) kv.2 o) l acc
  = acc ++ List.map (fun kv => (f kv.1, kv.2)) l.
Proof.
  induction l as [|[k x] l IH]; intros acc Hnd.
  - cbn. by rewrite app_nil_r.
  - cbn [fold_left List.map fst snd] in *. unfold obj_set at 2.
    apply NoDup_app in Hnd as (Hn1 & Hn2 & Hn3).
    apply NoDup_cons in Hn3 as [Hk Hn3].
    rewrite alist_set_fresh.
    2:{ intros Hin. apply (Hn2 _ Hin). apply elem_of_cons. by left. }
    rewrite IH.
    + by rewrite <- app_assoc.
    + rewrite map_app. cbn [List.map fst]. rewrite <- app_assoc. cbn [app].
      apply NoDup_app. split; [done|]. split.
      * intros y Hy [->|Hy']%elem_of_cons.
        -- apply (Hn2 _ Hy). apply elem_of_cons. by left.
        -- apply (Hn2 _ Hy). apply elem_of_cons. by right.
      * by apply NoDup_cons.
Qed.


(** Every array comes back as a plain object. *)
Lemma decompress_compress_array items :
  decompress (compress (VArray items)) <> VArray items.
Proof. cbn [TokenOptimizer.compress TokenOptimizer.decompress]. discriminate. Qed.

End OptimizerProperties.



(** ** The delivery pipeline *)

Section PipelineProperties.

Variable unicode_toLowerCase : jsstring -> jsstring.
Variable deflateSync : Buffer -> result Buffer.
Variable base64_encode : Buffer -> jsstring.
Variable now : Z.

#[local] Abbreviation sendMessage :=
  (AIProcessingLayer.sendMessage unicode_toLowerCase deflateSync base64_encode
     now).
#[local] Abbreviation sendMessage_try :=
  (AIProcessingLayer.sendMessage_try unicode_toLowerCase deflateSync
     base64_encode now).

(** C7. Unregistered-peer atomicity: when the sender or the receiver of
    a message is not registered, [sendMessage] returns [false] and
    leaves the whole state as it was: the registry with every peer's
    memory, the cache and its statistics. *)
Theorem unregistered_peer_no_effect (message : AIMessage.t)
    (w : AIProcessingLayer.t) :
  AIProcessingLayer.agents w !! AIMessage.senderId message = None
  \/ AIProcessingLayer.agents w !! AIMessage.receiverId message = None ->
  sendMessage message w = (Ok false, w).
Proof.
  intros Hun.
  unfold AIProcessingLayer.sendMessage, AIProcessingLayer.try_catch,
    AIProcessingLayer.sendMessage_try, AIProcessingLayer.bindE,
    AIProcessingLayer.read.
  assert (bool_decide (is_Some (AIProcessingLayer.agents w
                                  !! AIMessage.senderId message))
          && bool_decide (is_Some (AIProcessingLayer.agents w
                                     !! AIMessage.receiverId message))
          = false) as ->.
  { apply andb_false_iff.
    destruct Hun as [H|H]; [left|right]; apply bool_decide_eq_false_2;
      rewrite H; by intros [x Hx]. }
  reflexivity.
Qed.

(** C8. Fault absorption: [sendMessage] always returns a boolean; a
    fault thrown by any phase of the [try] block becomes the return
    value [false], and a value returned by the block is returned as it
    is. *)
Theorem sendMessage_absorbs_faults (message : AIMessage.t)
    (w : AIProcessingLayer.t) :
  (exists b w', sendMessage message w = (Ok b, w'))
  /\ (forall e w', sendMessage_try message w = (Throw e, w') ->
        sendMessage message w = (Ok false, w'))
  /\ (forall b w', sendMessage_try message w = (Ok b, w') ->
        sendMessage message w = (Ok b, w')).
Proof.
  unfold AIProcessingLayer.sendMessage, AIProcessingLayer.try_catch.
  destruct (sendMessage_try message w) as [[b|e] w'] eqn:Htry.
  - split; [by exists b, w'|]. split; intros ? ? [= <- <-]; reflexivity.
  - split; [by exists false, w'|]. split; intros ? ? [= <- <-]; reflexivity.
Qed.

End PipelineProperties.

(** C7 at the sample layer and a message to the unregistered peer C. *)
Lemma unregistered_peer_no_effect_witness :
  AIProcessingLayer.sendMessage Sample.toLowerCase Sample.deflateSync
    Sample.base64_encode 1000 Sample.to_stranger Sample.layer
  = (Ok false, Sample.layer).
Proof.
  apply (unregistered_peer_no_effect Sample.toLowerCase Sample.deflateSync
           Sample.base64_encode 1000 Sample.to_stranger Sample.layer).
  right. vm_compute. reflexivity.
Defined.

(** C8 at a message whose content makes the codec throw in phase 2: the
    fault is absorbed and [sendMessage] returns [false]. *)
Lemma sendMessage_absorbs_faults_witness :
  AIProcessingLayer.sendMessage Sample.toLowerCase Sample.deflateSync
    Sample.base64_encode 1000 Sample.unencodable Sample.layer
  = (Ok false, Sample.layer).
Proof.
  apply (proj1 (proj2 (sendMessage_absorbs_faults Sample.toLowerCase
                         Sample.deflateSync Sample.base64_encode 1000
                         Sample.unencodable Sample.layer)) OutOfRange).
  vm_compute. reflexivity.
Defined.

(** * Further properties *)

(** ** The wire format of the A114 codec *)

Section WireFormat.

Variable js_ToString : value -> jsstring.

Import A114Protocol.

#[local] Abbreviation decodeValue := (A114Protocol.decodeValue js_ToString).
#[local] Abbreviation decodePayload :=
  (A114Protocol.decodePayload js_ToString).
#[local] Abbreviation decode := (A114Protocol.decode js_ToString).
#[local] Abbreviation parseCommand := (A114Protocol.parseCommand js_ToString).

#[local] Arguments be_bytes : simpl never.

(** *** What [encode] writes *)

Lemma encodeItems_size items :
  Forall (fun v => forall enc, encodeValue v = Ok enc ->
                   Z.of_nat (length enc) = encoded_size v) items ->
  forall body, encodeItems encodeValue items = Ok body ->
  Z.of_nat (length body) = fold_right (fun x n => encoded_size x + n) 0 items.
Proof.
  induction 1 as [|v items Hv _ IH]; intros body; cbn [encodeItems fold_right].
  - by intros [= <-].
  - intros (a & Ha & (b & Hb & [= <-])%bind_inv)%bind_inv.
    rewrite length_app, Nat2Z.inj_add, (Hv a Ha), (IH b Hb). reflexivity.
Qed.

Lemma encodePairs_size props :
  Forall (fun kv => forall enc, encodeValue kv.2 = Ok enc ->
                    Z.of_nat (length enc) = encoded_size kv.2) props ->
  forall body, encodePairs encodeValue props = Ok body ->
  Z.of_nat (length body)
  = fold_right
      (fun kv n =>
         let '(k, x) := kv in
         5 + Z.of_nat (length (utf8_encode k)) + encoded_size x + n) 0 props.
Proof.
  induction 1 as [|[k v] props Hv _ IH]; intros body;
    cbn [encodePairs fold_right].
  - by intros [= <-].
  - intros (ek & Hek & (a & Ha & (b & Hb & [= <-])%bind_inv)%bind_inv)%bind_inv.
    apply encodeString_inv in Hek as [_ ->]. cbn [snd] in Hv.
    rewrite !length_app, !Nat2Z.inj_add, (Hv a Ha), (IH b Hb).
    cbn [length]. rewrite length_app, length_be_bytes. lia.
Qed.

(** The number of bytes written for a value is [encoded_size] of it. *)
Lemma encodeValue_size v :
  forall enc, encodeValue v = Ok enc -> Z.of_nat (length enc) = encoded_size v.
Proof.
  induction v as [| |b|z|bits|s|items IH|props IH] using value_nested_ind;
    intros enc; cbn [encodeValue encoded_size].
  - by intros [= <-].
  - by intros [= <-].
  - by intros [= <-].
  - unfold writeInt8, writeInt16BE, writeInt32BE.
    destruct (in_range (-128) 127 z); [by intros [= <-]|].
    destruct (in_range (-32768) 32767 z); [by intros [= <-]|].
    destruct (in_range _ _ z); [by intros [= <-]|discriminate].
  - intros [= <-]. cbn [length]. unfold writeDoubleBE.
    rewrite length_be_bytes. lia.
  - intros [_ ->]%encodeString_inv. cbn [length].
    rewrite length_app, length_be_bytes. lia.
  - intros (l & Hl & (body & Hb & [= <-])%bind_inv)%bind_inv.
    apply writeUInt32BE_inv in Hl as [_ ->].
    cbn [length]. rewrite length_app, length_be_bytes.
    rewrite Nat2Z.inj_succ, Nat2Z.inj_add, (encodeItems_size items IH body Hb).
    lia.
  - intros (l & Hl & (body & Hb & [= <-])%bind_inv)%bind_inv.
    apply writeUInt32BE_inv in Hl as [_ ->].
    cbn [length]. rewrite length_app, length_be_bytes.
    rewrite Nat2Z.inj_succ, Nat2Z.inj_add, (encodePairs_size props IH body Hb).
    lia.
Qed.

Lemma encode_inv v packet :
  encode v = Ok packet ->
  exists payload,
    encodeValue v = Ok payload
    /\ Z.of_nat (length payload) <= 4294967295
    /\ packet = [0xA1; 0x14; 1; 0] ++ be_bytes 4 (Z.of_nat (length payload))
                ++ payload.
Proof.
  unfold encode, encodePayload.
  intros (payload & Hp & (header & Hh & [= <-])%bind_inv)%bind_inv.
  apply createHeader_inv in Hh as [Hr ->].
  exists payload. split; [done|]. split; [lia|]. by rewrite <- app_assoc.
Qed.

(** X1. The layout of a packet: the magic bytes A1 14, the version 1, a zero
    flags byte, the number of payload bytes as a big-endian 32-bit
    integer, and then the payload, whose size [encoded_size] gives. *)
Theorem encode_packet_layout v packet :
  encode v = Ok packet ->
  exists payload,
    encodePayload v = Ok payload
    /\ packet = [0xA1; 0x14; 1; 0] ++ be_bytes 4 (encoded_size v) ++ payload
    /\ Z.of_nat (length payload) = encoded_size v
    /\ Z.of_nat (length packet) = 8 + encoded_size v
    /\ encoded_size v <= 4294967295.
Proof.
  intros (payload & Hp & Hlen & ->)%encode_inv.
  pose proof (encodeValue_size v payload Hp) as Hsize.
  exists payload. rewrite <- Hsize. repeat split; try done.
  rewrite !length_app, length_be_bytes. cbn [length]. lia.
Qed.

(** *** When [encode] succeeds *)

Lemma encodeValue_ints v :
  forall enc, encodeValue v = Ok enc -> ints_in_range v = true.
Proof.
  induction v as [| |b|z|bits|s|items IH|props IH] using value_nested_ind;
    intros enc; cbn [encodeValue ints_in_range]; try done.
  - unfold writeInt8, writeInt16BE, writeInt32BE.
    destruct (in_range (-128) 127 z) eqn:E8.
    { intros _. apply in_range_true in E8. apply in_range_true. lia. }
    destruct (in_range (-32768) 32767 z) eqn:E16.
    { intros _. apply in_range_true in E16. apply in_range_true. lia. }
    destruct (in_range (-2147483648) 2147483647 z); [done|discriminate].
  - intros (l & _ & (body & Hb & _)%bind_inv)%bind_inv. revert body Hb.
    induction IH as [|x items Hx _ IHl]; intros body; cbn [encodeItems forallb];
      [done|].
    intros (a & Ha & (b & Hb & _)%bind_inv)%bind_inv.
    by rewrite (Hx a Ha), (IHl b Hb).
  - intros (l & _ & (body & Hb & _)%bind_inv)%bind_inv. revert body Hb.
    induction IH as [|[k x] props Hx _ IHl]; intros body;
      cbn [encodePairs forallb]; [done|].
    intros (ek & _ & (a & Ha & (b & Hb & _)%bind_inv)%bind_inv)%bind_inv.
    cbn [snd] in *. by rewrite (Hx a Ha), (IHl b Hb).
Qed.

Lemma encoded_sizes_nonneg items :
  0 <= fold_right (fun x n => encoded_size x + n) 0 items.
Proof.
  induction items as [|y l IHy]; cbn; [lia|].
  pose proof (encoded_size_pos y). lia.
Qed.

Lemma encoded_pairs_nonneg (props : list (jsstring * value)) :
  0 <= fold_right
         (fun kv n =>
            let '(k, x) := kv in
            5 + Z.of_nat (length (utf8_encode k)) + encoded_size x + n) 0 props.
Proof.
  induction props as [|[k y] l IHy]; cbn; [lia|].
  pose proof (encoded_size_pos y). lia.
Qed.

Lemma encodeValue_fits v :
  ints_in_range v = true -> encoded_size v <= 4294967295 ->
  exists enc, encodeValue v = Ok enc.
Proof.
  induction v as [| |b|z|bits|s|items IH|props IH] using value_nested_ind;
    intros Hints Hsize; cbn [encodeValue encoded_size ints_in_range] in *.
  - by eexists.
  - by eexists.
  - by eexists.
  - unfold writeInt8, writeInt16BE, writeInt32BE.
    destruct (in_range (-128) 127 z); [by eexists|].
    destruct (in_range (-32768) 32767 z); [by eexists|].
    rewrite Hints. by eexists.
  - by eexists.
  - destruct (encodeString_total s ltac:(lia)) as (enc & -> & _). by eexists.
  - assert (Hitems : exists body, encodeItems encodeValue items = Ok body
              /\ Z.of_nat (length items) <= Z.of_nat (length body)).
    { revert Hints Hsize.
      induction IH as [|x items Hx _ IHl]; cbn [forallb fold_right encodeItems];
        intros Hints Hsize.
      - exists []. by cbn.
      - apply andb_true_iff in Hints as [Hix Hil].
        pose proof (encoded_size_pos x) as Hpx.
        pose proof (encoded_sizes_nonneg items) as Hnn.
        destruct (Hx Hix ltac:(lia)) as (a & Ha).
        destruct (IHl Hil ltac:(lia)) as (b & Hb & Hb').
        pose proof (encodeValue_length _ _ Ha) as Hla.
        rewrite Ha, Hb, !bind_Ok. eexists; split; [reflexivity|].
        rewrite length_app. cbn [length]. lia. }
    destruct Hitems as (body & Hbody & Hcount).
    pose proof (encodeItems_size items
      (Forall_impl _ _ _ (Forall_true _ _ (fun v => I))
         (fun v _ => encodeValue_size v)) body Hbody) as Hlen.
    unfold writeUInt32BE. rewrite (proj2 (in_range_true _ _ _)) by lia.
    rewrite Hbody, !bind_Ok. by eexists.
  - assert (Hprops : exists body, encodePairs encodeValue props = Ok body
              /\ Z.of_nat (length props) <= Z.of_nat (length body)).
    { revert Hints Hsize.
      induction IH as [|[k x] props Hx _ IHl];
        cbn [forallb fold_right encodePairs]; intros Hints Hsize.
      - exists []. by cbn.
      - apply andb_true_iff in Hints as [Hix Hil]. cbn [snd] in *.
        pose proof (encoded_size_pos x) as Hpx.
        pose proof (encoded_pairs_nonneg props) as Hnn.
        destruct (encodeString_total k ltac:(lia)) as (ek & Hek & Hlk).
        destruct (Hx Hix ltac:(lia)) as (a & Ha).
        destruct (IHl Hil ltac:(lia)) as (b & Hb & Hb').
        rewrite Hek, Ha, Hb, !bind_Ok. eexists; split; [reflexivity|].
        rewrite !length_app. cbn [length]. lia. }
    destruct Hprops as (body & Hbody & Hcount).
    pose proof (encodePairs_size props
      (Forall_impl _ _ _ (Forall_true _ _ (fun v => I))
         (fun v _ => encodeValue_size v.2)) body Hbody) as Hlen.
    unfold writeUInt32BE. rewrite (proj2 (in_range_true _ _ _)) by lia.
    rewrite Hbody, !bind_Ok. by eexists.
Qed.

Lemma writeUInt32BE_throw x e : writeUInt32BE x = Throw e -> e = OutOfRange.
Proof. unfold writeUInt32BE. case_match; [done | by intros [= <-]]. Qed.

Lemma encodeString_throw s e : encodeString s = Throw e -> e = OutOfRange.
Proof.
  unfold encodeString.
  intros [H|(? & _ & [=])]%bind_throw. by apply writeUInt32BE_throw in H.
Qed.

Lemma encodeValue_throw v :
  forall e, encodeValue v = Throw e -> e = OutOfRange.
Proof.
  induction v as [| |b|z|bits|s|items IH|props IH] using value_nested_ind;
    intros e; cbn [encodeValue]; try done.
  - unfold writeInt8, writeInt16BE, writeInt32BE.
    repeat case_match; try done. by intros [= <-].
  - apply encodeString_throw.
  - intros [H|(l & _ & [H|(? & _ & [=])]%bind_throw)]%bind_throw;
      [by apply writeUInt32BE_throw in H|].
    revert H. induction IH as [|x items Hx _ IHl]; cbn [encodeItems]; [done|].
    intros [H|(a & _ & [H|(? & _ & [=])]%bind_throw)]%bind_throw;
      [by apply Hx | by apply IHl].
  - intros [H|(l & _ & [H|(? & _ & [=])]%bind_throw)]%bind_throw;
      [by apply writeUInt32BE_throw in H|].
    revert H. induction IH as [|[k x] props Hx _ IHl]; cbn [encodePairs];
      [done|].
    intros [H|(ek & _ & [H|(a & _ & [H|(? & _ & [=])]%bind_throw)]%bind_throw)]
      %bind_throw;
      [by apply encodeString_throw in H | by apply Hx | by apply IHl].
Qed.

(** X2. [encode] returns a packet exactly for the values whose integers all
    lie in the signed 32-bit range and whose payload fits the length field
    of the header; every fault it raises is the RangeError of a Buffer
    write. *)
Theorem encode_succeeds_iff v :
  ((exists packet, encode v = Ok packet)
   <-> ints_in_range v = true /\ encoded_size v <= 4294967295)
  /\ (forall e, encode v = Throw e -> e = OutOfRange).
Proof.
  split; [split|].
  - intros [packet (payload & Hp & Hlen & _)%encode_inv].
    rewrite <- (encodeValue_size v payload Hp).
    split; [by apply (encodeValue_ints v payload) | done].
  - intros [Hints Hsize].
    destruct (encodeValue_fits v Hints Hsize) as [payload Hp].
    pose proof (encodeValue_size v payload Hp) as Hlen.
    unfold encode, encodePayload, createHeader, writeUInt32BE.
    rewrite Hp, bind_Ok, (proj2 (in_range_true _ _ _)) by lia.
    by eexists.
  - intros e. unfold encode, encodePayload.
    intros [H|(payload & _ & [H|(? & _ & [=])]%bind_throw)]%bind_throw.
    + by apply encodeValue_throw in H.
    + unfold createHeader in H.
      apply bind_throw in H as [H|(? & _ & [=])].
      by apply writeUInt32BE_throw in H.
Qed.

(** *** What [decode] accepts *)

Lemma decode_framed flags l1 l2 l3 l4 (payload : Buffer) :
  decode (0xA1 :: 0x14 :: 1 :: flags :: l1 :: l2 :: l3 :: l4 :: payload)
  = if negb (Z.of_nat (length payload) =? be_value [l1; l2; l3; l4])
    then Throw LengthMismatch
    else decodePayload payload.
Proof.
  unfold A114Protocol.decode, parseHeader.
  change (length _ <? HEADER_SIZE)%nat with false. cbn [take drop HEADER_SIZE].
  erewrite readUInt8_at, bind_Ok by reflexivity.
  erewrite readUInt8_at, bind_Ok by reflexivity.
  cbn [negb orb Z.eqb Pos.eqb].
  erewrite readUInt8_at, bind_Ok by reflexivity.
  cbn [negb Z.eqb Pos.eqb VERSION].
  erewrite readUInt8_at, bind_Ok by reflexivity.
  unfold readUInt32BE.
  erewrite (read_bytes_at 4 _ 4 [l1; l2; l3; l4] []) by reflexivity.
  reflexivity.
Qed.

Lemma be_bytes_4 x :
  be_bytes 4 x
  = [(x / 256 ^ 3) mod 256; (x / 256 ^ 2) mod 256; (x / 256 ^ 1) mod 256;
     (x / 256 ^ 0) mod 256].
Proof. reflexivity. Qed.

Lemma decode_framed_len flags (payload : Buffer) :
  Z.of_nat (length payload) <= 4294967295 ->
  decode ([0xA1; 0x14; 1; flags] ++ be_bytes 4 (Z.of_nat (length payload))
          ++ payload)
  = decodePayload payload.
Proof.
  intros Hlen. rewrite be_bytes_4. cbn [app]. rewrite decode_framed.
  rewrite <- be_bytes_4, be_value_4, Z.mod_small, Z.eqb_refl by lia.
  reflexivity.
Qed.

(** X3. [decode] reads the flags byte of the header and never looks at it: a
    packet decodes the same whatever that byte is. *)
Theorem decode_ignores_flags flags (rest : Buffer) :
  decode (0xA1 :: 0x14 :: 1 :: flags :: rest)
  = decode (0xA1 :: 0x14 :: 1 :: 0 :: rest).
Proof.
  destruct rest as [|l1 [|l2 [|l3 [|l4 payload]]]]; [reflexivity..|].
  by rewrite !decode_framed.
Qed.


(** X5. A first byte that is none of the nine tags [decodeValue] handles is
    rejected as an unknown data type; this includes the tags FLOAT32 and
    BINARY, which [DATA_TYPES] declares and no case reads. *)
Theorem decode_unknown_tag tag (rest : Buffer) :
  ~ In tag [DT_NULL; DT_BOOL; DT_INT8; DT_INT16; DT_INT32; DT_FLOAT64;
            DT_STRING; DT_ARRAY; DT_OBJECT] ->
  format_error (decodePayload (tag :: rest)) (UnknownDataType tag).
Proof.
  intros Hno. split; [|reflexivity].
  unfold A114Protocol.decodePayload. cbn [A114Protocol.decodeValue].
  erewrite readUInt8_at, bind_Ok by reflexivity.
  cbn [In] in Hno.
  repeat match goal with
  | |- context [tag =? ?t] =>
      rewrite (proj2 (Z.eqb_neq tag t)) by (intros ->; tauto)
  end.
  reflexivity.
Qed.

(** X6. A string whose declared length reaches past the end of the buffer is
    not rejected: the bytes that are there are decoded. *)
Theorem decode_string_clamped n (bs : Buffer) :
  Z.of_nat (length bs) <= n <= 4294967295 ->
  decodePayload (DT_STRING :: be_bytes 4 n ++ bs)
  = Ok (VString (utf8_decode bs)).
Proof.
  intros Hn. unfold A114Protocol.decodePayload.
  erewrite decodeValue_string by reflexivity.
  rewrite (readUInt32BE_at _ 1 n bs) by (lia || reflexivity).
  rewrite bind_Ok. cbn [bind].
  replace (drop (1 + 4) (DT_STRING :: be_bytes 4 n ++ bs)) with bs.
  2:{ cbn [Nat.add drop]. rewrite be_bytes_4. reflexivity. }
  rewrite take_ge by lia. reflexivity.
Qed.

Lemma read_bytes_short n (buffer : Buffer) offset :
  (0 < n)%nat -> (length buffer < offset + n)%nat ->
  read_bytes n buffer offset = Throw OutOfRange.
Proof.
  intros Hn Hlen. unfold read_bytes.
  destruct (Nat.eqb_spec (length (take n (drop offset buffer))) n) as [He|];
    [|done].
  rewrite length_take, length_drop in He. lia.
Qed.

(** X7. A value cut short raises the RangeError of a Buffer read, which is
    not a FORMAT_ERROR: an empty payload, or a tag followed by fewer
    bytes than its fixed-width field takes. *)
Theorem decode_truncated tag (width : nat) (rest : Buffer) :
  In (tag, width)
     [(DT_BOOL, 1); (DT_INT8, 1); (DT_INT16, 2); (DT_INT32, 4);
      (DT_FLOAT64, 8); (DT_STRING, 4); (DT_ARRAY, 4); (DT_OBJECT, 4)]%nat ->
  (length rest < width)%nat ->
  decodePayload (tag :: rest) = Throw OutOfRange
  /\ decodePayload [] = Throw OutOfRange
  /\ is_format_error OutOfRange = false.
Proof.
  intros Hin Hlen. split; [|split; reflexivity].
  unfold A114Protocol.decodePayload. cbn [A114Protocol.decodeValue].
  erewrite readUInt8_at, bind_Ok by reflexivity.
  cbn [In] in Hin.
  repeat (destruct Hin as [[= <- <-]|Hin];
    [ cbn [Z.eqb Pos.eqb DT_NULL DT_BOOL DT_INT8 DT_INT16 DT_INT32 DT_FLOAT64
           DT_STRING DT_ARRAY DT_OBJECT];
      unfold readUInt8, readInt8, readInt16BE, readInt32BE, readDoubleBE,
        readUInt32BE;
      rewrite read_bytes_short by (cbn [length]; lia); reflexivity |]).
  destruct Hin.
Qed.

(** *** [undefined] on the wire *)

Lemma encodeValue_undefined_as_null v :
  encodeValue (undefined_as_null v) = encodeValue v.
Proof.
  induction v as [| |b|z|bits|s|items IH|props IH] using value_nested_ind;
    cbn [undefined_as_null encodeValue]; try reflexivity.
  - assert (encodeItems encodeValue (List.map undefined_as_null items)
            = encodeItems encodeValue items) as ->.
    { induction IH as [|x items Hx _ IHl]; cbn [List.map encodeItems]; [done|].
      by rewrite Hx, IHl. }
    by rewrite length_map.
  - assert (encodePairs encodeValue
              (List.map (fun kv => (kv.1, undefined_as_null kv.2)) props)
            = encodePairs encodeValue props) as ->.
    { induction IH as [|[k x] props Hx _ IHl]; cbn [List.map encodePairs];
        [done|].
      cbn [fst snd] in *. by rewrite Hx, IHl. }
    by rewrite length_map.
Qed.

Lemma encoded_size_undefined_as_null v :
  encoded_size (undefined_as_null v) = encoded_size v.
Proof.
  induction v as [| |b|z|bits|s|items IH|props IH] using value_nested_ind;
    cbn [undefined_as_null encoded_size]; try reflexivity.
  - f_equal.
    induction IH as [|x items Hx _ IHl]; cbn [List.map fold_right]; [done|].
    by rewrite Hx, IHl.
  - f_equal.
    induction IH as [|[k x] props Hx _ IHl]; cbn [List.map fold_right];
      [done|].
    cbn [fst snd] in *. by rewrite Hx, IHl.
Qed.


(** *** Command packets *)


End WireFormat.

(** *** The wire format at sample inputs *)

(** The layout of the packet of the integer 300. *)
Lemma encode_packet_layout_witness :
  exists payload,
    A114Protocol.encodePayload (VInt 300) = Ok payload
    /\ [0xA1; 0x14; 1; 0; 0; 0; 0; 3; 3; 1; 44]
       = [0xA1; 0x14; 1; 0] ++ be_bytes 4 (encoded_size (VInt 300)) ++ payload
    /\ Z.of_nat (length payload) = encoded_size (VInt 300)
    /\ Z.of_nat (length [0xA1; 0x14; 1; 0; 0; 0; 0; 3; 3; 1; 44])
       = 8 + encoded_size (VInt 300)
    /\ encoded_size (VInt 300) <= 4294967295.
Proof.
  apply (encode_packet_layout (VInt 300)). vm_compute. reflexivity.
Defined.


(** The tags FLOAT32 and BINARY, and the byte 0xFF. *)
Lemma decode_unknown_tag_witness :
  format_error
    (A114Protocol.decodePayload Sample.ToString
       [A114Protocol.DT_FLOAT32; 0; 0; 0; 0])
    (UnknownDataType 5)
  /\ format_error
       (A114Protocol.decodePayload Sample.ToString [A114Protocol.DT_BINARY])
       (UnknownDataType 10)
  /\ format_error (A114Protocol.decodePayload Sample.ToString [0xFF; 1])
       (UnknownDataType 255).
Proof.
  split; [|split]; apply decode_unknown_tag; cbn; intuition discriminate.
Defined.

(** A string declared 5 bytes long with the one byte 'a' after it. *)
Lemma decode_string_clamped_witness :
  A114Protocol.decodePayload Sample.ToString
    (A114Protocol.DT_STRING :: be_bytes 4 5 ++ [97])
  = Ok (VString (utf8_decode [97])).
Proof.
  apply (decode_string_clamped Sample.ToString 5 [97]). cbn. lia.
Defined.

(** An INT32 tag followed by two bytes. *)
Lemma decode_truncated_witness :
  A114Protocol.decodePayload Sample.ToString [A114Protocol.DT_INT32; 1; 2]
  = Throw OutOfRange
  /\ A114Protocol.decodePayload Sample.ToString [] = Throw OutOfRange
  /\ is_format_error OutOfRange = false.
Proof.
  apply (decode_truncated Sample.ToString A114Protocol.DT_INT32 4 [1; 2]).
  - cbn. tauto.
  - cbn. lia.
Defined.



(** ** The life of a cache entry *)

Section EntryProperties.

Context {V : Type}.

Implicit Types (m : CacheManager.t V) (c : LRUCache.t (CacheManager.CacheEntry V)).
Implicit Types (k : jsstring) (l : list (LRUCache.item (CacheManager.CacheEntry V))).

(** The keys of a cache, most recently used first. *)
#[local] Abbreviation keys_of l := (List.map LRUCache.i_key l).
#[local] Abbreviation keys m :=
  (List.map LRUCache.i_key (LRUCache.items (CacheManager.cache m))).

Lemma find_remove k l mx tt :
  LRUCache.find k (LRUCache.mk mx tt (LRUCache.remove k l)) = None.
Proof.
  unfold LRUCache.find, LRUCache.remove. cbn [LRUCache.items].
  induction l as [|it l IH]; [done|]. cbn [List.filter].
  destruct (LRUCache.has_key k it) eqn:E; cbn [negb]; [exact IH|].
  cbn [List.find]. by rewrite E.
Qed.

Lemma find_remove_other k k' l mx tt :
  k' <> k ->
  LRUCache.find k' (LRUCache.mk mx tt (LRUCache.remove k l))
  = LRUCache.find k' (LRUCache.mk mx tt l).
Proof.
  intros Hne. unfold LRUCache.find, LRUCache.remove. cbn [LRUCache.items].
  induction l as [|it l IH]; [done|]. cbn [List.filter List.find].
  destruct (LRUCache.has_key k it) eqn:E1, (LRUCache.has_key k' it) eqn:E2;
    cbn [negb List.find]; rewrite ?E2; try done.
  unfold LRUCache.has_key in E1, E2.
  apply bool_decide_eq_true in E1, E2. congruence.
Qed.

Lemma find_item k c it :
  LRUCache.find k c = Some it ->
  In it (LRUCache.items c) /\ LRUCache.i_key it = k.
Proof.
  unfold LRUCache.find. intros [Hin Hk]%find_some. split; [done|].
  by apply bool_decide_eq_true in Hk.
Qed.

Lemma find_is_Some k c :
  is_Some (LRUCache.find k c) <-> In k (keys_of (LRUCache.items c)).
Proof.
  split.
  - intros [it [Hin <-]%find_item]. by apply in_map.
  - intros Hin. destruct c as [mx tt l].
    destruct (find_Some_In k l mx tt Hin) as [it Hit]. by exists it.
Qed.

Lemma remove_keys k l :
  keys_of (LRUCache.remove k l)
  = List.filter (fun k' => negb (bool_decide (k' = k))) (keys_of l).
Proof.
  unfold LRUCache.remove, LRUCache.has_key.
  induction l as [|it l IH]; [done|]. cbn [List.filter List.map].
  destruct (bool_decide (LRUCache.i_key it = k)); cbn [negb List.map];
    by rewrite IH.
Qed.

Lemma remove_notin k l : ~ In k (keys_of (LRUCache.remove k l)).
Proof.
  rewrite remove_keys. intros [_ Hk]%filter_In.
  by rewrite bool_decide_eq_true_2 in Hk.
Qed.

Lemma remove_sub k k' l :
  In k' (keys_of (LRUCache.remove k l)) -> In k' (keys_of l).
Proof. rewrite remove_keys. by intros [Hin _]%filter_In. Qed.

Lemma NoDup_filter_keys (P : jsstring -> bool) (ks : list jsstring) :
  NoDup ks -> NoDup (List.filter P ks).
Proof.
  induction 1 as [|k ks Hk _ IH]; cbn [List.filter]; [constructor|].
  destruct (P k); [|done]. apply NoDup_cons. split; [|done].
  intros Hin%list_elem_of_In%filter_In. apply Hk, list_elem_of_In, Hin.
Qed.

Lemma remove_NoDup k l :
  NoDup (keys_of l) -> NoDup (keys_of (LRUCache.remove k l)).
Proof. rewrite remove_keys. apply NoDup_filter_keys. Qed.

Lemma remove_length k l :
  (length (LRUCache.remove k l) <= length l)%nat.
Proof. unfold LRUCache.remove. apply List.filter_length_le. Qed.

Lemma remove_absent k l :
  ~ In k (keys_of l) -> LRUCache.remove k l = l.
Proof.
  unfold LRUCache.remove, LRUCache.has_key.
  induction l as [|it l IH]; [done|]. cbn [List.map In List.filter].
  intros Hn. rewrite bool_decide_eq_false_2 by tauto. cbn [negb].
  rewrite IH; tauto.
Qed.

Lemma remove_length_present k l :
  NoDup (keys_of l) -> In k (keys_of l) ->
  S (length (LRUCache.remove k l)) = length l.
Proof.
  induction l as [|it l IH]; cbn [List.map In]; [done|].
  intros [Hk Hnd]%NoDup_cons Hin. unfold LRUCache.remove.
  cbn [List.filter length]. unfold LRUCache.has_key at 1.
  destruct (decide (LRUCache.i_key it = k)) as [He|Hn].
  - rewrite (bool_decide_eq_true_2 _ He). cbn [negb]. f_equal.
    fold (LRUCache.remove k l). rewrite remove_absent; [done|].
    intros Hin'. apply Hk. rewrite He. by apply list_elem_of_In.
  - rewrite (bool_decide_eq_false_2 _ Hn). cbn [negb length]. f_equal.
    apply IH; [done|]. by destruct Hin.
Qed.

(** The item [cache.set] stores. *)
Lemma find_set_item now k (e : CacheManager.CacheEntry V) t c :
  LRUCache.find k (LRUCache.set now k e t c).1
  = Some (LRUCache.mk_item k e (LRUCache.start_of now t) t).
Proof.
  unfold LRUCache.set.
  destruct (LRUCache.find k c) as [old|]; cbn [fst].
  - by rewrite find_head.
  - destruct (rev (LRUCache.items c)) as [|lru others]; cbn [fst].
    + by rewrite find_head.
    + destruct (Nat.eqb _ _); cbn [fst]; by rewrite find_head.
Qed.

Lemma cache_set now k (v : V) t p m :
  CacheManager.cache (CacheManager.set now k v t p m)
  = (LRUCache.set now k
       (CacheManager.mk_entry k v now (CacheManager.ttl_or_default t) 0 p)
       (CacheManager.ttl_or_default t) (CacheManager.cache m)).1.
Proof.
  unfold CacheManager.set. cbn [CacheManager.ttl].
  by destruct (LRUCache.set _ _ _ _ _).
Qed.

Lemma stats_set now k (v : V) t p m :
  CacheManager.stats (CacheManager.set now k v t p m)
  = CacheManager.mk_stats
      (CacheManager.hits (CacheManager.stats m))
      (CacheManager.misses (CacheManager.stats m))
      (CacheManager.sets (CacheManager.stats m) + 1)
      (CacheManager.evictions (CacheManager.stats m)
       + Z.of_nat (length
           (LRUCache.set now k
              (CacheManager.mk_entry k v now (CacheManager.ttl_or_default t) 0 p)
              (CacheManager.ttl_or_default t) (CacheManager.cache m)).2)).
Proof.
  unfold CacheManager.set. cbn [CacheManager.ttl].
  destruct (LRUCache.set _ _ _ _ _) as [c ds]. cbn [snd CacheManager.stats].
  by rewrite disposed_evictions.
Qed.

Lemma ttl_or_default_nonzero (t : option Z) : CacheManager.ttl_or_default t <> 0.
Proof.
  unfold CacheManager.ttl_or_default. destruct t as [x|]; [|done].
  destruct (Z.eqb_spec x 0); [done|done].
Qed.

Lemma find_mutate k (f : CacheManager.CacheEntry V -> CacheManager.CacheEntry V)
    c it :
  LRUCache.find k c = Some it ->
  LRUCache.find k (LRUCache.mutate k f c)
  = Some (LRUCache.mk_item (LRUCache.i_key it) (f (LRUCache.i_value it))
            (LRUCache.i_start it) (LRUCache.i_ttl it)).
Proof.
  unfold LRUCache.find, LRUCache.mutate. cbn [LRUCache.items].
  induction (LRUCache.items c) as [|x l IH]; [done|].
  cbn [List.find List.map]. destruct (LRUCache.has_key k x) eqn:E.
  - intros [= ->]. cbn [List.find]. unfold LRUCache.has_key in *.
    cbn [LRUCache.i_key]. by rewrite E.
  - intros Hf. cbn [List.find]. rewrite E. by apply IH.
Qed.

Lemma mutate_keys k (f : CacheManager.CacheEntry V -> CacheManager.CacheEntry V) c :
  keys_of (LRUCache.items (LRUCache.mutate k f c)) = keys_of (LRUCache.items c).
Proof.
  unfold LRUCache.mutate. cbn [LRUCache.items].
  induction (LRUCache.items c) as [|x l IH]; [done|]. cbn [List.map].
  rewrite IH. by destruct (LRUCache.has_key k x).
Qed.

(** [get] on a key that is present and not stale. *)
Lemma get_fresh now k m it :
  LRUCache.find k (CacheManager.cache m) = Some it ->
  LRUCache.isStale now it = false ->
  CacheManager.get now k m
  = (Some (CacheManager.value (LRUCache.i_value it)),
     CacheManager.mk
       (LRUCache.mutate k CacheManager.touch
          (LRUCache.mk (LRUCache.max (CacheManager.cache m))
             (LRUCache.ttl (CacheManager.cache m))
             (LRUCache.mk_item k (LRUCache.i_value it)
                (LRUCache.start_of now (LRUCache.i_ttl it)) (LRUCache.i_ttl it)
              :: LRUCache.remove k (LRUCache.items (CacheManager.cache m)))))
       (CacheManager.mk_stats
          (CacheManager.hits (CacheManager.stats m) + 1)
          (CacheManager.misses (CacheManager.stats m))
          (CacheManager.sets (CacheManager.stats m))
          (CacheManager.evictions (CacheManager.stats m)))).
Proof.
  intros Hf Hs. unfold CacheManager.get, LRUCache.get. rewrite Hf, Hs.
  cbn [CacheManager.disposed fold_left]. by destruct (CacheManager.stats m).
Qed.

(** [get] on a key that is not in the cache. *)
Lemma get_absent now k m :
  LRUCache.find k (CacheManager.cache m) = None ->
  CacheManager.get now k m
  = (None,
     CacheManager.mk (CacheManager.cache m)
       (CacheManager.mk_stats
          (CacheManager.hits (CacheManager.stats m))
          (CacheManager.misses (CacheManager.stats m) + 1)
          (CacheManager.sets (CacheManager.stats m))
          (CacheManager.evictions (CacheManager.stats m)))).
Proof.
  intros Hf. unfold CacheManager.get, LRUCache.get. rewrite Hf.
  cbn [CacheManager.disposed fold_left]. by destruct (CacheManager.stats m).
Qed.

Lemma fresh_item_not_stale now now' k (e : CacheManager.CacheEntry V) t :
  t <> 0 -> now' - now <= t ->
  LRUCache.isStale now' (LRUCache.mk_item k e (LRUCache.start_of now t) t)
  = false.
Proof.
  intros Ht Hage. unfold LRUCache.isStale, LRUCache.start_of.
  cbn [LRUCache.i_ttl LRUCache.i_start].
  rewrite (proj2 (Z.eqb_neq _ 0) Ht).
  rewrite (proj2 (Z.ltb_ge _ _)) by lia. by rewrite andb_false_r.
Qed.

Lemma find_after_set now k (v : V) t p m :
  LRUCache.find k (CacheManager.cache (CacheManager.set now k v t p m))
  = Some (LRUCache.mk_item k
            (CacheManager.mk_entry k v now (CacheManager.ttl_or_default t) 0 p)
            (LRUCache.start_of now (CacheManager.ttl_or_default t))
            (CacheManager.ttl_or_default t)).
Proof. rewrite cache_set. apply find_set_item. Qed.

Lemma has_after_set now now' k (v : V) t p m :
  now' - now <= CacheManager.ttl_or_default t ->
  CacheManager.has now' k (CacheManager.set now k v t p m) = true.
Proof.
  intros Hage. unfold CacheManager.has, LRUCache.has.
  rewrite find_after_set.
  by rewrite fresh_item_not_stale by (apply ttl_or_default_nonzero || done).
Qed.

(** X10. A value that was set is returned by [get] as long as its time to live
    has not passed, and the read counts as one hit. *)
Theorem set_then_get now now' k (v : V) t p m :
  now' - now <= CacheManager.ttl_or_default t ->
  (CacheManager.get now' k (CacheManager.set now k v t p m)).1 = Some v
  /\ CacheManager.has now' k (CacheManager.set now k v t p m) = true
  /\ CacheManager.hits
       (CacheManager.stats
          (CacheManager.get now' k (CacheManager.set now k v t p m)).2)
     = CacheManager.hits (CacheManager.stats m) + 1
  /\ CacheManager.misses
       (CacheManager.stats
          (CacheManager.get now' k (CacheManager.set now k v t p m)).2)
     = CacheManager.misses (CacheManager.stats m).
Proof.
  intros Hage.
  pose proof (find_set_item now k
    (CacheManager.mk_entry k v now (CacheManager.ttl_or_default t) 0 p)
    (CacheManager.ttl_or_default t) (CacheManager.cache m)) as Hf.
  rewrite <- cache_set in Hf.
  assert (Hs : LRUCache.isStale now'
                 (LRUCache.mk_item k
                    (CacheManager.mk_entry k v now
                       (CacheManager.ttl_or_default t) 0 p)
                    (LRUCache.start_of now (CacheManager.ttl_or_default t))
                    (CacheManager.ttl_or_default t)) = false).
  { unfold LRUCache.isStale, LRUCache.start_of. cbn [LRUCache.i_ttl LRUCache.i_start].
    rewrite (proj2 (Z.eqb_neq _ 0) (ttl_or_default_nonzero t)).
    rewrite (proj2 (Z.ltb_ge _ _)) by lia. by rewrite andb_false_r. }
  rewrite (get_fresh now' k _ _ Hf Hs). cbn [fst snd].
  split; [reflexivity|]. split.
  { unfold CacheManager.has, LRUCache.has. by rewrite Hf, Hs. }
  rewrite stats_set. by cbn.
Qed.

(** A [get] returns a value exactly when [has] holds at that moment; it
    then counts one hit, and counts one miss otherwise, and never
    touches [sets]. *)
Lemma get_hit_iff_has now k m :
  (is_Some (CacheManager.get now k m).1 <-> CacheManager.has now k m = true)
  /\ CacheManager.hits (CacheManager.stats (CacheManager.get now k m).2)
     = CacheManager.hits (CacheManager.stats m)
       + (if CacheManager.has now k m then 1 else 0)
  /\ CacheManager.misses (CacheManager.stats (CacheManager.get now k m).2)
     = CacheManager.misses (CacheManager.stats m)
       + (if CacheManager.has now k m then 0 else 1)
  /\ CacheManager.sets (CacheManager.stats (CacheManager.get now k m).2)
     = CacheManager.sets (CacheManager.stats m).
Proof.
  unfold CacheManager.has, LRUCache.has.
  destruct (LRUCache.find k (CacheManager.cache m)) as [it|] eqn:Hf.
  - destruct (LRUCache.isStale now it) eqn:Hs.
    + rewrite (get_expired now k m it Hf Hs). cbn.
      split_and!; try lia. split; [by intros [? ?] | done].
    + rewrite (get_fresh now k m it Hf Hs). cbn.
      split_and!; try lia. split; [done | by eexists].
  - rewrite (get_absent now k m Hf). cbn.
    split_and!; try lia. split; [by intros [? ?] | done].
Qed.

(** A hit restarts the age of the entry. *)
Lemma get_restarts_ttl now1 now2 k m it :
  LRUCache.find k (CacheManager.cache m) = Some it ->
  LRUCache.isStale now1 it = false ->
  now2 - now1 <= LRUCache.i_ttl it ->
  CacheManager.has now2 k (CacheManager.get now1 k m).2 = true.
Proof.
  intros Hf Hs Hage. rewrite (get_fresh now1 k m it Hf Hs). cbn [snd].
  unfold CacheManager.has, LRUCache.has. cbn [CacheManager.cache].
  erewrite find_mutate by apply find_head.
  unfold LRUCache.isStale, LRUCache.start_of. cbn [LRUCache.i_ttl LRUCache.i_start].
  destruct (Z.eqb_spec (LRUCache.i_ttl it) 0) as [->|Hne]; [done|].
  cbn [negb andb]. rewrite (proj2 (Z.ltb_ge _ _)) by lia.
  by rewrite andb_false_r.
Qed.

(** X11. A read restarts the time to live of an entry ([updateAgeOnGet]): a
    value that is read before it expires is still in the cache one time
    to live after the read, however long ago it was set. *)
Theorem read_extends_life now0 now1 now2 k (v : V) t p m :
  now1 - now0 <= CacheManager.ttl_or_default t ->
  now2 - now1 <= CacheManager.ttl_or_default t ->
  CacheManager.has now2 k
    (CacheManager.get now1 k (CacheManager.set now0 k v t p m)).2 = true.
Proof.
  intros H1 H2.
  apply (get_restarts_ttl now1 now2 k _ _ (find_after_set now0 k v t p m)).
  - by apply fresh_item_not_stale; [apply ttl_or_default_nonzero|].
  - done.
Qed.

(** X12. Setting a key that is already in the cache replaces its entry and
    calls [dispose] for the old one: the overwrite is counted in
    [evictions] as well as in [sets], and the size stays as it was. *)
Theorem overwrite_counts_as_eviction now k (v : V) t p m :
  NoDup (keys m) -> In k (keys m) ->
  CacheManager.evictions (CacheManager.stats (CacheManager.set now k v t p m))
  = CacheManager.evictions (CacheManager.stats m) + 1
  /\ CacheManager.sets (CacheManager.stats (CacheManager.set now k v t p m))
     = CacheManager.sets (CacheManager.stats m) + 1
  /\ CacheManager.size (CacheManager.set now k v t p m) = CacheManager.size m
  /\ keys (CacheManager.set now k v t p m)
     = k :: List.filter (fun k' => negb (bool_decide (k' = k))) (keys m).
Proof.
  intros Hnd Hin.
  destruct (proj2 (find_is_Some k (CacheManager.cache m)) Hin) as [old Hold].
  unfold CacheManager.size, LRUCache.size.
  rewrite stats_set, cache_set. unfold LRUCache.set. rewrite Hold.
  cbn [fst snd length LRUCache.items CacheManager.evictions CacheManager.sets
       List.map LRUCache.i_key].
  rewrite (remove_length_present k _ Hnd Hin), remove_keys.
  repeat split; lia.
Qed.

(** [clear] empties the cache and calls [dispose] for every entry: each
    one is counted in [evictions]. *)
Lemma clear_counts_evictions m :
  CacheManager.size (CacheManager.clear m) = 0%nat
  /\ CacheManager.evictions (CacheManager.stats (CacheManager.clear m))
     = CacheManager.evictions (CacheManager.stats m)
       + Z.of_nat (CacheManager.size m)
  /\ CacheManager.hits (CacheManager.stats (CacheManager.clear m))
     = CacheManager.hits (CacheManager.stats m)
  /\ CacheManager.misses (CacheManager.stats (CacheManager.clear m))
     = CacheManager.misses (CacheManager.stats m)
  /\ CacheManager.sets (CacheManager.stats (CacheManager.clear m))
     = CacheManager.sets (CacheManager.stats m).
Proof.
  unfold CacheManager.clear, LRUCache.clear, CacheManager.size, LRUCache.size.
  rewrite disposed_evictions, length_map, length_rev. by cbn.
Qed.

(** [delete] returns whether the key was in the cache, expired or not;
    afterwards the key is gone for [has] and for [get], and every other
    key is found as before. *)
Lemma delete_then_absent now k m :
  ((CacheManager.delete k m).1 = true <-> In k (keys m))
  /\ CacheManager.has now k (CacheManager.delete k m).2 = false
  /\ (CacheManager.get now k (CacheManager.delete k m).2).1 = None
  /\ (forall k', k' <> k ->
        LRUCache.find k' (CacheManager.cache (CacheManager.delete k m).2)
        = LRUCache.find k' (CacheManager.cache m)).
Proof.
  destruct (LRUCache.find k (CacheManager.cache m)) as [it|] eqn:Hf.
  - rewrite (delete_present k m it Hf). cbn [fst snd].
    split; [split; [intros _|done]|].
    { apply find_is_Some. by exists it. }
    split; [|split].
    + unfold CacheManager.has, LRUCache.has. cbn [CacheManager.cache].
      by rewrite find_remove.
    + rewrite get_absent; [done|]. cbn [CacheManager.cache]. apply find_remove.
    + intros k' Hne. cbn [CacheManager.cache].
      rewrite find_remove_other by done. by destruct (CacheManager.cache m).
  - rewrite (delete_absent k m Hf). cbn [fst snd].
    split; [split; [done|]|].
    { intros Hin%find_is_Some. rewrite Hf in Hin. by destruct Hin. }
    split; [|split; [|done]].
    + unfold CacheManager.has, LRUCache.has. by rewrite Hf.
    + by rewrite get_absent.
Qed.

(** X13. A value read after its time to live has passed is gone: [get] returns
    null, removes the entry through [dispose], and counts a miss and an
    eviction. *)
Theorem get_after_expiry now now' k (v : V) t p m :
  now <> 0 -> CacheManager.ttl_or_default t < now' - now ->
  (CacheManager.get now' k (CacheManager.set now k v t p m)).1 = None
  /\ CacheManager.has now' k (CacheManager.set now k v t p m) = false
  /\ LRUCache.find k
       (CacheManager.cache
          (CacheManager.get now' k (CacheManager.set now k v t p m)).2) = None
  /\ CacheManager.misses
       (CacheManager.stats
          (CacheManager.get now' k (CacheManager.set now k v t p m)).2)
     = CacheManager.misses (CacheManager.stats m) + 1
  /\ CacheManager.evictions
       (CacheManager.stats
          (CacheManager.get now' k (CacheManager.set now k v t p m)).2)
     = CacheManager.evictions
         (CacheManager.stats (CacheManager.set now k v t p m)) + 1.
Proof.
  intros Hnow Hage.
  pose proof (find_set_item now k
    (CacheManager.mk_entry k v now (CacheManager.ttl_or_default t) 0 p)
    (CacheManager.ttl_or_default t) (CacheManager.cache m)) as Hf.
  rewrite <- cache_set in Hf.
  assert (Hs : LRUCache.isStale now'
                 (LRUCache.mk_item k
                    (CacheManager.mk_entry k v now
                       (CacheManager.ttl_or_default t) 0 p)
                    (LRUCache.start_of now (CacheManager.ttl_or_default t))
                    (CacheManager.ttl_or_default t)) = true).
  { unfold LRUCache.isStale, LRUCache.start_of. cbn [LRUCache.i_ttl LRUCache.i_start].
    rewrite (proj2 (Z.eqb_neq _ 0) (ttl_or_default_nonzero t)).
    rewrite (proj2 (Z.eqb_neq _ 0) Hnow).
    by rewrite (proj2 (Z.ltb_lt _ _)) by lia. }
  rewrite (get_expired now' k _ _ Hf Hs). cbn [fst snd].
  split; [reflexivity|]. split.
  { unfold CacheManager.has, LRUCache.has. by rewrite Hf, Hs. }
  split; [apply find_remove|].
  rewrite stats_set. by cbn.
Qed.

End EntryProperties.

(** ** Invariants of the cache manager *)

Section CacheInvariants.

Context {V : Type}.

Implicit Types (m : CacheManager.t V) (c : LRUCache.t (CacheManager.CacheEntry V)).
Implicit Types (k : jsstring) (l : list (LRUCache.item (CacheManager.CacheEntry V))).

#[local] Abbreviation keys_of l := (List.map LRUCache.i_key l).
#[local] Abbreviation keys m :=
  (List.map LRUCache.i_key (LRUCache.items (CacheManager.cache m))).

#[local] Abbreviation well_formed := CacheManager.well_formed.
#[local] Abbreviation unaccounted := CacheManager.unaccounted.

Lemma keys_rev_tail l lru others :
  rev l = lru :: others -> l = rev others ++ [lru].
Proof.
  intros Hr. apply (f_equal (@rev _)) in Hr. by rewrite rev_involutive in Hr.
Qed.

Lemma set_step now k (v : V) t p m :
  well_formed m ->
  well_formed (CacheManager.set now k v t p m)
  /\ LRUCache.max (CacheManager.cache (CacheManager.set now k v t p m))
     = LRUCache.max (CacheManager.cache m)
  /\ unaccounted (CacheManager.set now k v t p m) = unaccounted m.
Proof.
  intros (Hnd & Hsz & Hmx). unfold CacheManager.well_formed, CacheManager.unaccounted, CacheManager.size,
    LRUCache.size in *.
  rewrite stats_set, cache_set. unfold LRUCache.set, LRUCache.size.
  destruct (LRUCache.find k (CacheManager.cache m)) as [old|] eqn:Hf.
  - assert (Hin : In k (keys m)) by (apply find_is_Some; by exists old).
    pose proof (remove_length_present k _ Hnd Hin) as Hlen.
    cbn [fst snd LRUCache.items LRUCache.max length List.map LRUCache.i_key
         CacheManager.sets CacheManager.evictions].
    split_and!; try lia.
    apply NoDup_cons. split; [|by apply remove_NoDup].
    intros Hk%list_elem_of_In. by apply remove_notin in Hk.
  - assert (Hnin : ~ In k (keys m)).
    { intros Hin%find_is_Some. rewrite Hf in Hin. by destruct Hin. }
    destruct (rev (LRUCache.items (CacheManager.cache m))) as [|lru others] eqn:Hr.
    + apply (f_equal (@rev _)) in Hr. rewrite rev_involutive in Hr.
      cbn [rev] in Hr. rewrite Hr in *.
      cbn [fst snd LRUCache.items LRUCache.max length List.map LRUCache.i_key
           CacheManager.sets CacheManager.evictions].
      split_and!; try lia. apply NoDup_singleton.
    + apply keys_rev_tail in Hr.
      destruct (Nat.eqb_spec (length (LRUCache.items (CacheManager.cache m)))
                  (LRUCache.max (CacheManager.cache m))) as [Hfull|Hroom];
        cbn [fst snd LRUCache.items LRUCache.max length List.map LRUCache.i_key
             CacheManager.sets CacheManager.evictions].
      * rewrite Hr in Hnd, Hsz, Hnin |- *.
        rewrite map_app in Hnd, Hnin. rewrite length_app in Hsz |- *.
        cbn [length] in *. apply NoDup_app in Hnd as (Hnd & _ & _).
        split_and!; try lia.
        apply NoDup_cons. split; [|done].
        intros Hk%list_elem_of_In. apply Hnin, in_or_app. by left.
      * split_and!; try lia.
        apply NoDup_cons. split; [|done].
        intros Hk%list_elem_of_In. by apply Hnin.
Qed.

Lemma get_step now k m :
  well_formed m ->
  well_formed (CacheManager.get now k m).2
  /\ LRUCache.max (CacheManager.cache (CacheManager.get now k m).2)
     = LRUCache.max (CacheManager.cache m)
  /\ unaccounted (CacheManager.get now k m).2 = unaccounted m.
Proof.
  intros (Hnd & Hsz & Hmx). unfold CacheManager.well_formed, CacheManager.unaccounted, CacheManager.size,
    LRUCache.size in *.
  destruct (LRUCache.find k (CacheManager.cache m)) as [it|] eqn:Hf.
  - assert (Hin : In k (keys m)) by (apply find_is_Some; by exists it).
    pose proof (remove_length_present k _ Hnd Hin) as Hlen.
    destruct (LRUCache.isStale now it) eqn:Hs.
    + rewrite (get_expired now k m it Hf Hs).
      cbn [fst snd CacheManager.cache CacheManager.stats LRUCache.items
           LRUCache.max CacheManager.sets CacheManager.evictions].
      split_and!; try lia. by apply remove_NoDup.
    + rewrite (get_fresh now k m it Hf Hs).
      cbn [fst snd CacheManager.cache CacheManager.stats
           CacheManager.sets CacheManager.evictions].
      rewrite mutate_keys.
      assert (length (LRUCache.items
                (LRUCache.mutate k CacheManager.touch
                   (LRUCache.mk (LRUCache.max (CacheManager.cache m))
                      (LRUCache.ttl (CacheManager.cache m))
                      (LRUCache.mk_item k (LRUCache.i_value it)
                         (LRUCache.start_of now (LRUCache.i_ttl it))
                         (LRUCache.i_ttl it)
                       :: LRUCache.remove k
                            (LRUCache.items (CacheManager.cache m))))))
              = length (LRUCache.items (CacheManager.cache m))) as ->.
      { rewrite <- (length_map LRUCache.i_key), mutate_keys, length_map.
        cbn [LRUCache.items length]. lia. }
      cbn [LRUCache.items LRUCache.max LRUCache.mutate List.map LRUCache.i_key].
      split_and!; try lia.
      apply NoDup_cons. split; [|by apply remove_NoDup].
      intros Hk%list_elem_of_In. by apply remove_notin in Hk.
  - rewrite (get_absent now k m Hf).
    cbn [fst snd CacheManager.cache CacheManager.stats
         CacheManager.sets CacheManager.evictions].
    split_and!; try lia; done.
Qed.

Lemma delete_step k m :
  well_formed m ->
  well_formed (CacheManager.delete k m).2
  /\ LRUCache.max (CacheManager.cache (CacheManager.delete k m).2)
     = LRUCache.max (CacheManager.cache m)
  /\ unaccounted (CacheManager.delete k m).2 = unaccounted m.
Proof.
  intros (Hnd & Hsz & Hmx). unfold CacheManager.well_formed, CacheManager.unaccounted, CacheManager.size,
    LRUCache.size in *.
  destruct (LRUCache.find k (CacheManager.cache m)) as [it|] eqn:Hf.
  - assert (Hin : In k (keys m)) by (apply find_is_Some; by exists it).
    pose proof (remove_length_present k _ Hnd Hin) as Hlen.
    rewrite (delete_present k m it Hf).
    cbn [fst snd CacheManager.cache CacheManager.stats LRUCache.items
         LRUCache.max CacheManager.sets CacheManager.evictions].
    split_and!; try lia. by apply remove_NoDup.
  - rewrite (delete_absent k m Hf). cbn [snd]. split_and!; try lia; done.
Qed.

Lemma clear_step m :
  well_formed m ->
  well_formed (CacheManager.clear m)
  /\ LRUCache.max (CacheManager.cache (CacheManager.clear m))
     = LRUCache.max (CacheManager.cache m)
  /\ unaccounted (CacheManager.clear m) = unaccounted m.
Proof.
  intros (Hnd & Hsz & Hmx). unfold CacheManager.well_formed, CacheManager.unaccounted, CacheManager.size,
    LRUCache.size in *.
  unfold CacheManager.clear, LRUCache.clear.
  rewrite disposed_evictions, length_map, length_rev.
  cbn [CacheManager.cache CacheManager.stats LRUCache.items LRUCache.max
       CacheManager.sets CacheManager.evictions List.map length].
  split_and!; try lia. constructor.
Qed.

Lemma filter_split_length {A : Type} (P : A -> bool) (l : list A) :
  (length (List.filter P l) + length (List.filter (fun x => negb (P x)) l)
   = length l)%nat.
Proof.
  induction l as [|x l IH]; [done|]. cbn [List.filter].
  destruct (P x); cbn [negb length]; lia.
Qed.

Lemma NoDup_filter_items (P : LRUCache.item (CacheManager.CacheEntry V) -> bool) l :
  NoDup (keys_of l) -> NoDup (keys_of (List.filter P l)).
Proof.
  induction l as [|it l IH]; cbn [List.map List.filter]; [done|].
  intros [Hk Hnd]%NoDup_cons. destruct (P it); [|by apply IH].
  cbn [List.map]. apply NoDup_cons. split; [|by apply IH].
  intros Hin%list_elem_of_In%in_map_iff. destruct Hin as (it' & He & Hin).
  apply filter_In in Hin as [Hin _]. apply Hk, list_elem_of_In.
  rewrite <- He. by apply in_map.
Qed.

Lemma optimize_step_all now m :
  well_formed m ->
  well_formed (CacheManager.optimize now m)
  /\ LRUCache.max (CacheManager.cache (CacheManager.optimize now m))
     = LRUCache.max (CacheManager.cache m)
  /\ unaccounted (CacheManager.optimize now m)
     = unaccounted m
       + Z.of_nat (CacheManager.size m
                   - CacheManager.size (CacheManager.optimize now m)).
Proof.
  intros (Hnd & Hsz & Hmx).
  destruct (optimize_exact now m Hnd) as (Hi & Hm & _ & Hs).
  unfold CacheManager.well_formed, CacheManager.unaccounted, CacheManager.size, LRUCache.size in *.
  rewrite Hi, Hm, Hs.
  pose proof (filter_split_length (CacheManager.swept now)
                (LRUCache.items (CacheManager.cache m))) as Hlen.
  cbn [CacheManager.sets CacheManager.evictions].
  split_and!; try lia. by apply NoDup_filter_items.
Qed.

Lemma restore_step now (backup : list (jsstring * V)) : forall m,
  well_formed m ->
  well_formed (CacheManager.restoreCritical now backup m)
  /\ LRUCache.max (CacheManager.cache (CacheManager.restoreCritical now backup m))
     = LRUCache.max (CacheManager.cache m)
  /\ unaccounted (CacheManager.restoreCritical now backup m) = unaccounted m.
Proof.
  unfold CacheManager.restoreCritical.
  induction backup as [|[k v] backup IH]; intros m Hwf; [done|].
  cbn [fold_left fst snd].
  destruct (set_step now k v (Some 600000) CRITICAL m Hwf) as (Hwf' & Hm & Hu).
  destruct (IH _ Hwf') as (Hwf'' & Hm' & Hu').
  split_and!; [done | congruence | congruence].
Qed.

Lemma after_step m (c : CacheManager.call V) :
  well_formed m ->
  well_formed (CacheManager.after m c)
  /\ LRUCache.max (CacheManager.cache (CacheManager.after m c))
     = LRUCache.max (CacheManager.cache m)
  /\ unaccounted m <= unaccounted (CacheManager.after m c)
  /\ ((forall now, c <> CacheManager.CallOptimize now) ->
      unaccounted (CacheManager.after m c) = unaccounted m).
Proof.
  intros Hwf. destruct c as [now k v t p|now k|k| |now|now backup];
    cbn [CacheManager.after].
  - destruct (set_step now k v t p m Hwf) as (? & ? & ?).
    split_and!; try done; lia.
  - destruct (get_step now k m Hwf) as (? & ? & ?).
    split_and!; try done; lia.
  - destruct (delete_step k m Hwf) as (? & ? & ?).
    split_and!; try done; lia.
  - destruct (clear_step m Hwf) as (? & ? & ?).
    split_and!; try done; lia.
  - destruct (optimize_step_all now m Hwf) as (? & ? & ?).
    split_and!; try done; [lia|]. intros Hno. by destruct (Hno now).
  - destruct (restore_step now backup m Hwf) as (? & ? & ?).
    split_and!; try done; lia.
Qed.

Lemma after_all_steps (cs : list (CacheManager.call V)) : forall m,
  well_formed m ->
  well_formed (CacheManager.after_all m cs)
  /\ LRUCache.max (CacheManager.cache (CacheManager.after_all m cs))
     = LRUCache.max (CacheManager.cache m)
  /\ unaccounted m <= unaccounted (CacheManager.after_all m cs)
  /\ (Forall (fun call => forall now, call <> CacheManager.CallOptimize now) cs ->
      unaccounted (CacheManager.after_all m cs) = unaccounted m).
Proof.
  unfold CacheManager.after_all.
  induction cs as [|c cs IH]; intros m Hwf; cbn [fold_left].
  - split_and!; try done; lia.
  - destruct (after_step m c Hwf) as (Hwf' & Hm & Hle & Heq).
    destruct (IH _ Hwf') as (Hwf'' & Hm' & Hle' & Heq').
    split_and!; [done | congruence | lia |].
    intros [Hc Hcs]%Forall_cons. rewrite (Heq' Hcs). by apply Heq.
Qed.

Lemma create_well_formed (n : nat) (maxAge : Z) :
  (1 <= n)%nat ->
  well_formed (CacheManager.create (V := V) n maxAge)
  /\ unaccounted (CacheManager.create (V := V) n maxAge) = 0.
Proof.
  intros Hn. unfold CacheManager.well_formed, CacheManager.unaccounted. cbn. split_and!; try lia.
  constructor.
Qed.

(** X14. Whatever calls are made on a cache manager of capacity [n >= 1], it
    never holds more than [n] entries, and never two entries under one
    key. *)
Theorem capacity_never_exceeded (n : nat) (maxAge : Z)
    (cs : list (CacheManager.call V)) :
  (1 <= n)%nat ->
  (CacheManager.size
     (CacheManager.after_all (CacheManager.create n maxAge) cs) <= n)%nat
  /\ NoDup (keys (CacheManager.after_all (CacheManager.create n maxAge) cs)).
Proof.
  intros Hn. destruct (create_well_formed n maxAge Hn) as [Hwf _].
  destruct (after_all_steps cs _ Hwf) as ((Hnd & Hsz & _) & Hm & _).
  rewrite Hm in Hsz. by split.
Qed.

(** X15. The statistics account for every entry: as long as [optimize] is not
    called, the size of the cache is [sets] less [evictions], because
    [dispose] counts every removal, whatever its reason.  A call of
    [optimize] counts its removals twice, so that in general [sets] less
    [evictions] is at most the size. *)
Theorem eviction_accounting (n : nat) (maxAge : Z)
    (cs : list (CacheManager.call V)) :
  (1 <= n)%nat ->
  let m := CacheManager.after_all (CacheManager.create n maxAge) cs in
  CacheManager.sets (CacheManager.stats m)
  - CacheManager.evictions (CacheManager.stats m)
  <= Z.of_nat (CacheManager.size m)
  /\ (Forall (fun call => forall now, call <> CacheManager.CallOptimize now) cs ->
      Z.of_nat (CacheManager.size m)
      = CacheManager.sets (CacheManager.stats m)
        - CacheManager.evictions (CacheManager.stats m)).
Proof.
  intros Hn m. destruct (create_well_formed n maxAge Hn) as [Hwf H0].
  destruct (after_all_steps cs _ Hwf) as (_ & _ & Hle & Heq).
  fold m in Hle, Heq. rewrite H0 in Hle, Heq. unfold CacheManager.unaccounted in Hle, Heq.
  split; [lia|]. intros Hcs. specialize (Heq Hcs). lia.
Qed.

End CacheInvariants.

(** ** The sweep and the backup of the cache manager *)

Section SweepProperties.

Context {V : Type}.

Implicit Types (m : CacheManager.t V) (c : LRUCache.t (CacheManager.CacheEntry V)).
Implicit Types (k : jsstring) (l : list (LRUCache.item (CacheManager.CacheEntry V))).

#[local] Abbreviation keys_of l := (List.map LRUCache.i_key l).
#[local] Abbreviation keys m :=
  (List.map LRUCache.i_key (LRUCache.items (CacheManager.cache m))).

(** What a hit tells: the entry was there and not stale, and in the
    manager after the read it carries one more access. *)
Lemma get_hit_inv now k m (v : V) m' :
  CacheManager.get now k m = (Some v, m') -> NoDup (keys m) ->
  exists it it',
    LRUCache.find k (CacheManager.cache m) = Some it
    /\ LRUCache.find k (CacheManager.cache m') = Some it'
    /\ LRUCache.i_value it' = CacheManager.touch (LRUCache.i_value it)
    /\ NoDup (keys m').
Proof.
  intros Hget Hnd.
  destruct (LRUCache.find k (CacheManager.cache m)) as [it|] eqn:Hf.
  2:{ by rewrite (get_absent now k m Hf) in Hget. }
  destruct (LRUCache.isStale now it) eqn:Hs.
  { by rewrite (get_expired now k m it Hf Hs) in Hget. }
  rewrite (get_fresh now k m it Hf Hs) in Hget. injection Hget as _ <-.
  cbn [CacheManager.cache].
  eexists it, _. split; [done|]. split; [|split].
  - erewrite find_mutate by apply find_head. reflexivity.
  - reflexivity.
  - rewrite mutate_keys. cbn [LRUCache.items List.map LRUCache.i_key].
    apply NoDup_cons. split; [|by apply remove_NoDup].
    intros Hk%list_elem_of_In. by apply remove_notin in Hk.
Qed.

(** X16. An entry that was read twice is never removed by [optimize],
    whatever its priority and its age. *)
Theorem read_twice_survives_optimize now1 now2 now3 k m (v1 v2 : V) m1 m2 :
  NoDup (keys m) ->
  (forall it, LRUCache.find k (CacheManager.cache m) = Some it ->
              0 <= CacheManager.accessCount (LRUCache.i_value it)) ->
  CacheManager.get now1 k m = (Some v1, m1) ->
  CacheManager.get now2 k m1 = (Some v2, m2) ->
  In k (keys (CacheManager.optimize now3 m2)).
Proof.
  intros Hnd Hac Hg1 Hg2.
  destruct (get_hit_inv now1 k m v1 m1 Hg1 Hnd) as (it & it1 & Hf & Hf1 & Hv1 & Hnd1).
  destruct (get_hit_inv now2 k m1 v2 m2 Hg2 Hnd1)
    as (it1' & it2 & Hf1' & Hf2 & Hv2 & Hnd2).
  rewrite Hf1 in Hf1'. injection Hf1' as <-.
  destruct (optimize_exact now3 m2 Hnd2) as (Hi & _).
  rewrite Hi. apply find_item in Hf2 as [Hin <-].
  apply in_map, filter_In. split; [done|].
  unfold CacheManager.swept, CacheManager.is_candidate.
  rewrite Hv2, Hv1. cbn [CacheManager.touch CacheManager.accessCount].
  specialize (Hac it Hf).
  rewrite (proj2 (Z.ltb_ge _ 2)) by lia.
  by rewrite andb_false_r, andb_false_l, andb_false_r.
Qed.

(** X17. [optimize] counts every entry it removes twice in [evictions]: once
    through [dispose] and once by its own increment. *)
Theorem optimize_counts_twice now m :
  NoDup (keys m) ->
  CacheManager.evictions (CacheManager.stats (CacheManager.optimize now m))
  = CacheManager.evictions (CacheManager.stats m)
    + 2 * (Z.of_nat (CacheManager.size m)
           - Z.of_nat (CacheManager.size (CacheManager.optimize now m))).
Proof.
  intros Hnd. destruct (optimize_exact now m Hnd) as (Hi & _ & _ & Hs).
  unfold CacheManager.size, LRUCache.size. rewrite Hi, Hs.
  pose proof (filter_split_length (CacheManager.swept now)
                (LRUCache.items (CacheManager.cache m))) as Hlen.
  cbn [CacheManager.evictions]. lia.
Qed.

Lemma filter_filter_negb {A : Type} (P : A -> bool) (l : list A) :
  List.filter P (List.filter (fun x => negb (P x)) l) = [].
Proof.
  induction l as [|x l IH]; [done|]. cbn [List.filter].
  destruct (P x) eqn:E; cbn [negb List.filter]; [done|]. by rewrite E.
Qed.

(** A second [optimize] at the same moment finds nothing left to remove
    and changes nothing. *)
Lemma optimize_idempotent now m :
  NoDup (keys m) ->
  CacheManager.optimize now (CacheManager.optimize now m)
  = CacheManager.optimize now m.
Proof.
  intros Hnd. destruct (optimize_exact now m Hnd) as (Hi & _).
  unfold CacheManager.optimize at 1. rewrite candidates_swept, Hi.
  by rewrite filter_filter_negb.
Qed.

(** *** Backup and restore *)

Lemma fold_alist_set {A B : Type} (key : B -> jsstring) (val : B -> A)
    (P : B -> bool) (l : list B) : forall acc,
  NoDup (List.map fst acc ++ List.map key l) ->
  fold_left (fun backup x => if P x then alist_set (key x) (val x) backup
                             else backup) l acc
  = acc ++ List.map (fun x => (key x, val x)) (List.filter P l).
Proof.
  induction l as [|x l IH]; intros acc Hnd; cbn [fold_left List.filter List.map].
  - by rewrite app_nil_r.
  - cbn [List.map] in Hnd.
    assert (Hx : key x ∉ List.map fst acc).
    { apply NoDup_app in Hnd as (_ & Hd & _). intros Hin.
      apply (Hd _ Hin). apply elem_of_cons. by left. }
    assert (Hrest : NoDup (List.map fst acc ++ List.map key l)).
    { apply NoDup_app in Hnd as (Ha & Hd & [_ Hl]%NoDup_cons).
      apply NoDup_app. split; [done|]. split; [|done].
      intros y Hy Hy'. apply (Hd y Hy). apply elem_of_cons. by right. }
    destruct (P x).
    + rewrite alist_set_fresh by done. rewrite IH.
      * cbn [List.map]. by rewrite <- app_assoc.
      * rewrite map_app. cbn [List.map fst]. rewrite <- app_assoc. cbn [app].
        apply NoDup_app in Hnd as (Ha & Hd & [Hxl Hl]%NoDup_cons).
        apply NoDup_app. split; [done|]. split.
        -- intros y Hy Hy'. by apply (Hd y Hy).
        -- by apply NoDup_cons.
    + by apply IH.
Qed.

(** A backup holds exactly the entries of priority CRITICAL that have not
    expired, each key with its value. *)
Lemma backupCritical_items now m :
  NoDup (keys m) ->
  CacheManager.backupCritical now m
  = List.map
      (fun it => (LRUCache.i_key it, CacheManager.value (LRUCache.i_value it)))
      (List.filter
         (fun it => negb (LRUCache.isStale now it)
                    && Priority_eqb
                         (CacheManager.priority (LRUCache.i_value it)) CRITICAL)
         (LRUCache.items (CacheManager.cache m))).
Proof.
  intros Hnd. unfold CacheManager.backupCritical, LRUCache.entries.
  rewrite (fold_alist_set fst (fun ke => CacheManager.value ke.2)
             (fun ke => Priority_eqb (CacheManager.priority ke.2) CRITICAL)).
  - cbn [app]. induction (LRUCache.items (CacheManager.cache m)) as [|it l IH];
      [done|].
    cbn [List.filter]. destruct (LRUCache.isStale now it); cbn [negb andb].
    + apply IH. cbn [List.map] in Hnd. by apply NoDup_cons in Hnd as [_ ?].
    + cbn [List.map List.filter fst snd].
      cbn [List.map] in Hnd. apply NoDup_cons in Hnd as [_ Hnd].
      destruct (Priority_eqb _ _); cbn [List.map fst snd]; by rewrite IH.
  - cbn [List.map app]. rewrite List.map_map. cbn [fst].
    by apply NoDup_filter_items.
Qed.

(** The item [restoreCritical] stores for a pair of a backup. *)
#[local] Abbreviation restored now :=
  (fun kv : jsstring * V =>
     LRUCache.mk_item kv.1
       (CacheManager.mk_entry kv.1 kv.2 now 600000 0 CRITICAL) now 600000).

Lemma restoreCritical_items now (backup : list (jsstring * V)) : forall m,
  NoDup (List.map fst backup ++ keys m) ->
  (CacheManager.size m + length backup
   <= LRUCache.max (CacheManager.cache m))%nat ->
  LRUCache.items (CacheManager.cache (CacheManager.restoreCritical now backup m))
  = rev (List.map (restored now) backup) ++ LRUCache.items (CacheManager.cache m).
Proof.
  unfold CacheManager.restoreCritical, CacheManager.size, LRUCache.size.
  induction backup as [|[k v] backup IH]; intros m Hnd Hlen; [done|].
  cbn [fold_left fst snd List.map rev length] in *.
  apply NoDup_cons in Hnd as [Hk Hnd].
  assert (Hnin : ~ In k (keys m)).
  { intros Hin. apply Hk, elem_of_app. right. by apply list_elem_of_In. }
  assert (Hset : LRUCache.items
                   (CacheManager.cache
                      (CacheManager.set now k v (Some 600000) CRITICAL m))
                 = restored now (k, v) :: LRUCache.items (CacheManager.cache m)
                 /\ LRUCache.max
                      (CacheManager.cache
                         (CacheManager.set now k v (Some 600000) CRITICAL m))
                    = LRUCache.max (CacheManager.cache m)).
  { rewrite cache_set. unfold LRUCache.set, LRUCache.size.
    rewrite (find_None_notin k _ Hnin).
    destruct (rev (LRUCache.items (CacheManager.cache m))) as [|lru others] eqn:Hr.
    - apply (f_equal (@rev _)) in Hr. rewrite rev_involutive in Hr.
      cbn [rev] in Hr. rewrite Hr. done.
    - destruct (Nat.eqb_spec (length (LRUCache.items (CacheManager.cache m)))
                  (LRUCache.max (CacheManager.cache m))); [lia|done]. }
  destruct Hset as [Hitems Hmax].
  rewrite IH.
  - rewrite Hitems, <- app_assoc. reflexivity.
  - rewrite Hitems. cbn [List.map LRUCache.i_key fst].
    apply NoDup_app in Hnd as (Hb & Hd & Hm).
    apply NoDup_app. split; [done|]. split.
    + intros x Hx [->|Hx']%elem_of_cons.
      * apply Hk, elem_of_app. by left.
      * by apply (Hd x).
    + apply NoDup_cons. split; [|done].
      intros Hin. apply Hk, elem_of_app. by right.
  - rewrite Hitems, Hmax. cbn [length]. lia.
Qed.

(** X18. A backup restored into a fresh manager that has room for it, and
    backed up again before the ten minutes of the restored entries have
    passed, gives the pairs of the first backup, in the reverse order:
    the last pair restored is the most recently used entry. *)
Theorem backup_restore_round_trip now now' (n : nat) (maxAge : Z)
    (backup : list (jsstring * V)) :
  NoDup (List.map fst backup) -> (length backup <= n)%nat ->
  now' - now <= 600000 ->
  CacheManager.backupCritical now'
    (CacheManager.restoreCritical now backup (CacheManager.create n maxAge))
  = rev backup.
Proof.
  intros Hnd Hlen Hage.
  pose proof (restoreCritical_items now backup (CacheManager.create n maxAge))
    as Hitems.
  cbn [CacheManager.create CacheManager.cache LRUCache.create LRUCache.items
       LRUCache.max CacheManager.size LRUCache.size length List.map] in Hitems.
  rewrite !app_nil_r in Hitems. specialize (Hitems Hnd Hlen).
  rewrite backupCritical_items, Hitems.
  - rewrite <- map_rev. clear Hitems Hnd Hlen.
    induction (rev backup) as [|[k v] l IH]; [done|].
    cbn [List.map List.filter fst snd].
    unfold LRUCache.isStale at 1.
    cbn [LRUCache.i_ttl LRUCache.i_start LRUCache.i_value CacheManager.priority
         Priority_eqb].
    rewrite (proj2 (Z.ltb_ge _ _)) by lia. rewrite andb_false_r.
    cbn [negb andb List.map LRUCache.i_key LRUCache.i_value CacheManager.value].
    by rewrite IH.
  - rewrite Hitems, <- map_rev, List.map_map. cbn [LRUCache.i_key].
    rewrite map_rev. by apply NoDup_ListNoDup, List.NoDup_rev, NoDup_ListNoDup.
Qed.

(** *** Least recently used *)

(** X19. A read makes an entry the most recently used one: when the cache is
    full, with room for at least two entries, the next new key evicts
    another entry, not the one that was just read. *)
Theorem read_protects_from_eviction now now' k k' (v v' : V) t p m m1 :
  NoDup (keys m) ->
  CacheManager.size m = LRUCache.max (CacheManager.cache m) ->
  (2 <= LRUCache.max (CacheManager.cache m))%nat ->
  CacheManager.get now k m = (Some v, m1) ->
  ~ In k' (keys m) ->
  In k (keys (CacheManager.set now' k' v' t p m1))
  /\ CacheManager.size (CacheManager.set now' k' v' t p m1)
     = LRUCache.max (CacheManager.cache m)
  /\ CacheManager.evictions
       (CacheManager.stats (CacheManager.set now' k' v' t p m1))
     = CacheManager.evictions (CacheManager.stats m) + 1.
Proof.
  intros Hnd Hfull Hmax Hget Hk'. unfold CacheManager.size, LRUCache.size in *.
  destruct (LRUCache.find k (CacheManager.cache m)) as [it|] eqn:Hf.
  2:{ by rewrite (get_absent now k m Hf) in Hget. }
  destruct (LRUCache.isStale now it) eqn:Hs.
  { by rewrite (get_expired now k m it Hf Hs) in Hget. }
  rewrite (get_fresh now k m it Hf Hs) in Hget. injection Hget as _ <-.
  assert (Hin : In k (keys m)) by (apply find_is_Some; by exists it).
  pose proof (remove_length_present k _ Hnd Hin) as Hlen.
  set (m1 := CacheManager.mk _ _).
  assert (Hitems : exists it1 rest,
    LRUCache.items (CacheManager.cache m1) = it1 :: rest
    /\ LRUCache.i_key it1 = k
    /\ keys_of rest = keys_of (LRUCache.remove k (LRUCache.items (CacheManager.cache m)))).
  { unfold m1. cbn [CacheManager.cache LRUCache.mutate LRUCache.items List.map].
    rewrite has_key_refl. eexists _, _. split; [reflexivity|]. split; [done|].
    change (keys_of (LRUCache.items
              (LRUCache.mutate k CacheManager.touch
                 (LRUCache.mk (LRUCache.max (CacheManager.cache m))
                    (LRUCache.ttl (CacheManager.cache m))
                    (LRUCache.remove k (LRUCache.items (CacheManager.cache m))))))
            = keys_of (LRUCache.remove k (LRUCache.items (CacheManager.cache m)))).
    apply mutate_keys. }
  destruct Hitems as (it1 & rest & Hitems & Hk1 & Hrest).
  assert (Hlrest : S (length rest) = length (LRUCache.items (CacheManager.cache m))).
  { rewrite <- Hlen. f_equal.
    by rewrite <- (length_map LRUCache.i_key rest), Hrest, length_map. }
  destruct (rev rest) as [|lru tini] eqn:Hrev.
  { apply (f_equal (@rev _)) in Hrev. rewrite rev_involutive in Hrev.
    subst rest. cbn in Hlrest. lia. }
  apply (f_equal (@rev _)) in Hrev. rewrite rev_involutive in Hrev.
  cbn [rev] in Hrev.
  destruct (set_new_full now' k' v' t p m1 (it1 :: rev tini) lru)
    as (Hkeys & Hev).
  - rewrite Hitems. cbn [List.map In]. rewrite Hk1, Hrest.
    intros [->|Hin']; [done|]. by apply remove_sub in Hin'.
  - by rewrite Hitems, Hrev.
  - rewrite Hitems. cbn [length]. unfold m1.
    cbn [CacheManager.cache LRUCache.max LRUCache.mutate]. lia.
  - split; [|split].
    + rewrite Hkeys. cbn [List.map In]. right. by left.
    + rewrite <- (length_map LRUCache.i_key), Hkeys. cbn [List.map length].
      rewrite length_map, <- Hfull, <- Hlrest, Hrev, length_app. cbn [length].
      lia.
    + rewrite Hev. unfold m1. by cbn.
Qed.

End SweepProperties.

(** *** The cache manager at sample inputs *)

(** A value set at time 1000 with the default time to live and read at
    time 301000, the last moment of its life. *)
Lemma set_then_get_witness :
  (CacheManager.get 301000 (str "k")
     (CacheManager.set 1000 (str "k") (VInt 7) None NORMAL
        (CacheManager.create 10 300000))).1 = Some (VInt 7)
  /\ CacheManager.has 301000 (str "k")
       (CacheManager.set 1000 (str "k") (VInt 7) None NORMAL
          (CacheManager.create 10 300000)) = true
  /\ CacheManager.hits
       (CacheManager.stats
          (CacheManager.get 301000 (str "k")
             (CacheManager.set 1000 (str "k") (VInt 7) None NORMAL
                (CacheManager.create 10 300000))).2)
     = CacheManager.hits
         (CacheManager.stats (CacheManager.create (V := value) 10 300000)) + 1
  /\ CacheManager.misses
       (CacheManager.stats
          (CacheManager.get 301000 (str "k")
             (CacheManager.set 1000 (str "k") (VInt 7) None NORMAL
                (CacheManager.create 10 300000))).2)
     = CacheManager.misses
         (CacheManager.stats (CacheManager.create (V := value) 10 300000)).
Proof.
  apply (set_then_get 1000 301000 (str "k") (VInt 7) None NORMAL
           (CacheManager.create 10 300000)).
  vm_compute. discriminate.
Defined.

(** The same value read one millisecond later. *)
Lemma get_after_expiry_witness :
  (CacheManager.get 301001 (str "k")
     (CacheManager.set 1000 (str "k") (VInt 7) None NORMAL
        (CacheManager.create 10 300000))).1 = None
  /\ CacheManager.has 301001 (str "k")
       (CacheManager.set 1000 (str "k") (VInt 7) None NORMAL
          (CacheManager.create 10 300000)) = false
  /\ LRUCache.find (str "k")
       (CacheManager.cache
          (CacheManager.get 301001 (str "k")
             (CacheManager.set 1000 (str "k") (VInt 7) None NORMAL
                (CacheManager.create 10 300000))).2) = None
  /\ CacheManager.misses
       (CacheManager.stats
          (CacheManager.get 301001 (str "k")
             (CacheManager.set 1000 (str "k") (VInt 7) None NORMAL
                (CacheManager.create 10 300000))).2)
     = CacheManager.misses
         (CacheManager.stats (CacheManager.create (V := value) 10 300000)) + 1
  /\ CacheManager.evictions
       (CacheManager.stats
          (CacheManager.get 301001 (str "k")
             (CacheManager.set 1000 (str "k") (VInt 7) None NORMAL
                (CacheManager.create 10 300000))).2)
     = CacheManager.evictions
         (CacheManager.stats
            (CacheManager.set 1000 (str "k") (VInt 7) None NORMAL
               (CacheManager.create 10 300000))) + 1.
Proof.
  apply (get_after_expiry 1000 301001 (str "k") (VInt 7) None NORMAL
           (CacheManager.create 10 300000)).
  - discriminate.
  - vm_compute. reflexivity.
Defined.

(** A value set at time 1000, read at time 300000 and looked up at time
    600000, which is 599 seconds after it was set. *)
Lemma read_extends_life_witness :
  CacheManager.has 600000 (str "a")
    (CacheManager.get 300000 (str "a")
       (CacheManager.set 1000 (str "a") (VInt 1) None LOW
          (CacheManager.create 10 300000))).2 = true.
Proof.
  apply (read_extends_life 1000 300000 600000 (str "a") (VInt 1) None LOW
           (CacheManager.create 10 300000)).
  - vm_compute. discriminate.
  - vm_compute. discriminate.
Defined.

(** The key "a" of the sample cache set again. *)
Lemma overwrite_counts_as_eviction_witness :
  CacheManager.evictions
    (CacheManager.stats
       (CacheManager.set 3000 (str "a") (VInt 5) None LOW Sample.two_entries))
  = CacheManager.evictions (CacheManager.stats Sample.two_entries) + 1
  /\ CacheManager.sets
       (CacheManager.stats
          (CacheManager.set 3000 (str "a") (VInt 5) None LOW Sample.two_entries))
     = CacheManager.sets (CacheManager.stats Sample.two_entries) + 1
  /\ CacheManager.size
       (CacheManager.set 3000 (str "a") (VInt 5) None LOW Sample.two_entries)
     = CacheManager.size Sample.two_entries
  /\ List.map LRUCache.i_key
       (LRUCache.items
          (CacheManager.cache
             (CacheManager.set 3000 (str "a") (VInt 5) None LOW
                Sample.two_entries)))
     = str "a"
       :: List.filter (fun k' => negb (bool_decide (k' = str "a")))
            (List.map LRUCache.i_key
               (LRUCache.items (CacheManager.cache Sample.two_entries))).
Proof.
  apply (overwrite_counts_as_eviction 3000 (str "a") (VInt 5) None LOW
           Sample.two_entries).
  - apply (bool_decide_unpack _). vm_compute. exact I.
  - vm_compute. tauto.
Defined.

(** Three sets, a read, a sweep and a delete on a manager of capacity 2. *)
Lemma capacity_never_exceeded_witness :
  (CacheManager.size
     (CacheManager.after_all (CacheManager.create 2 300000)
        [CacheManager.CallSet 1000 (str "a") (VInt 1) None LOW;
         CacheManager.CallSet 2000 (str "b") (VInt 2) None HIGH;
         CacheManager.CallSet 3000 (str "c") (VInt 3) None LOW;
         CacheManager.CallGet 4000 (str "b");
         CacheManager.CallOptimize 200000;
         CacheManager.CallDelete (str "b")]) <= 2)%nat
  /\ NoDup
       (List.map LRUCache.i_key
          (LRUCache.items
             (CacheManager.cache
                (CacheManager.after_all (CacheManager.create 2 300000)
                   [CacheManager.CallSet 1000 (str "a") (VInt 1) None LOW;
                    CacheManager.CallSet 2000 (str "b") (VInt 2) None HIGH;
                    CacheManager.CallSet 3000 (str "c") (VInt 3) None LOW;
                    CacheManager.CallGet 4000 (str "b");
                    CacheManager.CallOptimize 200000;
                    CacheManager.CallDelete (str "b")])))).
Proof.
  apply (capacity_never_exceeded 2 300000
           [CacheManager.CallSet 1000 (str "a") (VInt 1) None LOW;
            CacheManager.CallSet 2000 (str "b") (VInt 2) None HIGH;
            CacheManager.CallSet 3000 (str "c") (VInt 3) None LOW;
            CacheManager.CallGet 4000 (str "b");
            CacheManager.CallOptimize 200000;
            CacheManager.CallDelete (str "b")]).
  lia.
Defined.

(** Three sets into a manager of capacity 2, an overwrite, an expired
    read and a delete: one entry is left, of 4 sets and 3 evictions. *)
Lemma eviction_accounting_witness :
  CacheManager.sets
    (CacheManager.stats
       (CacheManager.after_all (CacheManager.create 2 300000)
          [CacheManager.CallSet 1000 (str "a") (VInt 1) None LOW;
           CacheManager.CallSet 2000 (str "b") (VInt 2) None HIGH;
           CacheManager.CallSet 3000 (str "c") (VInt 3) None LOW;
           CacheManager.CallSet 4000 (str "c") (VInt 4) None LOW;
           CacheManager.CallGet 400000 (str "b")]))
  - CacheManager.evictions
      (CacheManager.stats
         (CacheManager.after_all (CacheManager.create 2 300000)
            [CacheManager.CallSet 1000 (str "a") (VInt 1) None LOW;
             CacheManager.CallSet 2000 (str "b") (VInt 2) None HIGH;
             CacheManager.CallSet 3000 (str "c") (VInt 3) None LOW;
             CacheManager.CallSet 4000 (str "c") (VInt 4) None LOW;
             CacheManager.CallGet 400000 (str "b")]))
  <= Z.of_nat
       (CacheManager.size
          (CacheManager.after_all (CacheManager.create 2 300000)
             [CacheManager.CallSet 1000 (str "a") (VInt 1) None LOW;
              CacheManager.CallSet 2000 (str "b") (VInt 2) None HIGH;
              CacheManager.CallSet 3000 (str "c") (VInt 3) None LOW;
              CacheManager.CallSet 4000 (str "c") (VInt 4) None LOW;
              CacheManager.CallGet 400000 (str "b")]))
  /\ Z.of_nat
       (CacheManager.size
          (CacheManager.after_all (CacheManager.create 2 300000)
             [CacheManager.CallSet 1000 (str "a") (VInt 1) None LOW;
              CacheManager.CallSet 2000 (str "b") (VInt 2) None HIGH;
              CacheManager.CallSet 3000 (str "c") (VInt 3) None LOW;
              CacheManager.CallSet 4000 (str "c") (VInt 4) None LOW;
              CacheManager.CallGet 400000 (str "b")]))
     = CacheManager.sets
         (CacheManager.stats
            (CacheManager.after_all (CacheManager.create 2 300000)
               [CacheManager.CallSet 1000 (str "a") (VInt 1) None LOW;
                CacheManager.CallSet 2000 (str "b") (VInt 2) None HIGH;
                CacheManager.CallSet 3000 (str "c") (VInt 3) None LOW;
                CacheManager.CallSet 4000 (str "c") (VInt 4) None LOW;
                CacheManager.CallGet 400000 (str "b")]))
       - CacheManager.evictions
           (CacheManager.stats
              (CacheManager.after_all (CacheManager.create 2 300000)
                 [CacheManager.CallSet 1000 (str "a") (VInt 1) None LOW;
                  CacheManager.CallSet 2000 (str "b") (VInt 2) None HIGH;
                  CacheManager.CallSet 3000 (str "c") (VInt 3) None LOW;
                  CacheManager.CallSet 4000 (str "c") (VInt 4) None LOW;
                  CacheManager.CallGet 400000 (str "b")])).
Proof.
  destruct (eviction_accounting 2 300000
              [CacheManager.CallSet 1000 (str "a") (VInt 1) None LOW;
               CacheManager.CallSet 2000 (str "b") (VInt 2) None HIGH;
               CacheManager.CallSet 3000 (str "c") (VInt 3) None LOW;
               CacheManager.CallSet 4000 (str "c") (VInt 4) None LOW;
               CacheManager.CallGet 400000 (str "b")]) as [Hle Heq]; [lia|].
  split; [exact Hle|]. apply Heq.
  repeat constructor; discriminate.
Defined.

(** The LOW entry "a" of the sample cache, read twice and then swept at
    a time at which it would otherwise go. *)
Lemma read_twice_survives_optimize_witness :
  In (str "a")
     (List.map LRUCache.i_key
        (LRUCache.items
           (CacheManager.cache
              (CacheManager.optimize 200000
                 (CacheManager.get 4000 (str "a")
                    (CacheManager.get 3000 (str "a") Sample.two_entries).2).2)))).
Proof.
  apply (read_twice_survives_optimize 3000 4000 200000 (str "a")
           Sample.two_entries (VInt 1) (VInt 1)
           (CacheManager.get 3000 (str "a") Sample.two_entries).2
           (CacheManager.get 4000 (str "a")
              (CacheManager.get 3000 (str "a") Sample.two_entries).2).2).
  - apply (bool_decide_unpack _). vm_compute. exact I.
  - intros it Hit. vm_compute in Hit. injection Hit as <-. vm_compute.
    discriminate.
  - vm_compute. reflexivity.
  - vm_compute. reflexivity.
Defined.

(** The sample cache swept at time 200000: one entry goes, and
    [evictions] rises by 2. *)
Lemma optimize_counts_twice_witness :
  CacheManager.evictions
    (CacheManager.stats (CacheManager.optimize 200000 Sample.two_entries))
  = CacheManager.evictions (CacheManager.stats Sample.two_entries)
    + 2 * (Z.of_nat (CacheManager.size Sample.two_entries)
           - Z.of_nat
               (CacheManager.size
                  (CacheManager.optimize 200000 Sample.two_entries))).
Proof.
  apply (optimize_counts_twice 200000 Sample.two_entries).
  apply (bool_decide_unpack _). vm_compute. exact I.
Defined.

(** A backup of two pairs restored at time 1000 and backed up again at
    time 5000. *)
Lemma backup_restore_round_trip_witness :
  CacheManager.backupCritical 5000
    (CacheManager.restoreCritical 1000
       [(str "x", VInt 1); (str "y", VBool true)]
       (CacheManager.create 10 300000))
  = rev [(str "x", VInt 1); (str "y", VBool true)].
Proof.
  apply (backup_restore_round_trip 1000 5000 10 300000
           [(str "x", VInt 1); (str "y", VBool true)]).
  - apply (bool_decide_unpack _). vm_compute. exact I.
  - cbn. lia.
  - lia.
Defined.

(** A full cache of two entries: "a" is read, then "c" is set. *)
Lemma read_protects_from_eviction_witness :
  In (str "a")
     (List.map LRUCache.i_key
        (LRUCache.items
           (CacheManager.cache
              (CacheManager.set 4000 (str "c") (VInt 3) None NORMAL
                 (CacheManager.get 3000 (str "a")
                    (CacheManager.set 2000 (str "b") (VInt 2) None HIGH
                       (CacheManager.set 1000 (str "a") (VInt 1) None LOW
                          (CacheManager.create 2 300000)))).2))))
  /\ CacheManager.size
       (CacheManager.set 4000 (str "c") (VInt 3) None NORMAL
          (CacheManager.get 3000 (str "a")
             (CacheManager.set 2000 (str "b") (VInt 2) None HIGH
                (CacheManager.set 1000 (str "a") (VInt 1) None LOW
                   (CacheManager.create 2 300000)))).2) = 2%nat
  /\ CacheManager.evictions
       (CacheManager.stats
          (CacheManager.set 4000 (str "c") (VInt 3) None NORMAL
             (CacheManager.get 3000 (str "a")
                (CacheManager.set 2000 (str "b") (VInt 2) None HIGH
                   (CacheManager.set 1000 (str "a") (VInt 1) None LOW
                      (CacheManager.create 2 300000)))).2))
     = 0 + 1.
Proof.
  apply (read_protects_from_eviction 3000 4000 (str "a") (str "c") (VInt 1)
           (VInt 3) None NORMAL
           (CacheManager.set 2000 (str "b") (VInt 2) None HIGH
              (CacheManager.set 1000 (str "a") (VInt 1) None LOW
                 (CacheManager.create 2 300000)))).
  - apply (bool_decide_unpack _). vm_compute. exact I.
  - reflexivity.
  - vm_compute. lia.
  - vm_compute. reflexivity.
  - vm_compute. intuition discriminate.
Defined.

(** ** Keys and arrays in the token optimizer *)

Section KeyProperties.

Variable unicode_toLowerCase : jsstring -> jsstring.
Variable deflateSync : Buffer -> result Buffer.
Variable inflateSync : Buffer -> result Buffer.
Variable base64_encode : Buffer -> jsstring.
Variable base64_decode : jsstring -> Buffer.

#[local] Abbreviation compress :=
  (TokenOptimizer.compress unicode_toLowerCase deflateSync base64_encode).
#[local] Abbreviation decompress :=
  (TokenOptimizer.decompress inflateSync base64_decode).
#[local] Abbreviation compressKey :=
  (TokenOptimizer.compressKey unicode_toLowerCase).
#[local] Abbreviation decompressKey := TokenOptimizer.decompressKey.

(** X20. Every term of the table is compressed to its abbreviation as a key,
    and every abbreviated key is expanded to its term again, with one
    exception: "response" and "result" share the abbreviation "res",
    which is expanded to "result", the later of the two in the table. *)
Theorem abbreviation_keys_round_trip full abbrev :
  In (full, abbrev) TokenOptimizer.commonTerms ->
  compressKey full = abbrev
  /\ (full <> str "response" -> decompressKey (compressKey full) = full)
  /\ decompressKey (compressKey (str "response")) = str "result".
Proof.
  intros Hin. cbn [TokenOptimizer.commonTerms In] in Hin.
  repeat (destruct Hin as [[= <- <-]|Hin];
          [split; [vm_compute; reflexivity|];
           split; [intros Hne; try (by destruct Hne); vm_compute; reflexivity
                  | vm_compute; reflexivity]|]).
  destruct Hin.
Qed.

(** *** Keys that are array indices *)

Lemma uint_chars_digits d : forallb is_digit (uint_chars d) = true.
Proof. induction d; cbn [uint_chars forallb]; by rewrite ?IHd. Qed.

Lemma uint_chars_nonnil d : d <> Decimal.Nil -> uint_chars d <> [].
Proof. by destruct d. Qed.

Lemma uint_chars_inj d d' : uint_chars d = uint_chars d' -> d = d'.
Proof.
  revert d'. induction d; intros d'; destruct d'; cbn [uint_chars];
    try discriminate; try reflexivity;
    intros [= H]; f_equal; by apply IHd.
Qed.

Lemma decimal_digits n : forallb is_digit (decimal n) = true.
Proof. apply uint_chars_digits. Qed.

Lemma decimal_nonnil n : decimal n <> [].
Proof.
  apply uint_chars_nonnil. destruct n as [|p]; [discriminate|].
  apply Unsigned.to_uint_nonnil.
Qed.

Lemma decimal_inj n n' : decimal n = decimal n' -> n = n'.
Proof. intros H%uint_chars_inj. by apply DecimalN.Unsigned.to_uint_inj. Qed.

Lemma is_digit_range c : is_digit c = true -> 48 <= c <= 57.
Proof. unfold is_digit. apply in_range_true. Qed.

Lemma alist_get_other_initial {A : Type} k (m : list (jsstring * A)) :
  forallb (fun kv => match kv.1 with
                     | c :: _ => negb (is_digit c)
                     | [] => true
                     end) m = true ->
  (exists c k', k = c :: k' /\ is_digit c = true) ->
  TokenOptimizer.alist_get k m = None.
Proof.
  intros Hm (c & k' & -> & Hc). unfold TokenOptimizer.alist_get.
  induction m as [|[k0 x] m IH]; [done|].
  cbn [forallb fst] in Hm. apply andb_true_iff in Hm as [Hk0 Hm].
  cbn [List.find fst]. rewrite bool_decide_eq_false_2.
  - by apply IH.
  - intros ->. by rewrite Hc in Hk0.
Qed.

Lemma snake_case_digits k : forallb is_digit k = true -> snake_case k = k.
Proof.
  induction k as [|c k IH]; [done|]. cbn [forallb].
  intros [Hc Hk]%andb_true_iff. cbn [snake_case]. destruct k as [|d k']; [done|].
  assert (is_lower c = false) as ->.
  { apply is_digit_range in Hc. apply in_range_false. lia. }
  cbn [andb]. by rewrite IH.
Qed.

Lemma toLowerCase_digits k :
  forallb is_digit k = true ->
  TokenOptimizer.toLowerCase unicode_toLowerCase k = k.
Proof.
  intros Hk. unfold TokenOptimizer.toLowerCase.
  assert (forallb is_ascii k = true) as ->.
  { apply forallb_forall. intros c Hc.
    apply (proj1 (forallb_forall _ _) Hk), is_digit_range in Hc.
    apply in_range_true. lia. }
  induction k as [|c k IH]; [done|]. cbn [forallb] in Hk.
  apply andb_true_iff in Hk as [Hc Hk]. cbn [List.map].
  rewrite IH by done. f_equal. unfold ascii_lower.
  assert (is_upper c = false) as ->; [|done].
  apply is_digit_range in Hc. apply in_range_false. lia.
Qed.

Lemma replace_prefix_digit a p r c k :
  is_digit c = true -> is_digit a = false ->
  replace_prefix (a :: p) r (c :: k) = c :: k.
Proof.
  intros Hc Ha. unfold replace_prefix. cbn [startsWith].
  destruct (Z.eqb_spec a c) as [->|]; [congruence|done].
Qed.

Lemma replace_suffix_digit a p r k :
  forallb is_digit k = true -> is_digit a = false ->
  replace_suffix (p ++ [a]) r k = k.
Proof.
  intros Hk Ha. unfold replace_suffix. rewrite rev_app_distr. cbn [rev app].
  destruct (rev k) as [|c k'] eqn:Hr.
  - unfold replace_prefix. cbn [startsWith]. rewrite <- Hr.
    apply rev_involutive.
  - rewrite replace_prefix_digit; [|..|done].
    + rewrite <- Hr. apply rev_involutive.
    + apply (proj1 (forallb_forall _ _) Hk), in_rev. rewrite Hr. by left.
Qed.

Lemma camel_case_digits k :
  forallb is_digit k = true -> camel_case false k = k.
Proof.
  induction k as [|c k IH]; [done|]. cbn [forallb camel_case].
  intros [Hc Hk]%andb_true_iff.
  destruct (Z.eqb_spec c 95) as [->|_]; [done|]. by rewrite IH.
Qed.

(** A key that is an array index is left as it is by [compressKey] and
    by [decompressKey]. *)
Lemma index_key_unchanged n :
  compressKey (decimal n) = decimal n
  /\ decompressKey (decimal n) = decimal n.
Proof.
  pose proof (decimal_digits n) as Hd. pose proof (decimal_nonnil n) as Hn.
  assert (Hhead : exists c k', decimal n = c :: k' /\ is_digit c = true).
  { destruct (decimal n) as [|c k']; [done|]. exists c, k'. split; [done|].
    cbn [forallb] in Hd. by apply andb_true_iff in Hd as [? _]. }
  split.
  - unfold TokenOptimizer.compressKey.
    rewrite (alist_get_other_initial (decimal n) TokenOptimizer.abbreviations)
      by (exact Hhead || (vm_compute; reflexivity)).
    rewrite snake_case_digits, toLowerCase_digits by done.
    destruct Hhead as (c & k' & Hk & Hc). rewrite Hk in Hd |- *.
    change (str "get_") with (103 :: str "et_").
    change (str "set_") with (115 :: str "et_").
    change (str "is_") with (105 :: str "s_").
    change (str "has_") with (104 :: str "as_").
    rewrite !(replace_prefix_digit _ _ _ c k') by done.
    change (str "_id") with (str "_i" ++ [100]).
    change (str "_name") with (str "_nam" ++ [101]).
    change (str "_type") with (str "_typ" ++ [101]).
    change (str "_value") with (str "_valu" ++ [101]).
    change (str "_data") with (str "_dat" ++ [97]).
    change (str "_info") with (str "_inf" ++ [111]).
    change (str "_config") with (str "_confi" ++ [103]).
    change (str "_result") with (str "_resul" ++ [116]).
    by rewrite !(replace_suffix_digit _ _ _ (c :: k')) by done.
  - unfold TokenOptimizer.decompressKey.
    rewrite (alist_get_other_initial (decimal n)
               TokenOptimizer.reverseAbbreviations)
      by (exact Hhead || (vm_compute; reflexivity)).
    destruct Hhead as (c & k' & Hk & Hc). rewrite Hk in Hd |- *.
    change (str "g_") with (103 :: str "_").
    change (str "s_") with (115 :: str "_").
    change (str "i_") with (105 :: str "_").
    change (str "h_") with (104 :: str "_").
    rewrite !(replace_prefix_digit _ _ _ c k') by done.
    change (str "_i") with (str "_" ++ [105]).
    change (str "_n") with (str "_" ++ [110]).
    change (str "_t") with (str "_" ++ [116]).
    change (str "_v") with (str "_" ++ [118]).
    change (str "_d") with (str "_" ++ [100]).
    change (str "_inf") with (str "_in" ++ [102]).
    change (str "_cfg") with (str "_cf" ++ [103]).
    change (str "_res") with (str "_re" ++ [115]).
    rewrite !(replace_suffix_digit _ _ _ (c :: k')) by done.
    by apply camel_case_digits.
Qed.

Lemma index_keys_found {A : Type} (g : nat -> N) (l : list A) k :
  In k (List.map fst (imap (fun i x => (decimal (g i), x)) l)) ->
  exists i, k = decimal (g i).
Proof.
  revert g. induction l as [|x l IH]; intros g; cbn [imap List.map In fst];
    [done|].
  intros [<-|Hin]; [by exists 0%nat|].
  apply (IH (g ∘ S)) in Hin as [i ->]. by exists (S i).
Qed.

Lemma index_keys_NoDup {A : Type} (g : nat -> N) (l : list A) :
  (forall i j, g i = g j -> i = j) ->
  NoDup (List.map fst (imap (fun i x => (decimal (g i), x)) l)).
Proof.
  revert g. induction l as [|x l IH]; intros g Hg; cbn [imap List.map fst];
    [constructor|].
  apply NoDup_cons. split.
  - intros Hin%list_elem_of_In%(index_keys_found (g ∘ S)).
    destruct Hin as [i Hi]. apply decimal_inj, Hg in Hi. discriminate.
  - apply (IH (g ∘ S)). intros i j Hij. apply Hg in Hij. by injection Hij.
Qed.

Lemma index_keys_map {A : Type} (f : jsstring -> jsstring) (g : nat -> N)
    (l : list A) :
  (forall n, f (decimal n) = decimal n) ->
  List.map (fun kv => (f kv.1, kv.2)) (imap (fun i x => (decimal (g i), x)) l)
  = imap (fun i x => (decimal (g i), x)) l.
Proof.
  intros Hf. revert g. induction l as [|x l IH]; intros g;
    cbn [imap List.map fst snd]; [done|].
  rewrite Hf. f_equal. apply (IH (g ∘ S)).
Qed.

Lemma fold_index_keys (f : jsstring -> jsstring) (l : list value) :
  (forall n, f (decimal n) = decimal n) ->
  fold_left (fun o kv => obj_set (f kv.1) kv.2 o) (array_entries l) []
  = array_entries l.
Proof.
  intros Hf. unfold array_entries. rewrite fold_obj_set.
  - cbn [app]. by apply index_keys_map.
  - cbn [List.map app].
    replace (List.map (fun kv : jsstring * value => f kv.1)
               (imap (fun i x => (decimal (N.of_nat i), x)) l))
      with (List.map fst
              (List.map (fun kv : jsstring * value => (f kv.1, kv.2))
                 (imap (fun i x => (decimal (N.of_nat i), x)) l)))
      by (by rewrite List.map_map).
    rewrite (index_keys_map f N.of_nat l Hf).
    apply index_keys_NoDup. intros i j. apply Nat2N.inj.
Qed.

(** X21. [compress] and [decompress] take an array as an object, since
    [typeof] of an array is ['object'] and that test comes first: what
    they return for an array is a plain object with the transformed
    elements under their indices, never an array. *)
Theorem compress_array_as_object items :
  compress (VArray items) = VObject (array_entries (List.map compress items))
  /\ decompress (VArray items)
     = VObject (array_entries (List.map decompress items)).
Proof.
  split.
  - cbn [TokenOptimizer.compress].
    change (imap _ (List.map compress items))
      with (array_entries (List.map compress items)).
    rewrite fold_index_keys; [done|]. intros n. apply index_key_unchanged.
  - cbn [TokenOptimizer.decompress].
    change (imap _ (List.map decompress items))
      with (array_entries (List.map decompress items)).
    rewrite fold_index_keys; [done|]. intros n. apply index_key_unchanged.
Qed.

End KeyProperties.

(** ** The text a string is compressed to *)

Section TextProperties.

Variable unicode_toLowerCase : jsstring -> jsstring.
Variable deflateSync : Buffer -> result Buffer.
Variable base64_encode : Buffer -> jsstring.

#[local] Abbreviation compressString :=
  (TokenOptimizer.compressString unicode_toLowerCase deflateSync base64_encode).

(** *** Whitespace *)

Lemma collapse_starts s : starts_space (collapse_spaces true s) = false.
Proof.
  induction s as [|c s IH]; [done|]. cbn [collapse_spaces].
  destruct (is_space c) eqn:E; [exact IH|]. exact E.
Qed.

Lemma collapse_single b s : spaces_single (collapse_spaces b s) = true.
Proof.
  revert b. induction s as [|c s IH]; intros b; [done|]. cbn [collapse_spaces].
  destruct (is_space c) eqn:E.
  - destruct b; [apply IH|]. cbn [spaces_single].
    change (is_space 32) with true. cbn [Z.eqb Pos.eqb andb].
    by rewrite collapse_starts, IH.
  - cbn [spaces_single]. by rewrite E, IH.
Qed.

Lemma starts_space_app s1 s2 :
  starts_space (s1 ++ s2)
  = match s1 with [] => starts_space s2 | _ :: _ => starts_space s1 end.
Proof. by destruct s1. Qed.

Lemma ends_space_snoc s c : ends_space (s ++ [c]) = is_space c.
Proof. unfold ends_space. by rewrite rev_app_distr. Qed.

Lemma ends_space_cons c s :
  ends_space (c :: s) = match s with [] => is_space c | _ :: _ => ends_space s end.
Proof.
  unfold ends_space. destruct s as [|d s]; [done|].
  cbn [rev]. destruct (rev s ++ [d]) as [|x l] eqn:Hx; [|done].
  by destruct (rev s).
Qed.

Lemma spaces_single_app s1 s2 :
  spaces_single (s1 ++ s2)
  = spaces_single s1 && spaces_single s2
    && negb (ends_space s1 && starts_space s2).
Proof.
  induction s1 as [|c s1 IH].
  - cbn. by rewrite andb_true_r.
  - cbn [app spaces_single]. rewrite IH, starts_space_app, ends_space_cons.
    destruct s1 as [|d s1].
    + cbn [spaces_single starts_space]. unfold ends_space. cbn [rev starts_space].
      destruct (is_space c), (c =? 32), (starts_space s2), (spaces_single s2);
        reflexivity.
    + destruct (is_space c), (c =? 32), (starts_space (d :: s1)),
        (spaces_single (d :: s1)), (spaces_single s2), (ends_space (d :: s1)),
        (starts_space s2); reflexivity.
Qed.

Lemma spaces_single_rev s : spaces_single (rev s) = spaces_single s.
Proof.
  induction s as [|c s IH]; [done|].
  cbn [rev spaces_single]. rewrite spaces_single_app, IH.
  cbn [spaces_single starts_space].
  replace (ends_space (rev s)) with (starts_space s)
    by (unfold ends_space; by rewrite rev_involutive).
  destruct (is_space c), (c =? 32), (starts_space s), (spaces_single s);
    reflexivity.
Qed.

Lemma trimStart_starts s : starts_space (trimStart s) = false.
Proof.
  induction s as [|c s IH]; [done|]. cbn [trimStart].
  destruct (is_space c) eqn:E; [exact IH | exact E].
Qed.

Lemma trimStart_single s :
  spaces_single s = true -> spaces_single (trimStart s) = true.
Proof.
  induction s as [|c s IH]; [done|]. cbn [trimStart spaces_single].
  intros [_ Hs]%andb_true_iff. destruct (is_space c) eqn:E; [by apply IH|].
  cbn [spaces_single]. by rewrite E, Hs.
Qed.

Lemma trimStart_ends s :
  ends_space s = false -> ends_space (trimStart s) = false.
Proof.
  induction s as [|c s IH]; [done|]. cbn [trimStart].
  destruct (is_space c) eqn:E; [|done].
  rewrite ends_space_cons. destruct s as [|d s]; [done|]. apply IH.
Qed.

Lemma trim_normal s :
  spaces_single s = true -> normal_spaces (trim s) = true.
Proof.
  intros Hs. unfold normal_spaces, trim.
  rewrite spaces_single_rev, trimStart_single
    by (rewrite spaces_single_rev; by apply trimStart_single).
  unfold ends_space at 1. rewrite rev_involutive, trimStart_starts.
  replace (starts_space (rev (trimStart (rev (trimStart s)))))
    with (ends_space (trimStart (rev (trimStart s)))) by reflexivity.
  rewrite trimStart_ends; [done|].
  unfold ends_space. by rewrite rev_involutive, trimStart_starts.
Qed.

(** *** Letters *)

#[local] Abbreviation no_upper s := (forallb (fun c => negb (is_upper c)) s).

Lemma no_upper_app s1 s2 : no_upper (s1 ++ s2) = no_upper s1 && no_upper s2.
Proof. apply forallb_app. Qed.

Lemma replace_words_no_upper pat rep s : forall prev skip,
  no_upper rep = true -> no_upper s = true ->
  no_upper (replace_words_from pat rep prev skip s) = true.
Proof.
  induction s as [|c s IH]; intros prev skip Hrep Hs; [done|].
  cbn [forallb] in Hs. apply andb_true_iff in Hs as [Hc Hs].
  cbn [replace_words_from]. destruct skip as [|k]; [|by apply IH].
  destruct (negb prev && word_at pat (c :: s)).
  - rewrite no_upper_app, Hrep. by apply IH.
  - cbn [forallb]. rewrite Hc. by apply IH.
Qed.

Lemma abbreviate_no_upper (table : list (jsstring * jsstring)) : forall s,
  forallb (fun fa => no_upper fa.2) table = true -> no_upper s = true ->
  no_upper (fold_left (fun s fa => replace_words fa.1 fa.2 s) table s) = true.
Proof.
  induction table as [|[full abbrev] table IH]; intros s Ht Hs; [done|].
  cbn [forallb snd] in Ht. apply andb_true_iff in Ht as [Ha Ht].
  cbn [fold_left fst snd]. apply IH; [done|].
  by apply replace_words_no_upper.
Qed.

Lemma collapse_no_upper b s :
  no_upper s = true -> no_upper (collapse_spaces b s) = true.
Proof.
  revert b. induction s as [|c s IH]; intros b; [done|]. cbn [forallb].
  intros [Hc Hs]%andb_true_iff. cbn [collapse_spaces].
  destruct (is_space c); [destruct b|]; cbn [forallb];
    rewrite ?Hc, ?IH; done.
Qed.

Lemma trimStart_no_upper s :
  no_upper s = true -> no_upper (trimStart s) = true.
Proof.
  induction s as [|c s IH]; [done|]. cbn [forallb trimStart].
  intros [Hc Hs]%andb_true_iff. destruct (is_space c); [by apply IH|].
  cbn [forallb]. by rewrite Hc, Hs.
Qed.

Lemma rev_no_upper s : no_upper (rev s) = no_upper s.
Proof.
  induction s as [|c s IH]; [done|]. cbn [rev forallb].
  rewrite no_upper_app, IH. cbn [forallb]. rewrite andb_true_r.
  apply andb_comm.
Qed.

Lemma trim_no_upper s : no_upper s = true -> no_upper (trim s) = true.
Proof.
  intros Hs. unfold trim. rewrite rev_no_upper. apply trimStart_no_upper.
  rewrite rev_no_upper. by apply trimStart_no_upper.
Qed.

Lemma toLowerCase_no_upper s :
  forallb is_ascii s = true ->
  no_upper (TokenOptimizer.toLowerCase unicode_toLowerCase s) = true.
Proof.
  intros Hs. unfold TokenOptimizer.toLowerCase. rewrite Hs. clear Hs.
  induction s as [|c s IH]; [done|]. cbn [List.map forallb]. rewrite IH.
  rewrite andb_true_r. unfold ascii_lower, is_upper.
  destruct (in_range 65 90 c) eqn:E.
  - apply in_range_true in E. apply negb_true_iff, in_range_false. lia.
  - by rewrite E.
Qed.

(** X22. What [compressString] returns is made from a text [n] whose
    whitespace is normalised and which, for an ASCII input, has no
    capital letter: it is [n] itself, or, only when [n] is longer than
    100 and deflating it saves more than a fifth, the prefix [__ZLIB__]
    with the base64 text of the deflated bytes. *)
Theorem compressString_normalises text :
  exists n,
    normal_spaces n = true
    /\ (forallb is_ascii text = true -> no_upper n = true)
    /\ (compressString text = n
        \/ (TokenOptimizer.compressionThreshold < js_length n
            /\ exists deflated,
                 deflateSync (utf8_encode n) = Ok deflated
                 /\ 5 * Z.of_nat (length deflated) < 4 * js_length n
                 /\ compressString text
                    = str "__ZLIB__" ++ base64_encode deflated)).
Proof.
  unfold TokenOptimizer.compressString.
  set (n := trim (collapse_spaces false _)).
  exists n. split; [|split].
  - apply trim_normal, collapse_single.
  - intros Hascii. apply trim_no_upper, collapse_no_upper, abbreviate_no_upper.
    + vm_compute. reflexivity.
    + by apply toLowerCase_no_upper.
  - destruct (Z.ltb_spec TokenOptimizer.compressionThreshold (js_length n))
      as [Hlong|_]; [|by left].
    destruct (deflateSync (utf8_encode n)) as [deflated|e]; [|by left].
    destruct (Z.ltb_spec (5 * Z.of_nat (length deflated)) (4 * js_length n))
      as [Hsave|_]; [|by left].
    right. split; [done|]. by exists deflated.
Qed.

End TextProperties.

(** *** The table at the keys "message" and "result" *)

Lemma abbreviation_keys_round_trip_witness :
  (TokenOptimizer.compressKey Sample.toLowerCase (str "message") = str "msg"
   /\ (str "message" <> str "response" ->
       TokenOptimizer.decompressKey
         (TokenOptimizer.compressKey Sample.toLowerCase (str "message"))
       = str "message")
   /\ TokenOptimizer.decompressKey
        (TokenOptimizer.compressKey Sample.toLowerCase (str "response"))
      = str "result")
  /\ TokenOptimizer.compressKey Sample.toLowerCase (str "result") = str "res".
Proof.
  split.
  - apply (abbreviation_keys_round_trip Sample.toLowerCase (str "message")
             (str "msg")).
    vm_compute. tauto.
  - apply (abbreviation_keys_round_trip Sample.toLowerCase (str "result")
             (str "res")).
    vm_compute. tauto.
Defined.

(** ** Delivery and recall *)

Section DeliveryProperties.

Variable unicode_toLowerCase : jsstring -> jsstring.
Variable deflateSync : Buffer -> result Buffer.
Variable base64_encode : Buffer -> jsstring.
Variable now : Z.

#[local] Abbreviation sendMessage :=
  (AIProcessingLayer.sendMessage unicode_toLowerCase deflateSync base64_encode
     now).
#[local] Abbreviation sendMessage_try :=
  (AIProcessingLayer.sendMessage_try unicode_toLowerCase deflateSync
     base64_encode now).
#[local] Abbreviation optimizeMessage :=
  (AIProcessingLayer.optimizeMessage unicode_toLowerCase deflateSync
     base64_encode).
#[local] Abbreviation optimized_content :=
  (AIProcessingLayer.optimized_content unicode_toLowerCase deflateSync
     base64_encode).
#[local] Abbreviation compact_of := AIProcessingLayer.compact_of.
#[local] Abbreviation msg_key := AIProcessingLayer.msg_key.
#[local] Abbreviation agents := AIProcessingLayer.agents.
#[local] Abbreviation cache := AIProcessingLayer.cache.

Implicit Types (w : AIProcessingLayer.t) (message : AIMessage.t).

(** The feedback when every delivery test passes, and the key under
    which the learning of a call at time [now] is stored. *)
#[local] Abbreviation all_passed :=
  (str "All delivery tests passed successfully").
#[local] Abbreviation learning_key := (str "learning_" ++ decimal (Z.to_N now)).

Lemma bindE_ok {A B : Type} (m : AIProcessingLayer.Eff A)
    (k : A -> AIProcessingLayer.Eff B) w a w' :
  m w = (Ok a, w') -> AIProcessingLayer.bindE m k w = k a w'.
Proof. intros H. unfold AIProcessingLayer.bindE. by rewrite H. Qed.

Lemma bindE_throw {A B : Type} (m : AIProcessingLayer.Eff A)
    (k : A -> AIProcessingLayer.Eff B) w e w' :
  m w = (Throw e, w') -> AIProcessingLayer.bindE m k w = (Throw e, w').
Proof. intros H. unfold AIProcessingLayer.bindE. by rewrite H. Qed.

Lemma optimizeMessage_content message w :
  optimizeMessage message w
  = (match optimized_content message with
     | Ok c => Ok (compact_of message c)
     | Throw e => Throw e
     end, w).
Proof.
  unfold AIProcessingLayer.optimizeMessage, AIProcessingLayer.optimized_content,
    AIProcessingLayer.compact_of.
  destruct (AIMessage.encoding message); try reflexivity.
  destruct (A114Protocol.encode (AIMessage.content message)); reflexivity.
Qed.

Lemma optimized_content_cases message :
  (exists c, optimized_content message = Ok c)
  \/ (AIMessage.encoding message = A114
      /\ exists e, A114Protocol.encode (AIMessage.content message) = Throw e
                   /\ optimized_content message = Throw e).
Proof.
  unfold AIProcessingLayer.optimized_content.
  destruct (AIMessage.encoding message); try (left; by eexists).
  destruct (A114Protocol.encode (AIMessage.content message)) as [p|e].
  - left. by eexists.
  - right. split; [done|]. by exists e.
Qed.

(** The receiver after [routeMessage]. *)
#[local] Abbreviation delivered_to b message c :=
  (AIAgent.mk (AIAgent.id b) (AIAgent.name b) (AIAgent.capabilities b)
     (<[msg_key (AIMessage.id message) :=
          Delivered c (AIMessage.senderId message) (AIMessage.timestamp message)]>
        (AIAgent.memoryContext b))
     now).

(** An agent after [updateAgentMemory]. *)
#[local] Abbreviation taught a :=
  (AIAgent.mk (AIAgent.id a) (AIAgent.name a) (AIAgent.capabilities a)
     (<[learning_key :=
          Learning (AIProcessingLayer.extractLearnings all_passed)]>
        (AIAgent.memoryContext a))
     (AIAgent.lastActive a)).

Lemma routeMessage_found message c w b :
  agents w !! AIMessage.receiverId message = Some b ->
  AIProcessingLayer.routeMessage now (compact_of message c) w
  = (Ok (str "routed"),
     AIProcessingLayer.mk
       (<[AIMessage.receiverId message := delivered_to b message c]> (agents w))
       (CacheManager.set now (msg_key (AIMessage.id message))
          (compact_of message c) (Some 300000) (AIMessage.priority message)
          (cache w))).
Proof.
  intros Hb. unfold AIProcessingLayer.routeMessage, AIProcessingLayer.bindE,
    AIProcessingLayer.read, AIProcessingLayer.update, AIProcessingLayer.ret.
  cbn [AIProcessingLayer.compact_of CompactMessage.r CompactMessage.i
       CompactMessage.p CompactMessage.c CompactMessage.s CompactMessage.t_].
  rewrite Hb. reflexivity.
Qed.

Lemma testMessageDelivery_passes message c w b' :
  agents w !! AIMessage.receiverId message = Some b' ->
  is_Some (AIAgent.memoryContext b' !! msg_key (AIMessage.id message)) ->
  CacheManager.has now (msg_key (AIMessage.id message)) (cache w) = true ->
  AIProcessingLayer.testMessageDelivery now (compact_of message c) w
  = (Ok [ (str "receiver_memory", true); (str "cache_storage", true);
          (str "message_integrity", true) ], w).
Proof.
  intros Hb Hmem Hc. unfold AIProcessingLayer.testMessageDelivery,
    AIProcessingLayer.bindE, AIProcessingLayer.read, AIProcessingLayer.ret.
  cbn [AIProcessingLayer.compact_of CompactMessage.r CompactMessage.i].
  rewrite Hb, Hc. by rewrite bool_decide_eq_true_2.
Qed.

Lemma updateAgentMemory_found agentId learning w a :
  agents w !! agentId = Some a ->
  AIProcessingLayer.updateAgentMemory now agentId learning w
  = (Ok tt,
     AIProcessingLayer.mk
       (<[agentId :=
            AIAgent.mk (AIAgent.id a) (AIAgent.name a) (AIAgent.capabilities a)
              (<[learning_key := Learning learning]> (AIAgent.memoryContext a))
              (AIAgent.lastActive a)]> (agents w))
       (cache w)).
Proof.
  intros Ha. unfold AIProcessingLayer.updateAgentMemory,
    AIProcessingLayer.bindE, AIProcessingLayer.read, AIProcessingLayer.update.
  by rewrite Ha.
Qed.

(** The state a successful [sendMessage] leaves: the compact message in
    the cache, the receiver with the delivery in its memory, and the
    sender, as it is after the delivery, with the learning in its. *)
Lemma sendMessage_try_delivers message w a b c :
  agents w !! AIMessage.senderId message = Some a ->
  agents w !! AIMessage.receiverId message = Some b ->
  optimized_content message = Ok c ->
  exists a1,
    <[AIMessage.receiverId message := delivered_to b message c]> (agents w)
      !! AIMessage.senderId message = Some a1
    /\ sendMessage_try message w
       = (Ok true,
          AIProcessingLayer.mk
            (<[AIMessage.senderId message := taught a1]>
               (<[AIMessage.receiverId message := delivered_to b message c]>
                  (agents w)))
            (CacheManager.set now (msg_key (AIMessage.id message))
               (compact_of message c) (Some 300000)
               (AIMessage.priority message) (cache w))).
Proof.
  intros Ha Hb Hc.
  assert (exists a1,
    <[AIMessage.receiverId message := delivered_to b message c]> (agents w)
      !! AIMessage.senderId message = Some a1) as [a1 Ha1].
  { rewrite lookup_insert. case_decide; [by eexists|by exists a]. }
  exists a1. split; [done|].
  unfold AIProcessingLayer.sendMessage_try.
  rewrite (bindE_ok _ _ w true w).
  2:{ unfold AIProcessingLayer.read. rewrite Ha, Hb.
      by rewrite !bool_decide_eq_true_2 by by eexists. }
  cbn [negb].
  rewrite (bindE_ok _ _ w (compact_of message c) w)
    by (by rewrite optimizeMessage_content, Hc).
  erewrite bindE_ok by (by apply routeMessage_found).
  erewrite bindE_ok by reflexivity.
  set (w1 := AIProcessingLayer.mk _ _).
  assert (Htest : AIProcessingLayer.testMessageDelivery now
                    (compact_of message c) w1
                  = (Ok [ (str "receiver_memory", true);
                          (str "cache_storage", true);
                          (str "message_integrity", true) ], w1)).
  { apply (testMessageDelivery_passes message c w1 (delivered_to b message c)).
    - unfold w1. cbn [AIProcessingLayer.agents]. apply lookup_insert_eq.
    - cbn [AIAgent.memoryContext]. rewrite lookup_insert_eq. by eexists.
    - unfold w1. cbn [AIProcessingLayer.cache]. apply has_after_set.
      cbn. lia. }
  rewrite (bindE_ok _ _ w1 _ w1 Htest).
  cbn [forallb snd negb andb].
  erewrite bindE_ok by reflexivity.
  rewrite (bindE_ok _ _ w1 true w1).
  2:{ unfold AIProcessingLayer.validateDelivery.
      by rewrite (bindE_ok _ _ w1 _ w1 Htest). }
  erewrite bindE_ok.
  2:{ apply updateAgentMemory_found. unfold w1. cbn [AIProcessingLayer.agents].
      exact Ha1. }
  reflexivity.
Qed.

Lemma sendMessage_unregistered message w :
  agents w !! AIMessage.senderId message = None
  \/ agents w !! AIMessage.receiverId message = None ->
  sendMessage_try message w = (Throw AgentNotRegistered, w).
Proof.
  intros Hun. unfold AIProcessingLayer.sendMessage_try.
  rewrite (bindE_ok _ _ w false w); [reflexivity|].
  unfold AIProcessingLayer.read. do 2 f_equal. apply andb_false_iff.
  destruct Hun as [H|H]; [left|right]; apply bool_decide_eq_false_2;
    rewrite H; by intros [x Hx].
Qed.

Lemma sendMessage_try_faulty message w a b e :
  agents w !! AIMessage.senderId message = Some a ->
  agents w !! AIMessage.receiverId message = Some b ->
  optimized_content message = Throw e ->
  sendMessage_try message w = (Throw e, w).
Proof.
  intros Ha Hb Hc. unfold AIProcessingLayer.sendMessage_try.
  rewrite (bindE_ok _ _ w true w).
  2:{ unfold AIProcessingLayer.read. rewrite Ha, Hb.
      by rewrite !bool_decide_eq_true_2 by by eexists. }
  cbn [negb].
  by rewrite (bindE_throw _ _ w e w) by (by rewrite optimizeMessage_content, Hc).
Qed.

Lemma sendMessage_of_try message w r w' :
  sendMessage_try message w = (r, w') ->
  sendMessage message w
  = (Ok (match r with Ok b => b | Throw _ => false end), w').
Proof.
  intros H. unfold AIProcessingLayer.sendMessage, AIProcessingLayer.try_catch.
  rewrite H. by destruct r.
Qed.

(** X23. [sendMessage] returns [true] exactly when the sender and the
    receiver are registered and the content can be transformed (with the
    A114 encoding: when the codec returns a packet); it returns [false]
    in every other case. *)
Theorem sendMessage_true_iff message w :
  ((sendMessage message w).1 = Ok true
   <-> is_Some (agents w !! AIMessage.senderId message)
       /\ is_Some (agents w !! AIMessage.receiverId message)
       /\ exists c, optimized_content message = Ok c)
  /\ ((sendMessage message w).1 = Ok true
      \/ (sendMessage message w).1 = Ok false).
Proof.
  destruct (agents w !! AIMessage.senderId message) as [a|] eqn:Ha.
  2:{ rewrite (sendMessage_of_try message w _ w
                 (sendMessage_unregistered message w (or_introl Ha))).
      cbn. split; [|by right]. split; [done|]. by intros [[? ?] _]. }
  destruct (agents w !! AIMessage.receiverId message) as [b|] eqn:Hb.
  2:{ rewrite (sendMessage_of_try message w _ w
                 (sendMessage_unregistered message w (or_intror Hb))).
      cbn. split; [|by right]. split; [done|]. by intros (_ & [? ?] & _). }
  destruct (optimized_content message) as [c|e] eqn:Hc.
  - destruct (sendMessage_try_delivers message w a b c Ha Hb Hc) as (a1 & _ & Htry).
    rewrite (sendMessage_of_try message w _ _ Htry). cbn.
    split; [|by left]. split; [|done]. intros _. split_and!; by eexists.
  - rewrite (sendMessage_of_try message w _ _
               (sendMessage_try_faulty message w a b e Ha Hb Hc)).
    cbn. split; [|by right]. split; [done|]. by intros (_ & _ & [? ?]).
Qed.

Lemma msg_key_not_learning id : msg_key id <> learning_key.
Proof. discriminate. Qed.

(** X24. What a successful [sendMessage] leaves behind: the compact message
    in the cache under [msg_<id>], for 5 minutes and with the priority
    of the message; the delivery in the memory of the receiver, whose
    [lastActive] is the time of the call; and the learning in the memory
    of the sender. *)
Theorem sendMessage_delivers message w c :
  is_Some (agents w !! AIMessage.senderId message) ->
  is_Some (agents w !! AIMessage.receiverId message) ->
  optimized_content message = Ok c ->
  (sendMessage message w).1 = Ok true
  /\ cache (sendMessage message w).2
     = CacheManager.set now (msg_key (AIMessage.id message))
         (compact_of message c) (Some 300000) (AIMessage.priority message)
         (cache w)
  /\ (exists b',
        agents (sendMessage message w).2 !! AIMessage.receiverId message
        = Some b'
        /\ AIAgent.memoryContext b' !! msg_key (AIMessage.id message)
           = Some (Delivered c (AIMessage.senderId message)
                     (AIMessage.timestamp message))
        /\ AIAgent.lastActive b' = now)
  /\ (exists a',
        agents (sendMessage message w).2 !! AIMessage.senderId message
        = Some a'
        /\ AIAgent.memoryContext a' !! learning_key
           = Some (Learning (AIProcessingLayer.extractLearnings all_passed))).
Proof.
  intros [a Ha] [b Hb] Hc.
  destruct (sendMessage_try_delivers message w a b c Ha Hb Hc)
    as (a1 & Ha1 & Htry).
  rewrite (sendMessage_of_try message w _ _ Htry).
  cbn [fst snd AIProcessingLayer.cache AIProcessingLayer.agents].
  split; [done|]. split; [done|]. split.
  - destruct (decide (AIMessage.senderId message = AIMessage.receiverId message))
      as [Hsr|Hsr].
    + rewrite Hsr in Ha1 |- *. rewrite lookup_insert_eq in Ha1.
      injection Ha1 as <-. rewrite lookup_insert_eq.
      eexists. split; [done|].
      cbn [AIAgent.memoryContext AIAgent.lastActive]. split; [|done].
      rewrite lookup_insert_ne by (apply not_eq_sym, msg_key_not_learning).
      apply lookup_insert_eq.
    + rewrite lookup_insert_ne by done. rewrite lookup_insert_eq.
      eexists. split; [done|].
      cbn [AIAgent.memoryContext AIAgent.lastActive]. split; [|done].
      apply lookup_insert_eq.
  - rewrite lookup_insert_eq. eexists. split; [done|].
    cbn [AIAgent.memoryContext]. apply lookup_insert_eq.
Qed.

(** What [sendMessage] returned [true] for: the state it left. *)
Lemma sendMessage_true_inv message w w' :
  sendMessage message w = (Ok true, w') ->
  exists a b c a1,
    agents w !! AIMessage.senderId message = Some a
    /\ agents w !! AIMessage.receiverId message = Some b
    /\ optimized_content message = Ok c
    /\ w' = AIProcessingLayer.mk
              (<[AIMessage.senderId message := taught a1]>
                 (<[AIMessage.receiverId message := delivered_to b message c]>
                    (agents w)))
              (CacheManager.set now (msg_key (AIMessage.id message))
                 (compact_of message c) (Some 300000)
                 (AIMessage.priority message) (cache w))
    /\ <[AIMessage.receiverId message := delivered_to b message c]> (agents w)
         !! AIMessage.senderId message = Some a1.
Proof.
  intros Hsend.
  destruct (agents w !! AIMessage.senderId message) as [a|] eqn:Ha.
  2:{ by rewrite (sendMessage_of_try message w _ w
                    (sendMessage_unregistered message w (or_introl Ha)))
        in Hsend. }
  destruct (agents w !! AIMessage.receiverId message) as [b|] eqn:Hb.
  2:{ by rewrite (sendMessage_of_try message w _ w
                    (sendMessage_unregistered message w (or_intror Hb)))
        in Hsend. }
  destruct (optimized_content message) as [c|e] eqn:Hc.
  - destruct (sendMessage_try_delivers message w a b c Ha Hb Hc)
      as (a1 & Ha1 & Htry).
    rewrite (sendMessage_of_try message w _ _ Htry) in Hsend.
    injection Hsend as <-. by exists a, b, c, a1.
  - by rewrite (sendMessage_of_try message w _ _
                  (sendMessage_try_faulty message w a b e Ha Hb Hc)) in Hsend.
Qed.

(** X25. A message that was sent is recalled from the cache, for any agent,
    until 5 minutes have passed: [recallMessage] returns the compact
    message, with the transformed content and [cp] set. *)
Theorem recall_after_send now' message w w' agentId :
  sendMessage message w = (Ok true, w') ->
  now' - now <= 300000 ->
  exists c,
    optimized_content message = Ok c
    /\ (AIProcessingLayer.recallMessage now' (AIMessage.id message) agentId w').1
       = Ok (AIProcessingLayer.FromCache (compact_of message c))
    /\ CompactMessage.cp (compact_of message c) = true.
Proof.
  intros (a & b & c & a1 & _ & _ & Hc & -> & _)%sendMessage_true_inv Hage.
  exists c. split; [done|]. split; [|done].
  unfold AIProcessingLayer.recallMessage, AIProcessingLayer.bindE.
  cbn [AIProcessingLayer.cache].
  pose proof (find_after_set now (msg_key (AIMessage.id message))
                (compact_of message c) (Some 300000)
                (AIMessage.priority message) (cache w)) as Hf.
  rewrite (get_fresh now' _ _ _ Hf)
    by (apply fresh_item_not_stale; [done | cbn; lia]).
  reflexivity.
Qed.

(** X26. Once the 5 minutes have passed, the cache no longer has the message,
    and [recallMessage] for the receiver falls back to the delivery in
    the receiver's memory. *)
Theorem recall_after_expiry now' message w w' :
  sendMessage message w = (Ok true, w') ->
  now <> 0 -> 300000 < now' - now ->
  exists c,
    optimized_content message = Ok c
    /\ (AIProcessingLayer.recallMessage now' (AIMessage.id message)
          (AIMessage.receiverId message) w').1
       = Ok (AIProcessingLayer.FromMemory
               (Delivered c (AIMessage.senderId message)
                  (AIMessage.timestamp message))).
Proof.
  intros (a & b & c & a1 & _ & _ & Hc & -> & Ha1)%sendMessage_true_inv Hnow Hage.
  exists c. split; [done|].
  unfold AIProcessingLayer.recallMessage, AIProcessingLayer.bindE,
    AIProcessingLayer.read.
  cbn [AIProcessingLayer.cache].
  pose proof (find_after_set now (msg_key (AIMessage.id message))
                (compact_of message c) (Some 300000)
                (AIMessage.priority message) (cache w)) as Hf.
  rewrite (get_expired now' _ _ _ Hf).
  2:{ unfold LRUCache.isStale, LRUCache.start_of.
      cbn [LRUCache.i_ttl LRUCache.i_start CacheManager.ttl_or_default Z.eqb].
      rewrite (proj2 (Z.eqb_neq _ 0) Hnow).
      by rewrite (proj2 (Z.ltb_lt _ _)) by lia. }
  cbn [AIProcessingLayer.agents].
  destruct (decide (AIMessage.senderId message = AIMessage.receiverId message))
    as [Hsr|Hsr].
  - rewrite Hsr in Ha1 |- *. rewrite lookup_insert_eq in Ha1.
    injection Ha1 as <-. rewrite lookup_insert_eq. cbn [AIAgent.memoryContext].
    rewrite lookup_insert_ne by (apply not_eq_sym, msg_key_not_learning).
    by rewrite lookup_insert_eq.
  - rewrite lookup_insert_ne by done. rewrite lookup_insert_eq.
    cbn [AIAgent.memoryContext]. by rewrite lookup_insert_eq.
Qed.

(** X27. [sendMessage] never registers or removes an agent, and never changes
    the identifier, the name or the capabilities of one. *)
Theorem sendMessage_keeps_registry message w agentId :
  match agents w !! agentId, agents (sendMessage message w).2 !! agentId with
  | Some a, Some a' =>
      AIAgent.id a' = AIAgent.id a /\ AIAgent.name a' = AIAgent.name a
      /\ AIAgent.capabilities a' = AIAgent.capabilities a
  | None, None => True
  | _, _ => False
  end.
Proof.
  destruct (sendMessage message w) as [[[|]|e] w'] eqn:Hsend.
  - apply sendMessage_true_inv in Hsend
      as (a & b & c & a1 & Ha & Hb & Hc & -> & Ha1).
    cbn [snd AIProcessingLayer.agents].
    rewrite lookup_insert in Ha1.
    rewrite !lookup_insert.
    destruct (decide (AIMessage.senderId message = agentId)) as [<-|Hs].
    + rewrite Ha. destruct (decide _) as [Hrs|Hrs] in Ha1.
      * injection Ha1 as <-. cbn. rewrite Hrs in Hb.
        rewrite Ha in Hb. by injection Hb as <-.
      * rewrite Ha in Ha1. by injection Ha1 as <-.
    + destruct (decide (AIMessage.receiverId message = agentId)) as [<-|Hr].
      * by rewrite Hb.
      * by destruct (agents w !! agentId).
  - assert (w' = w) as ->;
      [|cbn [snd]; destruct (agents w !! agentId); [by split_and!|done]].
    revert Hsend.
    destruct (agents w !! AIMessage.senderId message) as [a|] eqn:Ha.
    2:{ rewrite (sendMessage_of_try message w _ w
                   (sendMessage_unregistered message w (or_introl Ha))).
        by intros [= <-]. }
    destruct (agents w !! AIMessage.receiverId message) as [b|] eqn:Hb.
    2:{ rewrite (sendMessage_of_try message w _ w
                   (sendMessage_unregistered message w (or_intror Hb))).
        by intros [= <-]. }
    destruct (optimized_content message) as [c|e] eqn:Hc.
    + destruct (sendMessage_try_delivers message w a b c Ha Hb Hc)
        as (a1 & _ & Htry).
      by rewrite (sendMessage_of_try message w _ _ Htry).
    + rewrite (sendMessage_of_try message w _ _
                 (sendMessage_try_faulty message w a b e Ha Hb Hc)).
      by intros [= <-].
  - unfold AIProcessingLayer.sendMessage, AIProcessingLayer.try_catch in Hsend.
    by destruct (sendMessage_try message w) as [[?|?] ?].
Qed.

(** X28. A message with the A114 encoding whose content the codec cannot
    encode is not delivered, and the failed call leaves no trace: the
    registry, every memory, the cache and its statistics are as before. *)
Theorem failed_encode_no_effect message w e :
  AIMessage.encoding message = A114 ->
  A114Protocol.encode (AIMessage.content message) = Throw e ->
  sendMessage message w = (Ok false, w).
Proof.
  intros Henc He.
  assert (Hc : optimized_content message = Throw e).
  { unfold AIProcessingLayer.optimized_content. by rewrite Henc, He. }
  destruct (agents w !! AIMessage.senderId message) as [a|] eqn:Ha.
  2:{ by rewrite (sendMessage_of_try message w _ w
                    (sendMessage_unregistered message w (or_introl Ha))). }
  destruct (agents w !! AIMessage.receiverId message) as [b|] eqn:Hb.
  2:{ by rewrite (sendMessage_of_try message w _ w
                    (sendMessage_unregistered message w (or_intror Hb))). }
  by rewrite (sendMessage_of_try message w _ _
                (sendMessage_try_faulty message w a b e Ha Hb Hc)).
Qed.

(** X29. [clearMemory] with the identifier of an agent empties that agent's
    memory only: the cache is not touched, so a message that was sent is
    still recalled from it. *)
Theorem clear_agent_keeps_cache now' message w w' agentId recaller :
  sendMessage message w = (Ok true, w') ->
  now' - now <= 300000 -> agentId <> [] ->
  cache (AIProcessingLayer.clearMemory (Some agentId) w') = cache w'
  /\ (forall a, agents w' !! agentId = Some a ->
        agents (AIProcessingLayer.clearMemory (Some agentId) w') !! agentId
        = Some (AIProcessingLayer.clear_memory a))
  /\ (forall other, other <> agentId ->
        agents (AIProcessingLayer.clearMemory (Some agentId) w') !! other
        = agents w' !! other)
  /\ exists c,
       optimized_content message = Ok c
       /\ (AIProcessingLayer.recallMessage now' (AIMessage.id message) recaller
             (AIProcessingLayer.clearMemory (Some agentId) w')).1
          = Ok (AIProcessingLayer.FromCache (compact_of message c)).
Proof.
  intros Hsend Hage Hid.
  destruct agentId as [|ch agentId]; [done|].
  cbn [AIProcessingLayer.clearMemory AIProcessingLayer.cache
       AIProcessingLayer.agents].
  split; [done|]. split; [|split].
  - intros a Ha. by rewrite lookup_alter_eq, Ha.
  - intros other Hne. by rewrite lookup_alter_ne.
  - apply sendMessage_true_inv in Hsend
      as (a & b & c & a1 & _ & _ & Hc & -> & _).
    exists c. split; [done|].
    unfold AIProcessingLayer.recallMessage, AIProcessingLayer.bindE.
    cbn [AIProcessingLayer.cache].
    pose proof (find_after_set now (msg_key (AIMessage.id message))
                  (compact_of message c) (Some 300000)
                  (AIMessage.priority message) (cache w)) as Hf.
    rewrite (get_fresh now' _ _ _ Hf)
      by (apply fresh_item_not_stale; [done | cbn; lia]).
    reflexivity.
Qed.

End DeliveryProperties.

(** X30. [clearMemory] without an identifier, or with the empty string, which
    is falsy, empties the memory of every agent and the cache: nothing
    can be recalled afterwards. *)
Theorem clear_all_forgets now' (w : AIProcessingLayer.t)
    (messageId agentId : jsstring) :
  AIProcessingLayer.clearMemory (Some []) w = AIProcessingLayer.clearMemory None w
  /\ CacheManager.size
       (AIProcessingLayer.cache (AIProcessingLayer.clearMemory None w)) = 0%nat
  /\ (forall a,
        AIProcessingLayer.agents (AIProcessingLayer.clearMemory None w) !! agentId
        = Some a -> AIAgent.memoryContext a = ∅)
  /\ (AIProcessingLayer.recallMessage now' messageId agentId
        (AIProcessingLayer.clearMemory None w)).1
     = Ok AIProcessingLayer.NotFound.
Proof.
  split; [reflexivity|]. split; [reflexivity|]. split.
  - cbn [AIProcessingLayer.clearMemory AIProcessingLayer.agents].
    rewrite lookup_fmap. intros a.
    destruct (AIProcessingLayer.agents w !! agentId) as [a0|]; [|done].
    by intros [= <-].
  - unfold AIProcessingLayer.recallMessage, AIProcessingLayer.bindE,
      AIProcessingLayer.read.
    cbn [AIProcessingLayer.clearMemory AIProcessingLayer.cache
         AIProcessingLayer.agents].
    rewrite get_absent by reflexivity.
    cbn [AIProcessingLayer.agents]. rewrite lookup_fmap.
    destruct (AIProcessingLayer.agents w !! agentId) as [a0|]; [|done].
    cbn [fmap option_fmap option_map AIProcessingLayer.clear_memory
         AIAgent.memoryContext].
    by rewrite lookup_empty.
Qed.

(** *** Delivery and recall at the sample layer *)

(** The message [Sample.to_B] sent at time 1000 on the sample layer. *)
Lemma sendMessage_delivers_witness :
  (AIProcessingLayer.sendMessage Sample.toLowerCase Sample.deflateSync
     Sample.base64_encode 1000 Sample.to_B Sample.layer).1 = Ok true
  /\ AIProcessingLayer.cache
       (AIProcessingLayer.sendMessage Sample.toLowerCase Sample.deflateSync
          Sample.base64_encode 1000 Sample.to_B Sample.layer).2
     = CacheManager.set 1000 (AIProcessingLayer.msg_key (str "m1"))
         (AIProcessingLayer.compact_of Sample.to_B
            (CValue (VObject [(str "cnt", VInt 3)])))
         (Some 300000) NORMAL (AIProcessingLayer.cache Sample.layer)
  /\ (exists b',
        AIProcessingLayer.agents
          (AIProcessingLayer.sendMessage Sample.toLowerCase Sample.deflateSync
             Sample.base64_encode 1000 Sample.to_B Sample.layer).2
          !! str "B" = Some b'
        /\ AIAgent.memoryContext b' !! AIProcessingLayer.msg_key (str "m1")
           = Some (Delivered (CValue (VObject [(str "cnt", VInt 3)]))
                     (str "A") 5)
        /\ AIAgent.lastActive b' = 1000)
  /\ (exists a',
        AIProcessingLayer.agents
          (AIProcessingLayer.sendMessage Sample.toLowerCase Sample.deflateSync
             Sample.base64_encode 1000 Sample.to_B Sample.layer).2
          !! str "A" = Some a'
        /\ AIAgent.memoryContext a' !! (str "learning_" ++ decimal (Z.to_N 1000))
           = Some (Learning
                     (AIProcessingLayer.extractLearnings
                        (str "All delivery tests passed successfully")))).
Proof.
  apply (sendMessage_delivers Sample.toLowerCase Sample.deflateSync
           Sample.base64_encode 1000 Sample.to_B Sample.layer
           (CValue (VObject [(str "cnt", VInt 3)]))).
  - vm_compute. by eexists.
  - vm_compute. by eexists.
  - vm_compute. reflexivity.
Defined.

(** The message recalled at time 2000, for the sender. *)
Lemma recall_after_send_witness :
  exists c,
    AIProcessingLayer.optimized_content Sample.toLowerCase Sample.deflateSync
      Sample.base64_encode Sample.to_B = Ok c
    /\ (AIProcessingLayer.recallMessage 2000 (AIMessage.id Sample.to_B) (str "A")
          (AIProcessingLayer.sendMessage Sample.toLowerCase Sample.deflateSync
             Sample.base64_encode 1000 Sample.to_B Sample.layer).2).1
       = Ok (AIProcessingLayer.FromCache
               (AIProcessingLayer.compact_of Sample.to_B c))
    /\ CompactMessage.cp (AIProcessingLayer.compact_of Sample.to_B c) = true.
Proof.
  apply (recall_after_send Sample.toLowerCase Sample.deflateSync
           Sample.base64_encode 1000 2000 Sample.to_B Sample.layer _ (str "A")).
  - vm_compute. reflexivity.
  - lia.
Defined.

(** The message recalled for the receiver at time 400000. *)
Lemma recall_after_expiry_witness :
  exists c,
    AIProcessingLayer.optimized_content Sample.toLowerCase Sample.deflateSync
      Sample.base64_encode Sample.to_B = Ok c
    /\ (AIProcessingLayer.recallMessage 400000 (AIMessage.id Sample.to_B)
          (AIMessage.receiverId Sample.to_B)
          (AIProcessingLayer.sendMessage Sample.toLowerCase Sample.deflateSync
             Sample.base64_encode 1000 Sample.to_B Sample.layer).2).1
       = Ok (AIProcessingLayer.FromMemory
               (Delivered c (AIMessage.senderId Sample.to_B)
                  (AIMessage.timestamp Sample.to_B))).
Proof.
  apply (recall_after_expiry Sample.toLowerCase Sample.deflateSync
           Sample.base64_encode 1000 400000 Sample.to_B Sample.layer _).
  - vm_compute. reflexivity.
  - discriminate.
  - lia.
Defined.

(** The message [Sample.unencodable], whose content is 2^32. *)
Lemma failed_encode_no_effect_witness :
  AIProcessingLayer.sendMessage Sample.toLowerCase Sample.deflateSync
    Sample.base64_encode 1000 Sample.unencodable Sample.layer
  = (Ok false, Sample.layer).
Proof.
  apply (failed_encode_no_effect Sample.toLowerCase Sample.deflateSync
           Sample.base64_encode 1000 Sample.unencodable Sample.layer OutOfRange).
  - reflexivity.
  - vm_compute. reflexivity.
Defined.

(** The memory of B cleared after the delivery of [Sample.to_B_a114]. *)
Lemma clear_agent_keeps_cache_witness :
  exists c,
    AIProcessingLayer.optimized_content Sample.toLowerCase Sample.deflateSync
      Sample.base64_encode Sample.to_B_a114 = Ok c
    /\ (AIProcessingLayer.recallMessage 2000 (AIMessage.id Sample.to_B_a114)
          (str "B")
          (AIProcessingLayer.clearMemory (Some (str "B"))
             (AIProcessingLayer.sendMessage Sample.toLowerCase
                Sample.deflateSync Sample.base64_encode 1000 Sample.to_B_a114
                Sample.layer).2)).1
       = Ok (AIProcessingLayer.FromCache
               (AIProcessingLayer.compact_of Sample.to_B_a114 c)).
Proof.
  apply (clear_agent_keeps_cache Sample.toLowerCase Sample.deflateSync
           Sample.base64_encode 1000 2000 Sample.to_B_a114 Sample.layer _
           (str "B") (str "B")).
  - vm_compute. reflexivity.
  - lia.
  - discriminate.
Defined.
